(** * Verification of the Pokemon visualization charts (ECS163, alfranzen)

    A shallow embedding of the computational parts of

    - [Homework3/alfranzen/ridgelinePlot.js]  (animated density plot),
    - the earlier, static ridgeline plot (same kernel density code, with a
      click-to-zoom handler),
    - [Homework3/alfranzen/stackedBarChart.js] (drill-down stacked bars),
    - [Homework3/alfranzen/parallelCoordinatesPlot.js] (type filter and
      selected Pokemon),

    followed by the properties proved about them.

    Conventions of the embedding.
    - A JavaScript number is an exact rational ([Q]); a value for which
      [isNaN] answers [true] ([NaN], [undefined], a non numeric string) is
      [None] in an [option Q].  Rounding of IEEE doubles is not modelled.
    - A JavaScript string is the string of its UTF-8 bytes; where the
      code orders strings ([<], [d3.ascending], the default order of
      [sort]) the UTF-16 code units of the two strings are compared.
    - A plain JavaScript object used as a dictionary is a [gmap] from
      property names to values; all properties live in one name space, as
      they do in JavaScript.
    - Closure variables that the handlers mutate ([isPlaying],
      [selectedPokemon], ...) are fields of an explicit state record and
      every handler is a function from state to state.
    - DOM drawing is not modelled; what is kept of the DOM is which
      elements carry an event handler, because only those can fire. *)

From Stdlib Require Import QArith Qabs Qround ZArith NArith List Lia Lqa
  Permutation Sorted.
From stdpp Require Import gmap strings list pretty.
Import ListNotations.

(* ================================================================== *)
(** * Part I: the embedding                                             *)
(* ================================================================== *)

(** ** The dataset *)

(** One row of the processed Pokemon dataset.  The categorical columns are
    strings; the numeric columns are numbers or, when missing or not
    numeric, a value that [isNaN] rejects. *)
Record Pokemon := mkPokemon {
  Name : string;
  Type_1 : string;
  Type_2 : string;
  Generation : option Q;
  Total : option Q;
  HP : option Q;
  Attack : option Q;
  Defense : option Q;
  Sp_Atk : option Q;
  Sp_Def : option Q;
  Speed : option Q
}.

(** [isNaN(v)] *)
Definition isNaN (v : option Q) : bool :=
  match v with
  | Some _ => false
  | None => true
  end.

(** [a < b] on numbers *)
Definition Qlt_bool (a b : Q) : bool := negb (Qle_bool b a).

(** ** The parts of d3-array that the charts call *)

Module D3.

(** [d3.mean(values, valueof)]: the mean of the defined, non-NaN values
    [valueof(v)]; [undefined] when there is none.  The loop keeps a
    count and a running sum. *)
Definition mean_step {A : Type} (valueof : A -> option Q)
    (acc : nat * Q) (value : A) : nat * Q :=
  match valueof value with
  | Some v => (S (fst acc), (snd acc + v)%Q)
  | None => acc
  end.

Definition mean {A : Type} (values : list A) (valueof : A -> option Q)
    : option Q :=
  let acc := fold_left (mean_step valueof) values (0%nat, 0%Q) in
  match fst acc with
  | O => None
  | S _ => Some (snd acc / inject_Z (Z.of_nat (fst acc)))%Q
  end.

(** [d3.max(values, valueof)]: the largest defined value, [undefined]
    when there is none; a later equal value does not replace the
    current maximum ([max < value] is strict). *)
Definition max_step {A : Type} (valueof : A -> option Q)
    (max : option Q) (value : A) : option Q :=
  match valueof value with
  | Some v =>
      match max with
      | None => Some v
      | Some m => if Qlt_bool m v then Some v else Some m
      end
  | None => max
  end.

Definition max {A : Type} (values : list A) (valueof : A -> option Q)
    : option Q :=
  fold_left (max_step valueof) values None.

End D3.

(** ** Kernel density estimation (both ridgeline files, same text) *)

(** [function kernelEpanechnikov(k) { return function(v) {
       return Math.abs(v /= k) <= 1 ? 0.75 * (1 - v * v) / k : 0; }; }]
    Both charts call it with [k = 20]. *)
Definition kernelEpanechnikov (k : Q) : Q -> Q :=
  fun v =>
    let v := (v / k)%Q in
    if Qle_bool (Qabs v) 1 then (0.75 * (1 - v * v) / k)%Q else 0%Q.

(** [function kernelDensityEstimator(kernel, X) { return function(V) {
       return X.map(x => [x, d3.mean(V, v => kernel(x - v))]); } }] *)
Definition kernelDensityEstimator (kernel : Q -> Q) (X : list Q)
    : list Q -> list (Q * option Q) :=
  fun V => map (fun x => (x, D3.mean V (fun v => Some (kernel (x - v)%Q)))) X.

(** [const kde = kernelDensityEstimator(kernelEpanechnikov(20), xScale.ticks(n))];
    the ticks of the x scale are the evaluation grid. *)
Definition kde (ticks : list Q) : list Q -> list (Q * option Q) :=
  kernelDensityEstimator (kernelEpanechnikov 20) ticks.

(** [values.map(p => p.Total).filter(val => !isNaN(val))]: the valid
    observations of a sample. *)
Definition validTotals (values : list Pokemon) : list Q :=
  omap Total values.

(** [let density = []; if (genTotals.length >= 2) { density = kde(genTotals); }] *)
Definition densityOf (ticks : list Q) (genTotals : list Q)
    : list (Q * option Q) :=
  if (2 <=? length genTotals)%nat then kde ticks genTotals else [].

(** One entry of [dataByGenArray]. *)
Record GenerationData := mkGenerationData {
  key : string;
  values : list Pokemon
}.

(** ** The animated ridgeline plot, [Homework3/alfranzen/ridgelinePlot.js] *)

Module Ridgeline.

Inductive ButtonText := PlayAnimation | Pause | Replay.

(** What [updateToGeneration] puts on the screen. *)
Record Display := mkDisplay {
  shownIdx : Z;
  shownKey : string;
  N_valid_points : nat;
  density : list (Q * option Q);
  maxDensity : option Q;
  yDomainMax : Q
}.

(** The closure variables of [createRidgelinePlot] together with the
    slider, the button and the drawing. *)
Record AnimationState := mkAnimationState {
  currentAnimationGenerationIndex : Z;
  isPlaying : bool;
  animationTimer : bool;    (* [true]: an interval is running; [false]: [null] *)
  sliderValue : Z;
  playButtonText : ButtonText;
  display : option Display
}.

Section Controller.

(** [xScale.ticks(80)] and [dataByGenArray], fixed once the chart is
    created. *)
Variable ticks : list Q.
Variable dataByGenArray : list GenerationData.

Definition sliderMax : Z :=
  if (0 <? length dataByGenArray)%nat
  then Z.of_nat (length dataByGenArray) - 1
  else 0.

Definition render (generationIdx : Z) (generationData : GenerationData)
    : Display :=
  let genTotals := validTotals (values generationData) in
  let density := densityOf ticks genTotals in
  let maxDensity := D3.max density snd in
  let yDomainMax :=
    match maxDensity with
    | Some m => if Qlt_bool 0 m then m else 1e-6%Q
    | None => 1e-6%Q
    end in
  mkDisplay generationIdx (key generationData) (length genTotals)
            density maxDensity yDomainMax.

(** [function updateToGeneration(generationIdx, isAnimatedOrInitial)];
    the second argument only selects a transition duration. *)
Definition updateToGeneration (generationIdx : Z) (st : AnimationState)
    : AnimationState :=
  if (generationIdx <? 0)%Z
     || (Z.of_nat (length dataByGenArray) <=? generationIdx)%Z
  then st
  else
    match nth_error dataByGenArray (Z.to_nat generationIdx) with
    | Some generationData =>
        mkAnimationState
          (currentAnimationGenerationIndex st) (isPlaying st)
          (animationTimer st) (sliderValue st) (playButtonText st)
          (Some (render generationIdx generationData))
    | None => st
    end.

(** [function pauseAnimation()] *)
Definition pauseAnimation (st : AnimationState) : AnimationState :=
  let n := Z.of_nat (length dataByGenArray) in
  mkAnimationState
    (currentAnimationGenerationIndex st) false false (sliderValue st)
    (if (n <=? currentAnimationGenerationIndex st)%Z && (0 <? n)%Z
     then Replay else PlayAnimation)
    (display st).

(** [function runAnimationStep()] *)
Definition runAnimationStep (st : AnimationState) : AnimationState :=
  let i := currentAnimationGenerationIndex st in
  if (Z.of_nat (length dataByGenArray) <=? i)%Z then pauseAnimation st
  else
    let st1 :=
      mkAnimationState i (isPlaying st) (animationTimer st) i
                       (playButtonText st) (display st) in
    let st2 := updateToGeneration i st1 in
    mkAnimationState (i + 1) (isPlaying st2) (animationTimer st2)
                     (sliderValue st2) (playButtonText st2) (display st2).

(** [function playAnimation()] *)
Definition playAnimation (st : AnimationState) : AnimationState :=
  if (length dataByGenArray =? 0)%nat then st
  else
    let i1 :=
      if negb (currentAnimationGenerationIndex st =? sliderValue st)%Z
      then sliderValue st else currentAnimationGenerationIndex st in
    let atEnd := (Z.of_nat (length dataByGenArray) <=? i1)%Z in
    let st1 :=
      mkAnimationState (if atEnd then 0 else i1) true (animationTimer st)
                       (if atEnd then 0 else sliderValue st) Pause
                       (display st) in
    let st2 := runAnimationStep st1 in
    mkAnimationState
      (currentAnimationGenerationIndex st2) (isPlaying st2) true
      (sliderValue st2) (playButtonText st2) (display st2).

(** [slider.on("input", function() { ... })]; [value] is [+this.value],
    the value the slider reports when the event fires. *)
Definition sliderInput (value : Z) (st : AnimationState) : AnimationState :=
  let st1 := if isPlaying st then pauseAnimation st else st in
  let st2 :=
    mkAnimationState value (isPlaying st1) (animationTimer st1) value
                     (playButtonText st1) (display st1) in
  updateToGeneration value st2.

(** [playButton.on("click", ...)] *)
Definition playButtonClick (st : AnimationState) : AnimationState :=
  if isPlaying st then pauseAnimation st else playAnimation st.

(** The state once [createRidgelinePlot] returns:
    [updateToGeneration(0, true)] on the fresh closure variables. *)
Definition initialState : AnimationState :=
  updateToGeneration 0
    (mkAnimationState 0 false false 0 PlayAnimation None).

End Controller.

End Ridgeline.

(** ** The static ridgeline plot (earlier version of the chart) *)

Module RidgelineStatic.

(** What the click handler of a ridge computes for the zoomed axis. *)
Record Zoom := mkZoom {
  zoomKey : string;
  density : list (Q * option Q);
  calculatedMaxDensity : option Q;
  maxDensityForDomain : Q;
  N_valid_points : nat
}.

Section Chart.

(** [xScale.ticks(60)] *)
Variable ticks : list Q.

(** The body of [.each(function(d) { ... })] that draws one ridge:
    [None] when the ridge is skipped. *)
Definition drawRidge (d : GenerationData) : option (list (Q * option Q)) :=
  let genDataTotals := validTotals (values d) in
  if (length genDataTotals <? 2)%nat then None
  else
    let density := kde ticks genDataTotals in
    match D3.max density snd with
    | Some maxDensity =>
        if Qle_bool maxDensity 0 then None else Some density
    | None => None
    end.

(** [ridgeGroups.on("click", function(event, d_clicked) { ... })] *)
Definition ridgeClick (d_clicked : GenerationData) : Zoom :=
  let genTotals := validTotals (values d_clicked) in
  let density := densityOf ticks genTotals in
  let calculatedMaxDensity := D3.max density snd in
  let maxDensityForDomain :=
    match calculatedMaxDensity with
    | Some m => if Qlt_bool 0 m then m else 1%Q
    | None => 1%Q
    end in
  mkZoom (key d_clicked) density calculatedMaxDensity maxDensityForDomain
         (length genTotals).

End Chart.

End RidgelineStatic.

(** ** JavaScript built-ins used by the other two charts *)

(** [[...new Set(xs)]]: the distinct elements, in order of first
    occurrence. *)
Definition Set_add (acc : list string) (x : string) : list string :=
  if bool_decide (x ∈ acc) then acc else acc ++ [x].

Definition Set_values (xs : list string) : list string :=
  fold_left Set_add xs [].

(** [Array.prototype.sort(compareFn)].  The sort is stable; it is written
    here as the stable insertion sort, which for a consistent comparator
    is the only result a stable sort can give. *)
Fixpoint sort_insert {A : Type} (compareFn : A -> A -> Z) (x : A) (l : list A)
    : list A :=
  match l with
  | [] => [x]
  | y :: l' =>
      if (compareFn x y <=? 0)%Z then x :: y :: l'
      else y :: sort_insert compareFn x l'
  end.

Definition Array_sort {A : Type} (compareFn : A -> A -> Z) (l : list A)
    : list A :=
  fold_right (sort_insert compareFn) [] l.

(** The code points that a sequence of UTF-8 bytes encodes: one, two,
    three or four bytes to a code point, by the lead byte.  (A byte that
    starts no sequence is taken as it is; the encoding of a JavaScript
    string has none.) *)
Fixpoint codePoints (bytes : list N) : list N :=
  match bytes with
  | [] => []
  | b0 :: rest =>
      if (b0 <? 192)%N then b0 :: codePoints rest
      else if (b0 <? 224)%N then
        match rest with
        | b1 :: rest1 =>
            ((b0 mod 32) * 64 + b1 mod 64)%N :: codePoints rest1
        | [] => [b0]
        end
      else if (b0 <? 240)%N then
        match rest with
        | b1 :: b2 :: rest2 =>
            ((b0 mod 16) * 4096 + (b1 mod 64) * 64 + b2 mod 64)%N
            :: codePoints rest2
        | _ => b0 :: codePoints rest
        end
      else
        match rest with
        | b1 :: b2 :: b3 :: rest3 =>
            ((b0 mod 8) * 262144 + (b1 mod 64) * 4096 + (b2 mod 64) * 64
             + b3 mod 64)%N
            :: codePoints rest3
        | _ => b0 :: codePoints rest
        end
  end.

(** The UTF-16 code units of a code point: itself below 0x10000, a
    surrogate pair from there on. *)
Definition codeUnits (codePoint : N) : list N :=
  if (codePoint <? 65536)%N then [codePoint]
  else [(55296 + (codePoint - 65536) / 1024)%N;
        (56320 + (codePoint - 65536) mod 1024)%N].

(** The code units of a JavaScript string. *)
Definition utf16 (s : string) : list N :=
  flat_map codeUnits
    (codePoints (map Ascii.N_of_ascii (String.list_ascii_of_string s))).

(** The order of [<] on strings: the first code unit that differs
    decides, a proper prefix comes first. *)
Fixpoint compareUnits (a b : list N) : comparison :=
  match a, b with
  | [], [] => Eq
  | [], _ :: _ => Lt
  | _ :: _, [] => Gt
  | x :: a', y :: b' =>
      match (x ?= y)%N with
      | Eq => compareUnits a' b'
      | c => c
      end
  end.

(** [a < b ? -1 : a > b ? 1 : 0] on strings (the default sort order and
    [d3.ascending]). *)
Definition String_ascending (a b : string) : Z :=
  match compareUnits (utf16 a) (utf16 b) with
  | Lt => (-1)%Z
  | Eq => 0%Z
  | Gt => 1%Z
  end.

(** The values that reach the chart parameters and the properties of the
    chart's objects. *)
Inductive JsValue :=
  | JUndefined
  | JNull
  | JStr (s : string)
  | JNum (n : nat).

#[global] Instance JsValue_eq_dec : EqDecision JsValue.
Proof. solve_decision. Defined.

(** [if (v)], [!v] *)
Definition truthy (v : JsValue) : bool :=
  match v with
  | JUndefined | JNull => false
  | JStr s => negb (String.eqb s "")
  | JNum n => negb (n =? 0)%nat
  end.

(** [a === b] *)
Definition strictEq (a b : JsValue) : bool := bool_decide (a = b).

(** [o[name]] on an object whose properties are all its own. *)
Definition getProp (o : gmap string JsValue) (name : string) : JsValue :=
  default JUndefined (o !! name).

(** The records of one key, in input order. *)
Definition leavesOf (keyof : Pokemon -> string) (data : list Pokemon)
    (k : string) : list Pokemon :=
  List.filter (fun d => bool_decide (keyof d = k)) data.

(** [d3.group] and [d3.rollup] keep one entry per key, in order of first
    occurrence; the leaves of an entry are in input order. *)
Definition d3_group (data : list Pokemon) (keyof : Pokemon -> string)
    : list (string * list Pokemon) :=
  map (fun k => (k, leavesOf keyof data k)) (Set_values (map keyof data)).

Definition d3_rollup {R : Type} (data : list Pokemon)
    (reduce : list Pokemon -> R) (keyof : Pokemon -> string)
    : list (string * R) :=
  map (fun e => (fst e, reduce (snd e))) (d3_group data keyof).

(** ** The stacked bar chart, [Homework3/alfranzen/stackedBarChart.js] *)

Module StackedBar.

Inductive LogEntry :=
  | WarnUnexpectedSecondaryType (t : string)
  | WarnPrimaryTypeNotFound (p : JsValue).

Inductive Title :=
  | TitleAll
  | TitlePrimary (p : JsValue)
  | TitlePrimarySecondary (p s : JsValue).

Inductive Body :=
  | PokemonList (specificPokemon : list Pokemon)
  | NoPokemonFound
  | NoData (forPrimaryType : JsValue)
  | NoValidCounts
  | StackedBars (currentSortedCountsArray : list (gmap string JsValue))
                (layerKeys : list string).

(** One rendering of the chart: the arguments and the local variable
    that its click handlers capture, and what it shows.  The container
    lookup and its size checks come first in the source and return
    before any data is read; the chart is modelled from the data
    processing on. *)
Record Chart := mkChart {
  activeFilterPrimaryType : JsValue;
  activeFilterSecondaryType : JsValue;
  effectiveFilterPrimaryType : JsValue;
  title : Title;
  showAllLink : bool;
  backToPrimaryLink : bool;
  body : Body;
  console : list LogEntry
}.

Inductive Event :=
  | RectClick (layerKey : string) (segmentData : gmap string JsValue)
  | ShowAllClick
  | BackClick.

(** The drill-down level a chart is at: the list view is the branch
    [activeFilterPrimaryType && activeFilterSecondaryType]; in the bar
    view the handlers look at [effectiveFilterPrimaryType]. *)
Inductive NavigationState :=
  | Overview
  | PrimaryFiltered (p : JsValue)
  | DetailList (p s : JsValue).

Section Chart.

(** [String.prototype.localeCompare] depends on the host's locale. *)
Variable localeCompare : string -> string -> Z.

Definition secondaryOrder (a b : string) : Z :=
  if String.eqb a "None" then (-1)%Z
  else if String.eqb b "None" then 1%Z
  else localeCompare a b.

Definition allSecondaryTypes (data : list Pokemon) : list string :=
  Array_sort secondaryOrder (Set_values (map Type_2 data)).

(** [Object.fromEntries(allSecondaryTypes.map(secType => [secType, 0]))] *)
Definition zeroCounts (secTypes : list string) : gmap string nat :=
  fold_left (fun o secType => <[secType := 0]> o) secTypes ∅.

(** The body of [leaves.forEach(leaf => { ... })].  Every name read
    here is an own property of [counts] (see [countLeaf_hit]), so the
    prototype of the object plays no part. *)
Definition countLeaf (acc : gmap string nat * list LogEntry)
    (leaf : Pokemon) : gmap string nat * list LogEntry :=
  match fst acc !! Type_2 leaf with
  | Some n => (<[Type_2 leaf := S n]> (fst acc), snd acc)
  | None => (fst acc, snd acc ++ [WarnUnexpectedSecondaryType (Type_2 leaf)])
  end.

(** The reducer passed to [d3.rollup]; [counts.total = leaves.length]
    is a property of the same object as the per-type counts. *)
Definition reduceLeaves (secTypes : list string) (leaves : list Pokemon)
    : gmap string nat * list LogEntry :=
  let acc := fold_left countLeaf leaves (zeroCounts secTypes, []) in
  (<["total" := length leaves]> (fst acc), snd acc).

Definition countsByTypeFull (data : list Pokemon)
    : list (string * (gmap string nat * list LogEntry)) :=
  d3_rollup data (reduceLeaves (allSecondaryTypes data)) Type_1.

(** [b.total - a.total]; a [NaN] result counts as [0] for the sort. *)
Definition byTotalDescending (a b : string * gmap string nat) : Z :=
  match snd b !! "total", snd a !! "total" with
  | Some tb, Some ta => (Z.of_nat tb - Z.of_nat ta)%Z
  | _, _ => 0%Z
  end.

(** The [total] of an entry as the integer the comparator subtracts. *)
Definition entryRank (e : string * gmap string nat) : Z :=
  Z.of_nat (default 0 (snd e !! "total")).

(** [({ primaryType, ...counts })]: the spread comes last, so a count
    of a secondary type spelled [primaryType] replaces the label. *)
Definition flatten (e : string * gmap string nat) : gmap string JsValue :=
  (JNum <$> snd e) ∪ {[ "primaryType" := JStr (fst e) ]}.

Definition sortedEntries (data : list Pokemon)
    : list (string * gmap string nat) :=
  Array_sort byTotalDescending
    (map (fun e => (fst e, fst (snd e))) (countsByTypeFull data)).

Definition baseSortedCountsArray (data : list Pokemon)
    : list (gmap string JsValue) :=
  map flatten (sortedEntries data).

Definition rollupWarnings (data : list Pokemon) : list LogEntry :=
  concat (map (fun e => snd (snd e)) (countsByTypeFull data)).

(** The number in a property that holds a count; the [total] and the
    layer values of every group object are counts (see
    [segment_widths_numeric]). *)
Definition asNumber (v : JsValue) : option Q :=
  match v with
  | JNum n => Some (inject_Z (Z.of_nat n))
  | _ => None
  end.

(** [d.total] of a group object *)
Definition groupTotal (d : gmap string JsValue) : nat :=
  match getProp d "total" with
  | JNum n => n
  | _ => 0
  end.

Definition chartTitle (p s : JsValue) : Title :=
  if truthy p && negb (truthy s) then TitlePrimary p
  else if truthy p && truthy s then TitlePrimarySecondary p s
  else TitleAll.

(** [baseSortedCountsArray.find(d => d.primaryType === activeFilterPrimaryType)] *)
Definition findPrimary (base : list (gmap string JsValue)) (p : JsValue)
    : option (gmap string JsValue) :=
  List.find (fun d => strictEq (getProp d "primaryType") p) base.

(** The choice of [currentSortedCountsArray], with the reset of
    [effectiveFilterPrimaryType] and the warning of the fallback. *)
Definition currentCounts (base : list (gmap string JsValue))
    (p : JsValue) (log : list LogEntry)
    : list (gmap string JsValue) * JsValue * list LogEntry :=
  if truthy p then
    match findPrimary base p with
    | Some filteredData => ([filteredData], p, log)
    | None => (base, JNull, log ++ [WarnPrimaryTypeNotFound p])
    end
  else (base, p, log).

(** What the bar view draws: a message when there is nothing to
    scale, the stacked bars otherwise. *)
Definition barBody (secTypes : list string)
    (current : list (gmap string JsValue)) (effective : JsValue) : Body :=
  let displayedPrimaryTypes :=
    map (fun d => getProp d "primaryType") current in
  if (length secTypes =? 0)%nat || (length current =? 0)%nat
     || (length displayedPrimaryTypes =? 0)%nat
  then NoData effective
  else
    match D3.max current (fun d => asNumber (getProp d "total")) with
    | None => NoValidCounts
    | Some maxTotal =>
        if Qle_bool maxTotal 0 then NoValidCounts
        else StackedBars current secTypes
    end.

(** [createStackedBarChart(data, containerId, activeFilterPrimaryType,
    activeFilterSecondaryType)] *)
Definition createStackedBarChart (data : list Pokemon)
    (activeFilterPrimaryType activeFilterSecondaryType : JsValue) : Chart :=
  let p := activeFilterPrimaryType in
  let s := activeFilterSecondaryType in
  let secTypes := allSecondaryTypes data in
  let base := baseSortedCountsArray data in
  let log := rollupWarnings data in
  if truthy p && truthy s then
    let specificPokemon :=
      List.filter
        (fun d => strictEq (JStr (Type_1 d)) p && strictEq (JStr (Type_2 d)) s)
        data in
    mkChart p s p (chartTitle p s) (truthy p) true
      (if (length specificPokemon =? 0)%nat then NoPokemonFound
       else PokemonList
              (Array_sort
                 (fun a b => String_ascending (Name a) (Name b))
                 specificPokemon))
      log
  else
    let cel := currentCounts base p log in
    mkChart p s (snd (fst cel)) (chartTitle p s) (truthy p) false
            (barBody secTypes (fst (fst cel)) (snd (fst cel)))
            (snd cel).

(** The click handler of a bar segment. *)
Definition rectClick (c : Chart) (layerKey : string)
    (segmentData : gmap string JsValue) : option (JsValue * JsValue) :=
  let clickedPrimaryType := getProp segmentData "primaryType" in
  let secondaryTypeKey := layerKey in
  if negb (truthy (effectiveFilterPrimaryType c)) then
    Some (clickedPrimaryType, JNull)
  else if strictEq (effectiveFilterPrimaryType c) clickedPrimaryType
          && negb (truthy (activeFilterSecondaryType c)) then
    Some (clickedPrimaryType, JStr secondaryTypeKey)
  else None.

(** The chart has one rectangle per layer key and displayed group: the
    layer values are counts, so the filter on valid segments
    ([!isNaN] and a width that is not negative) keeps them all. *)
Definition hasRect (c : Chart) (layerKey : string)
    (segmentData : gmap string JsValue) : bool :=
  match body c with
  | StackedBars current layerKeys =>
      bool_decide (segmentData ∈ current)
      && bool_decide (layerKey ∈ layerKeys)
  | _ => false
  end.

(** Which handler an event reaches, and the arguments of the call to
    [createStackedBarChart] it makes.  An event on an element that
    the chart does not contain reaches no handler. *)
Definition dispatch (c : Chart) (ev : Event) : option (JsValue * JsValue) :=
  match ev with
  | RectClick layerKey segmentData =>
      if hasRect c layerKey segmentData
      then rectClick c layerKey segmentData
      else None
  | ShowAllClick =>
      if showAllLink c then Some (JNull, JNull) else None
  | BackClick =>
      if backToPrimaryLink c
      then Some (activeFilterPrimaryType c, JNull)
      else None
  end.

Definition handle (data : list Pokemon) (c : Chart) (ev : Event) : Chart :=
  match dispatch c ev with
  | Some (p, s) => createStackedBarChart data p s
  | None => c
  end.

(** The charts a user can get to from the chart drawn first, which
    has no filter. *)
Inductive reachable (data : list Pokemon) : Chart -> Prop :=
  | reachable_first :
      reachable data (createStackedBarChart data JNull JNull)
  | reachable_handle c ev :
      reachable data c -> reachable data (handle data c ev).

Definition navigationState (c : Chart) : NavigationState :=
  match body c with
  | PokemonList _ | NoPokemonFound =>
      DetailList (activeFilterPrimaryType c) (activeFilterSecondaryType c)
  | _ =>
      if truthy (effectiveFilterPrimaryType c)
      then PrimaryFiltered (effectiveFilterPrimaryType c)
      else Overview
  end.

(** The sum of the heights of the layers of one bar: the stack adds
    [d[key]] over the layer keys. *)
Definition stackedTotal (layerKeys : list string)
    (d : gmap string JsValue) : option Q :=
  fold_left
    (fun acc k =>
       match acc, asNumber (getProp d k) with
       | Some a, Some v => Some (a + v)%Q
       | _, _ => None
       end)
    layerKeys (Some 0%Q).

End Chart.

End StackedBar.

(** ** The parallel coordinates plot,
       [Homework3/alfranzen/parallelCoordinatesPlot.js] *)

Module ParallelCoordinates.

(** [selectedPokemon], the [checked] property of the type checkboxes,
    the [.pokemon-path] elements of the current drawing (each carries
    the click handler and its datum) and whether the info box with its
    Close button is shown.  [pokemonPaths] lists the data of the paths
    in the order in which [drawPcpChart] appends them; the order in
    which the paths are stacked afterwards ([raise()] moves the selected
    and the hovered path to the front) is not kept, and nothing below
    depends on the order of this list. *)
Record State := mkState {
  selectedPokemon : option Pokemon;
  checkedTypes : gset string;
  pokemonPaths : list Pokemon;
  infoShown : bool
}.

Inductive Event :=
  | CheckboxChange (type : string)
  | SelectAllClick
  | DeselectAllClick
  | PathClick (name : string)
  | CloseClick.

Definition dimensions : list (Pokemon -> option Q) :=
  [HP; Attack; Defense; Sp_Atk; Sp_Def; Speed].

Section Plot.

Variable data : list Pokemon.

(** [chartWrapper.node().clientWidth] and [.clientHeight] *)
Variable clientWidth clientHeight : Z.

(** [data.filter(d => dimensions.every(dim =>
      d[dim] !== undefined && !isNaN(d[dim])))] *)
Definition allValidPokemonData : list Pokemon :=
  List.filter
    (fun d => forallb (fun dim => negb (isNaN (dim d))) dimensions) data.

Definition primaryTypesForSelector : list string :=
  Array_sort String_ascending (Set_values (map Type_1 allValidPokemonData)).

(** The values of the checked checkboxes, in document order. *)
Definition selectedTypesArray (st : State) : list string :=
  List.filter (fun t => bool_decide (t ∈ checkedTypes st))
              primaryTypesForSelector.

(** [allValidPokemonData.filter(d => selectedTypesArray.includes(d.Type_1))] *)
Definition dataToPlot (st : State) : list Pokemon :=
  List.filter (fun d => bool_decide (Type_1 d ∈ selectedTypesArray st))
              allValidPokemonData.

(** [function drawPcpChart(plotData)]: the previous drawing is
    removed; paths are appended only when there is room and data. *)
Definition drawPcpChart (plotData : list Pokemon) (st : State) : State :=
  let width := (clientWidth - 20 - 20)%Z in
  let height := (clientHeight - 0 - 100)%Z in
  if (width <=? 0)%Z || (height <=? 50)%Z then
    mkState (selectedPokemon st) (checkedTypes st) [] (infoShown st)
  else if (length plotData =? 0)%nat then
    mkState (selectedPokemon st) (checkedTypes st) [] (infoShown st)
  else
    mkState (selectedPokemon st) (checkedTypes st) plotData (infoShown st).

(** [function updatePlot()] *)
Definition updatePlot (st : State) : State :=
  let plotData := dataToPlot st in
  let st1 :=
    match selectedPokemon st with
    | Some sel =>
        match List.find (fun p => String.eqb (Name p) (Name sel)) plotData with
        | Some _ => st
        | None => mkState None (checkedTypes st) (pokemonPaths st) false
        end
    | None => st
    end in
  drawPcpChart plotData st1.

(** The checkboxes take the given [checked] values, then [updatePlot()]
    runs: what the three controls below have in common. *)
Definition setChecked (S : gset string) (st : State) : State :=
  updatePlot (mkState (selectedPokemon st) S (pokemonPaths st) (infoShown st)).

(** The click handler of a path, with its datum.  The image lookup it
    awaits only fills the picture of the info box. *)
Definition pathClick (d_clicked : Pokemon) (st : State) : State :=
  mkState (Some d_clicked) (checkedTypes st) (pokemonPaths st) true.

(** The click handler of the Close button. *)
Definition closeClick (st : State) : State :=
  mkState None (checkedTypes st) (pokemonPaths st) false.

(** Paths are keyed by [d.Name]: a click on the path of [name] runs
    the handler of the path bound to that Pokemon, when the drawing
    has one.  (The handler receives the datum of the clicked path; with
    unique names, the data model of the plot, the name determines
    it.) *)
Definition handle (ev : Event) (st : State) : State :=
  match ev with
  | CheckboxChange type =>
      if bool_decide (type ∈ primaryTypesForSelector) then
        setChecked
          (if bool_decide (type ∈ checkedTypes st)
           then checkedTypes st ∖ {[ type ]}
           else checkedTypes st ∪ {[ type ]})
          st
      else st
  | SelectAllClick => setChecked (list_to_set primaryTypesForSelector) st
  | DeselectAllClick => setChecked ∅ st
  | PathClick name =>
      match List.find (fun p => String.eqb (Name p) name) (pokemonPaths st) with
      | Some d_clicked => pathClick d_clicked st
      | None => st
      end
  | CloseClick => if infoShown st then closeClick st else st
  end.

(** After [createParallelCoordinatesPlot] returns: every checkbox is
    checked, nothing is selected, [updatePlot()] has run once.  (When no
    Pokemon is valid the function returns before it creates any control;
    the working set is then empty and stays so.) *)
Definition initialState : State :=
  updatePlot (mkState None (list_to_set primaryTypesForSelector) [] false).

Inductive reachable : State -> Prop :=
  | reachable_initial : reachable initialState
  | reachable_handle ev st : reachable st -> reachable (handle ev st).

(** The invariant of the plot: the paths of the drawing and the
    selected Pokemon belong to the working set of the checked
    types. *)
Definition consistent (st : State) : Prop :=
  (forall d, d ∈ pokemonPaths st -> d ∈ dataToPlot st)
  /\ (forall sel, selectedPokemon st = Some sel -> sel ∈ dataToPlot st).

End Plot.

End ParallelCoordinates.

(** ** Events of the animated ridgeline plot *)

Module RidgelineEvents.

Inductive Event :=
  | SliderInput (value : Z)
  | PlayButtonClick
  | Tick.

Section Events.

Variable ticks : list Q.
Variable dataByGenArray : list GenerationData.

(** The interval started by [playAnimation] calls [runAnimationStep] until
    [pauseAnimation] stops it. *)
Definition handle (ev : Event) (st : Ridgeline.AnimationState)
    : Ridgeline.AnimationState :=
  match ev with
  | SliderInput value => Ridgeline.sliderInput ticks dataByGenArray value st
  | PlayButtonClick => Ridgeline.playButtonClick ticks dataByGenArray st
  | Tick =>
      if Ridgeline.animationTimer st
      then Ridgeline.runAnimationStep ticks dataByGenArray st
      else st
  end.

(** The states the plot can get to.  The slider is an [input] of type
    [range] created with [min] 0, [max] [dataByGenArray.length - 1] and
    [step] 1: the values it reports are integers within these bounds. *)
Inductive reachable : Ridgeline.AnimationState -> Prop :=
  | reachable_initial :
      reachable (Ridgeline.initialState ticks dataByGenArray)
  | reachable_slider value st :
      (0 <= value <= Ridgeline.sliderMax dataByGenArray)%Z ->
      reachable st -> reachable (handle (SliderInput value) st)
  | reachable_play st :
      reachable st -> reachable (handle PlayButtonClick st)
  | reachable_tick st :
      reachable st -> reachable (handle Tick st).

(** The value an [input] of type [range] holds once a value is assigned
    to it (value sanitization of the HTML Standard): a value below [min]
    becomes [min], a value above [max] becomes [max] ([max] is at least
    [min] here), and an integer is on the [step] of 1 as it is. *)
Definition rangeValue (min max requested : Z) : Z :=
  if (requested <? min)%Z then min
  else if (max <? requested)%Z then max
  else requested.

(** A request to scrub to [index]: the slider, created with [min] 0,
    [max] [dataByGenArray.length - 1] and [step] 1, takes the value and
    its [input] handler runs with what the slider then reports. *)
Definition scrubTo (index : Z) (st : Ridgeline.AnimationState)
    : Ridgeline.AnimationState :=
  handle
    (SliderInput (rangeValue 0 (Ridgeline.sliderMax dataByGenArray) index))
    st.

(** [n] calls of the interval. *)
Definition afterTicks (n : nat) (st : Ridgeline.AnimationState)
    : Ridgeline.AnimationState :=
  Nat.iter n (handle Tick) st.

(** What the plot shows for the generation at an index. *)
Definition shows (st : Ridgeline.AnimationState) (i : Z) : Prop :=
  exists generationData,
    nth_error dataByGenArray (Z.to_nat i) = Some generationData
    /\ Ridgeline.display st = Some (Ridgeline.render ticks i generationData).

(** The invariant of the controller. *)
Definition wellFormed (st : Ridgeline.AnimationState) : Prop :=
  Ridgeline.isPlaying st = Ridgeline.animationTimer st
  /\ (Ridgeline.playButtonText st = Ridgeline.Pause
      <-> Ridgeline.isPlaying st = true)
  /\ (0 <= Ridgeline.sliderValue st < Z.of_nat (length dataByGenArray))%Z
  /\ (Ridgeline.currentAnimationGenerationIndex st = Ridgeline.sliderValue st
      \/ Ridgeline.currentAnimationGenerationIndex st
         = (Ridgeline.sliderValue st + 1)%Z)
  /\ (Ridgeline.isPlaying st = true ->
      Ridgeline.currentAnimationGenerationIndex st
      = (Ridgeline.sliderValue st + 1)%Z)
  /\ shows st (Ridgeline.sliderValue st).

End Events.

End RidgelineEvents.

(** ** The legend of the stacked bar chart *)

Module Legend.

Definition marginRight : Z := 160.
Definition legendItemHeight : Z := 15.
Definition legendItemWidth : Z := 70.

(** [Math.max(1, Math.floor((margin.right - 20) / legendItemWidth))] *)
Definition numColumns : Z :=
  Z.max 1 (Qfloor (inject_Z (marginRight - 20) / inject_Z legendItemWidth)).

(** [Math.ceil(allSecondaryTypes.length / numColumns)] *)
Definition itemsPerColumn (n : nat) : Z :=
  Qceiling (inject_Z (Z.of_nat n) / inject_Z numColumns).

(** The translation of the legend item of index [i]:
    [translate(columnIndex * legendItemWidth, rowIndex * legendItemHeight)] *)
Definition legendTransform (n i : nat) : Z * Z :=
  let columnIndex :=
    Qfloor (inject_Z (Z.of_nat i) / inject_Z (itemsPerColumn n)) in
  let rowIndex := Z.rem (Z.of_nat i) (itemsPerColumn n) in
  ((columnIndex * legendItemWidth)%Z, (rowIndex * legendItemHeight)%Z).

End Legend.

(** ** What the parallel coordinates plot draws *)

Module PcpView.

(** [d.Name === selectedPokemon.Name], read only when a Pokemon is
    selected. *)
Definition isSelected (selectedPokemon : option Pokemon) (d : Pokemon) : bool :=
  match selectedPokemon with
  | Some sel => String.eqb (Name d) (Name sel)
  | None => false
  end.

(** [stroke-width] and [opacity] that [updateLineStyles] gives a path:
    [(selectedPokemon && d.Name === selectedPokemon.Name) ? 3.5 : 2] and
    [(!selectedPokemon || d.Name === selectedPokemon.Name)
       ? (selectedPokemon ? 1 : 0.5) : 0.05]. *)
Definition lineStyle (selectedPokemon : option Pokemon) (d : Pokemon)
    : Q * Q :=
  let some := match selectedPokemon with Some _ => true | None => false end in
  ((if some && isSelected selectedPokemon d then 3.5 else 2)%Q,
   (if negb some || isSelected selectedPokemon d
    then (if some then 1 else 0.5)
    else 0.05)%Q).

(** [function updateLineStyles()], on the paths of the drawing. *)
Definition updateLineStyles (st : ParallelCoordinates.State)
    : list (Pokemon * (Q * Q)) :=
  map (fun d => (d, lineStyle (ParallelCoordinates.selectedPokemon st) d))
      (ParallelCoordinates.pokemonPaths st).

(** The body of the two nested [forEach] of [drawPcpChart] for one value;
    [None] stands for the initial [Infinity] and [-Infinity]. *)
Definition rangeStep (acc : option Q * option Q) (val : option Q)
    : option Q * option Q :=
  match val with
  | Some v =>
      ((match fst acc with
        | Some globalMin => if Qlt_bool v globalMin then Some v else Some globalMin
        | None => Some v
        end),
       (match snd acc with
        | Some globalMax => if Qlt_bool globalMax v then Some v else Some globalMax
        | None => Some v
        end))
  | None => acc
  end.

(** [globalMin] and [globalMax] after the loops. *)
Definition dataRange (plotData : list Pokemon) : option Q * option Q :=
  fold_left
    (fun acc d =>
       fold_left (fun acc dim => rangeStep acc (dim d))
                 ParallelCoordinates.dimensions acc)
    plotData (None, None).

(** [globalMin <= v <= globalMax] for the two bounds of a range; a bound
    that is still [Infinity] or [-Infinity] covers nothing. *)
Definition covers (range : option Q * option Q) (v : Q) : Prop :=
  match range with
  | (Some globalMin, Some globalMax) => (globalMin <= v /\ v <= globalMax)%Q
  | _ => False
  end.

(** The two bounds are both still infinite or both set, in order. *)
Definition ordered (range : option Q * option Q) : Prop :=
  match range with
  | (None, None) => True
  | (Some globalMin, Some globalMax) => (globalMin <= globalMax)%Q
  | _ => False
  end.

(** The drawing is up to date: the paths are those of the working set
    when the chart has room (none otherwise), the info box is shown
    exactly while a Pokemon is selected, and a Pokemon can only be
    selected in a chart with room, among the valid ones. *)
Definition upToDate (data : list Pokemon) (clientWidth clientHeight : Z)
    (st : ParallelCoordinates.State) : Prop :=
  ParallelCoordinates.pokemonPaths st
  = (if (clientWidth - 20 - 20 <=? 0)%Z || (clientHeight - 0 - 100 <=? 50)%Z
     then []
     else ParallelCoordinates.dataToPlot data st)
  /\ (ParallelCoordinates.infoShown st = true
      <-> is_Some (ParallelCoordinates.selectedPokemon st))
  /\ (forall sel,
        ParallelCoordinates.selectedPokemon st = Some sel ->
        sel ∈ ParallelCoordinates.allValidPokemonData data
        /\ (clientWidth - 20 - 20 <=? 0)%Z || (clientHeight - 0 - 100 <=? 50)%Z
           = false).

End PcpView.

(** ** The zoomed axis of the static ridgeline plot *)

Module ZoomAxis.

(** [tickDisplayMultiplier] of the click handler of a ridge: the tick
    [t] of the density axis is labelled [t * tickDisplayMultiplier]. *)
Definition tickDisplayMultiplier (ticks : list Q) (d_clicked : GenerationData)
    : Q :=
  let zoom := RidgelineStatic.ridgeClick ticks d_clicked in
  let N_valid_points := RidgelineStatic.N_valid_points zoom in
  if (N_valid_points =? 0)%nat then 0%Q
  else
    match RidgelineStatic.calculatedMaxDensity zoom with
    | Some calculatedMaxDensity =>
        if Qlt_bool 0 calculatedMaxDensity
        then (inject_Z (Z.of_nat N_valid_points) / calculatedMaxDensity)%Q
        else inject_Z (Z.of_nat N_valid_points)
    | None => inject_Z (Z.of_nat N_valid_points)
    end.

End ZoomAxis.

(** ** The generations of the animated ridgeline plot *)

(** The preparation of [dataByGenArray] tells values apart that the rest
    of the chart treats alike (a number and the string that spells it,
    [null] and 0), so here a field of a row is kept as the value it is:
    one of the scalars a parsed CSV or JSON file holds, or [undefined]
    for a missing field.  Objects, arrays, symbols and big integers are
    not modelled. *)
Module Generations.

(** A number; -0 is not told apart from 0 (no operation used here
    does). *)
Inductive JsNumber :=
  | Finite (q : Q)
  | PlusInfinity
  | MinusInfinity
  | NotANumber.

Inductive Cell :=
  | CNumber (n : JsNumber)
  | CString (s : string)
  | CBoolean (b : bool)
  | CNull
  | CUndefined.

Record Row := mkRow {
  Name : string;
  Generation : Cell;
  Total : Cell
}.

(** One entry of [dataByGenArray]. *)
Record Entry := mkEntry {
  key : string;
  values : list Row
}.

(** What [createRidgelinePlot] has prepared when it reaches the
    controls: one of the two messages, or the generations and the
    extent of the totals. *)
Inductive Prepared :=
  | NoValidGenerationData
  | InvalidTotalStatData
  | Chart (dataByGenArray : list Entry) (totalExtent : Cell * Cell).

(** The equality of the elements of a [Set] (SameValueZero): values of
    different types differ, [NaN] equals [NaN]. *)
Definition sameValueZero (a b : Cell) : bool :=
  match a, b with
  | CNumber (Finite x), CNumber (Finite y) => Qeq_bool x y
  | CNumber PlusInfinity, CNumber PlusInfinity => true
  | CNumber MinusInfinity, CNumber MinusInfinity => true
  | CNumber NotANumber, CNumber NotANumber => true
  | CString s, CString t => String.eqb s t
  | CBoolean x, CBoolean y => Bool.eqb x y
  | CNull, CNull => true
  | CUndefined, CUndefined => true
  | _, _ => false
  end.

(** The representative of a value among those that SameValueZero
    identifies: a fraction in lowest terms. *)
Definition canonical (c : Cell) : Cell :=
  match c with
  | CNumber (Finite q) => CNumber (Finite (Qred q))
  | _ => c
  end.

Definition Set_add (acc : list Cell) (x : Cell) : list Cell :=
  if existsb (sameValueZero x) acc then acc else acc ++ [x].

(** [[...new Set(xs)]] *)
Definition Set_values (xs : list Cell) : list Cell :=
  fold_left Set_add xs [].

(** [a - b] on numbers *)
Definition minus (a b : JsNumber) : JsNumber :=
  match a, b with
  | NotANumber, _ | _, NotANumber => NotANumber
  | Finite x, Finite y => Finite (x - y)
  | PlusInfinity, PlusInfinity => NotANumber
  | MinusInfinity, MinusInfinity => NotANumber
  | PlusInfinity, _ => PlusInfinity
  | MinusInfinity, _ => MinusInfinity
  | Finite _, PlusInfinity => MinusInfinity
  | Finite _, MinusInfinity => PlusInfinity
  end.

(** What [sort] reads off the result of its comparator: its sign, a
    [NaN] counting as 0. *)
Definition sortOrder (v : JsNumber) : Z :=
  match v with
  | Finite q =>
      match (q ?= 0)%Q with
      | Lt => (-1)%Z
      | Eq => 0%Z
      | Gt => 1%Z
      end
  | PlusInfinity => 1%Z
  | MinusInfinity => (-1)%Z
  | NotANumber => 0%Z
  end.

(** [a < b] on numbers: [false] when one of them is [NaN]. *)
Definition numberLt (a b : JsNumber) : bool :=
  match a, b with
  | NotANumber, _ | _, NotANumber => false
  | Finite x, Finite y => Qlt_bool x y
  | MinusInfinity, MinusInfinity => false
  | MinusInfinity, _ => true
  | _, MinusInfinity => false
  | PlusInfinity, _ => false
  | Finite _, PlusInfinity => true
  end.

(** A field [d] is a number, [NaN] or missing: what a loader that
    converts the column with [+d] produces from numerals. *)
Definition numberOrMissing (c : Cell) : bool :=
  match c with
  | CNumber (Finite _) | CNumber NotANumber | CUndefined => true
  | _ => false
  end.

(** The number in a field that holds a finite number. *)
Definition finite (c : Cell) : option Q :=
  match c with
  | CNumber (Finite q) => Some q
  | _ => None
  end.

Section Prepare.

(** The number a string converts to, and the string of a finite
    number. *)
Variable StringToNumber : string -> JsNumber.
Variable Number_toString : Q -> string.

(** [Number(c)], the conversion that [isNaN], [-] and [<] apply *)
Definition ToNumber (c : Cell) : JsNumber :=
  match c with
  | CNumber n => n
  | CString s => StringToNumber s
  | CBoolean b => Finite (if b then 1 else 0)
  | CNull => Finite 0
  | CUndefined => NotANumber
  end.

(** [isNaN(c)] *)
Definition isNaN (c : Cell) : bool :=
  match ToNumber c with
  | NotANumber => true
  | _ => false
  end.

(** [String(c)] *)
Definition String_ (c : Cell) : string :=
  match c with
  | CNumber (Finite q) => Number_toString q
  | CNumber PlusInfinity => "Infinity"
  | CNumber MinusInfinity => "-Infinity"
  | CNumber NotANumber => "NaN"
  | CString s => s
  | CBoolean b => if b then "true" else "false"
  | CNull => "null"
  | CUndefined => "undefined"
  end.

(** [(a, b) => a - b], as the sort reads it *)
Definition byNumber (a b : Cell) : Z :=
  sortOrder (minus (ToNumber a) (ToNumber b)).

(** [a < b]: two strings are compared by their code units, any other
    two values as numbers. *)
Definition lessThan (a b : Cell) : bool :=
  match a, b with
  | CString s, CString t =>
      match compareUnits (utf16 s) (utf16 t) with
      | Lt => true
      | _ => false
      end
  | _, _ => numberLt (ToNumber a) (ToNumber b)
  end.

(** The loop of [d3.extent(values, valueof)]:
    [if ((value = valueof(value)) != null) {
       if (min === undefined) { if (value >= value) min = max = value; }
       else { if (min > value) min = value;
              if (max < value) max = value; } }] *)
Definition extent_step {A : Type} (valueof : A -> Cell)
    (acc : option (Cell * Cell)) (value : A) : option (Cell * Cell) :=
  match valueof value with
  | CNull | CUndefined => acc
  | v =>
      match acc with
      | None =>
          if match v with CString _ => true | _ => negb (isNaN v) end
          then Some (v, v) else None
      | Some (min, max) =>
          Some (if lessThan v min then v else min,
                if lessThan max v then v else max)
      end
  end.

Definition extent {A : Type} (values : list A) (valueof : A -> Cell)
    : option (Cell * Cell) :=
  fold_left (extent_step valueof) values None.

Variable data : list Row.

(** [[...new Set(data.map(d => d.Generation))].filter(g => !isNaN(g))
      .sort((a, b) => a - b)], before [.map(String)] *)
Definition generationValues : list Cell :=
  Array_sort byNumber
    (List.filter (fun g => negb (isNaN g))
                 (Set_values (map Generation data))).

Definition generations : list string := map String_ generationValues.

(** [data.filter(d => String(d.Generation) === genKey && !isNaN(d.Total))] *)
Definition genValues (genKey : string) : list Row :=
  List.filter
    (fun d => String.eqb (String_ (Generation d)) genKey
              && negb (isNaN (Total d)))
    data.

Definition dataByGenArray : list Entry :=
  List.filter
    (fun d => negb (length (values d) =? 0)%nat)
    (map (fun genKey => mkEntry genKey (genValues genKey)) generations).

(** The two early returns that follow:
    [if (dataByGenArray.length === 0) { ... return; }] and
    [if (totalExtent[0] === undefined || isNaN(totalExtent[0]))
       { ... return; }]. *)
Definition prepare : Prepared :=
  if (length dataByGenArray =? 0)%nat then NoValidGenerationData
  else
    match extent data Total with
    | None => InvalidTotalStatData
    | Some (min, max) =>
        if isNaN min then InvalidTotalStatData
        else Chart dataByGenArray (min, max)
    end.

End Prepare.

End Generations.

(** ** Sample data for the worked instances *)

Definition samplePokemon (name type1 type2 : string) (total : option Q)
    : Pokemon :=
  mkPokemon name type1 type2 (Some 1%Q) total
            (Some 45%Q) (Some 49%Q) (Some 49%Q) (Some 65%Q) (Some 65%Q)
            (Some 45%Q).

Definition sampleGenerations : list GenerationData :=
  [mkGenerationData "1"
     [samplePokemon "Bulbasaur" "Grass" "Poison" (Some 318%Q);
      samplePokemon "Ivysaur" "Grass" "Poison" (Some 405%Q)];
   mkGenerationData "2"
     [samplePokemon "Chikorita" "Grass" "None" (Some 318%Q)];
   mkGenerationData "3"
     [samplePokemon "Treecko" "Grass" "None" (Some 310%Q);
      samplePokemon "Grovyle" "Grass" "None" (Some 405%Q)]].

Definition sampleTicks : list Q := [300; 320; 400]%Q.

Definition sampleData : list Pokemon :=
  [samplePokemon "Bulbasaur" "Grass" "Poison" (Some 318%Q);
   samplePokemon "Charmander" "Fire" "None" (Some 309%Q);
   samplePokemon "Ivysaur" "Grass" "Poison" (Some 405%Q);
   samplePokemon "Squirtle" "Water" "None" (Some 314%Q);
   samplePokemon "Charizard" "Fire" "Flying" (Some 534%Q);
   samplePokemon "Tangela" "Grass" "None" (Some 435%Q)].

(** Rows of three generations, out of order, one without a total and
    one without a generation, all fields numbers or missing; the same
    generation once as the number 1 and once as the string that spells
    it; and a row whose total is [null]. *)
Definition generationSample : list Generations.Row :=
  [Generations.mkRow "Chikorita"
     (Generations.CNumber (Generations.Finite 2))
     (Generations.CNumber (Generations.Finite 318));
   Generations.mkRow "Bulbasaur"
     (Generations.CNumber (Generations.Finite 1))
     (Generations.CNumber (Generations.Finite 318));
   Generations.mkRow "Treecko"
     (Generations.CNumber (Generations.Finite 3))
     (Generations.CNumber Generations.NotANumber);
   Generations.mkRow "Ivysaur"
     (Generations.CNumber (Generations.Finite (2 # 2)))
     (Generations.CNumber (Generations.Finite 405));
   Generations.mkRow "MissingNo"
     Generations.CUndefined
     (Generations.CNumber (Generations.Finite 100))].

Definition mixedGenerationSample : list Generations.Row :=
  [Generations.mkRow "Bulbasaur"
     (Generations.CNumber (Generations.Finite 1))
     (Generations.CNumber (Generations.Finite 318));
   Generations.mkRow "Ivysaur"
     (Generations.CString "1")
     (Generations.CNumber (Generations.Finite 405));
   Generations.mkRow "Chikorita"
     (Generations.CNumber (Generations.Finite 2))
     (Generations.CNumber (Generations.Finite 318))].

Definition nullTotalSample : list Generations.Row :=
  [Generations.mkRow "Bulbasaur"
     (Generations.CNumber (Generations.Finite 1)) Generations.CNull].

(** A rendering of numbers as strings that tells any two numbers
    apart; the decimal numerals of the integers, and the numbers they
    spell. *)
Definition sampleString (q : Q) : string :=
  "n" +:+ pretty (encode (Qcanon.Q2Qc q)).

Definition decimalString (q : Q) : string := pretty (Qfloor q).

Definition decimalNumber (s : string) : Generations.JsNumber :=
  if String.eqb s "1" then Generations.Finite 1
  else if String.eqb s "2" then Generations.Finite 2
  else if String.eqb s "3" then Generations.Finite 3
  else Generations.NotANumber.

(** Two Pokemon of one primary type, one of them with a secondary type
    that is spelled like the [total] property. *)
Definition collidingData : list Pokemon :=
  [samplePokemon "First" "A" "total" (Some 300%Q);
   samplePokemon "Second" "A" "None" (Some 300%Q)].


(** Five Pokemon of type A, two of type B and one of type C, interleaved;
    and a dataset in which two primary types tie. *)
Definition scenarioData : list Pokemon :=
  map (fun t => samplePokemon "P" t "None" (Some 300%Q))
      ["B"; "A"; "A"; "C"; "A"; "B"; "A"; "A"].

Definition tiedData : list Pokemon :=
  map (fun t => samplePokemon "P" t "None" (Some 300%Q))
      ["C"; "B"; "A"; "A"; "B"].

(* ================================================================== *)
(** * Part II: properties                                               *)
(* ================================================================== *)

(** ** Density estimation *)

Section DensityFacts.

Local Open Scope Q_scope.

Lemma kernelEpanechnikov_nonneg (k v : Q) :
  0 < k -> 0 <= kernelEpanechnikov k v.
Proof.
  intros Hk. unfold kernelEpanechnikov.
  destruct (Qle_bool (Qabs (v / k)) 1) eqn:E; [|lra].
  apply Qle_bool_iff, Qabs_Qle_condition in E.
  apply Qle_shift_div_l; [exact Hk|].
  nra.
Qed.

Lemma kernelEpanechnikov_20_le (v : Q) : kernelEpanechnikov 20 v <= 3 # 80.
Proof.
  unfold kernelEpanechnikov.
  destruct (Qle_bool (Qabs (v / 20)) 1); [|lra].
  unfold Qdiv. change (/ 20) with (1 # 20). nra.
Qed.

Lemma kernelEpanechnikov_20_peak (v : Q) :
  v == 0 -> kernelEpanechnikov 20 v == 3 # 80.
Proof.
  intros Hv. unfold kernelEpanechnikov.
  assert (Hz : v / 20 == 0) by (rewrite Hv; reflexivity).
  assert (E : Qle_bool (Qabs (v / 20)) 1 = true).
  { apply Qle_bool_iff. rewrite Hz. discriminate. }
  rewrite E, Hz. reflexivity.
Qed.

(** The loop of [d3.mean] over values that are all defined: the count is
    the number of values, the sum is the sum. *)
Lemma mean_loop {A : Type} (f : A -> Q) (V : list A) (c : nat) (s : Q) :
  fold_left (D3.mean_step (fun v => Some (f v))) V (c, s)
  = ((c + length V)%nat, fold_left (fun a v => a + f v) V s).
Proof.
  revert c s. induction V as [|x V IH]; intros c s; simpl.
  - f_equal. lia.
  - unfold D3.mean_step at 2. simpl. rewrite IH. f_equal. lia.
Qed.

Lemma sum_loop_bounds {A : Type} (f : A -> Q) (lo hi : Q) (V : list A) (s : Q) :
  (forall v, lo <= f v <= hi) ->
  s + inject_Z (Z.of_nat (length V)) * lo
    <= fold_left (fun a v => a + f v) V s
    <= s + inject_Z (Z.of_nat (length V)) * hi.
Proof.
  intros Hf. revert s. induction V as [|x V IH]; intros s.
  - cbn [length fold_left]. change (inject_Z (Z.of_nat 0)) with 0. lra.
  - cbn [fold_left]. specialize (IH (s + f x)). specialize (Hf x).
    replace (length (x :: V)) with (S (length V)) by reflexivity.
    rewrite Nat2Z.inj_succ. unfold Z.succ. rewrite inject_Z_plus.
    change (inject_Z 1) with 1. nra.
Qed.

(** On a non-empty sample the mean of bounded kernel values is defined
    and lies within the same bounds. *)
Lemma mean_bounds {A : Type} (f : A -> Q) (lo hi : Q) (V : list A) :
  V <> [] ->
  (forall v, lo <= f v <= hi) ->
  exists m, D3.mean V (fun v => Some (f v)) = Some m /\ lo <= m <= hi.
Proof.
  intros HV Hf. unfold D3.mean. rewrite mean_loop. cbn [fst snd].
  destruct V as [|x V]; [congruence|]. clear HV.
  cbn [length Nat.add]. eexists. split; [reflexivity|].
  pose proof (sum_loop_bounds f lo hi (x :: V) 0 Hf) as H.
  cbn [length] in H.
  set (n := inject_Z (Z.of_nat (S (length V)))) in *.
  assert (Hn : 0 < n).
  { unfold n. change 0 with (inject_Z 0). rewrite <- Zlt_Qlt. lia. }
  split.
  - apply Qle_shift_div_l; [exact Hn|]. lra.
  - apply Qle_shift_div_r; [exact Hn|]. lra.
Qed.

Lemma kde_length (ticks V : list Q) : length (kde ticks V) = length ticks.
Proof. unfold kde, kernelDensityEstimator. apply length_map. Qed.

Lemma kde_grid (ticks V : list Q) : map fst (kde ticks V) = ticks.
Proof.
  unfold kde, kernelDensityEstimator. rewrite map_map. simpl. apply map_id.
Qed.

Lemma kde_values (ticks V : list Q) :
  V <> [] ->
  Forall (fun p => exists y, snd p = Some y /\ 0 <= y <= 3 # 80) (kde ticks V).
Proof.
  intros HV. unfold kde, kernelDensityEstimator.
  apply List.Forall_forall. intros p Hp. apply in_map_iff in Hp.
  destruct Hp as (x & <- & _). cbn [snd].
  apply (mean_bounds (fun v => kernelEpanechnikov 20 (x - v))); [exact HV|].
  intros v. split.
  - apply kernelEpanechnikov_nonneg. reflexivity.
  - apply kernelEpanechnikov_20_le.
Qed.

(** The loop of [d3.max]: the result is the accumulator or one of the
    values, and it is no smaller than any of them. *)
Lemma max_loop {A : Type} (f : A -> option Q) (l : list A) (acc : option Q) :
  match fold_left (D3.max_step f) l acc with
  | Some m =>
      (acc = Some m \/ exists x, In x l /\ f x = Some m)
      /\ (forall a, acc = Some a -> a <= m)
      /\ (forall x v, In x l -> f x = Some v -> v <= m)
  | None => acc = None /\ forall x, In x l -> f x = None
  end.
Proof.
  revert acc. induction l as [|x l IH]; intros acc.
  - simpl. destruct acc as [a|].
    + split; [auto|]. split; [|intros ? ? []].
      intros ? [= <-]. lra.
    + split; [reflexivity|intros ? []].
  - cbn [fold_left]. specialize (IH (D3.max_step f acc x)).
    destruct (fold_left (D3.max_step f) l (D3.max_step f acc x)) as [m|].
    + destruct IH as (Hin & Hacc & Hall).
      unfold D3.max_step in Hin, Hacc.
      destruct (f x) as [v|] eqn:Hfx.
      * destruct acc as [a|].
        -- unfold Qlt_bool in Hin, Hacc.
           destruct (Qle_bool v a) eqn:Hva; cbn [negb] in Hin, Hacc.
           ++ apply Qle_bool_iff in Hva.
              split; [|split].
              ** destruct Hin as [Hin|(y & Hy & Hfy)]; [auto|].
                 right. exists y. split; [right; exact Hy|exact Hfy].
              ** intros ? [= <-]. apply Hacc. reflexivity.
              ** intros y w [<-|Hy] Hfy.
                 --- rewrite Hfx in Hfy. injection Hfy as <-.
                     specialize (Hacc a eq_refl). lra.
                 --- eapply Hall; eauto.
           ++ assert (Hav : a <= v).
              { destruct (Qlt_le_dec a v) as [Hl|Hl]; [lra|].
                apply Qle_bool_iff in Hl. congruence. }
              split; [|split].
              ** right. destruct Hin as [[= <-]|(y & Hy & Hfy)].
                 --- exists x. split; [left; reflexivity|exact Hfx].
                 --- exists y. split; [right; exact Hy|exact Hfy].
              ** intros ? [= <-]. specialize (Hacc v eq_refl). lra.
              ** intros y w [<-|Hy] Hfy.
                 --- rewrite Hfx in Hfy. injection Hfy as <-.
                     apply Hacc. reflexivity.
                 --- eapply Hall; eauto.
        -- split; [|split].
           ++ right. destruct Hin as [[= <-]|(y & Hy & Hfy)].
              ** exists x. split; [left; reflexivity|exact Hfx].
              ** exists y. split; [right; exact Hy|exact Hfy].
           ++ intros ? [=].
           ++ intros y w [<-|Hy] Hfy.
              ** rewrite Hfx in Hfy. injection Hfy as <-.
                 apply Hacc. reflexivity.
              ** eapply Hall; eauto.
      * split; [|split].
        -- destruct Hin as [Hin|(y & Hy & Hfy)]; [auto|].
           right. exists y. split; [right; exact Hy|exact Hfy].
        -- exact Hacc.
        -- intros y w [<-|Hy] Hfy; [congruence|]. eapply Hall; eauto.
    + destruct IH as (Hacc & Hall). unfold D3.max_step in Hacc.
      destruct (f x) as [v|] eqn:Hfx.
      * destruct acc as [a|]; [destruct (Qlt_bool a v)|]; discriminate.
      * split; [exact Hacc|]. intros y [<-|Hy]; [exact Hfx|auto].
Qed.

Lemma max_spec {A : Type} (f : A -> option Q) (l : list A) (x : A) (v : Q) :
  In x l -> f x = Some v ->
  exists m, D3.max l f = Some m
    /\ (exists y, In y l /\ f y = Some m)
    /\ (forall y w, In y l -> f y = Some w -> w <= m).
Proof.
  intros Hx Hfx. unfold D3.max.
  pose proof (max_loop f l None) as H.
  destruct (fold_left (D3.max_step f) l None) as [m|].
  - destruct H as (Hin & _ & Hall). exists m. split; [reflexivity|].
    split; [|exact Hall]. destruct Hin as [[=]|Hin]. exact Hin.
  - destruct H as (_ & Hnone). rewrite (Hnone x Hx) in Hfx. discriminate.
Qed.

End DensityFacts.

Example kernel_at_centre : (kernelEpanechnikov 20 0 == 0.0375)%Q.
Proof. reflexivity. Qed.

Example kernel_at_edge : (kernelEpanechnikov 20 20 == 0)%Q.
Proof. reflexivity. Qed.

Example kernel_outside : kernelEpanechnikov 20 (-21) = 0%Q.
Proof. reflexivity. Qed.

Example density_of_two :
  map (fun p => (fst p, Qred <$> snd p)) (densityOf [0; 10; 25]%Q [10; 10]%Q)
  = [(0, Some (9 # 320)); (10, Some (3 # 80)); (25, Some (21 # 1280))]%Q.
Proof. vm_compute. reflexivity. Qed.

(** C1.  When a sample has at least two valid observations, the density
    computed for it has one entry per point of the evaluation grid (the
    grid points themselves, in order), and every density value is defined
    and not negative. *)
Theorem density_same_length_nonneg (ticks : list Q) (sample : list Pokemon) :
  (2 <= length (validTotals sample))%nat ->
  let density := densityOf ticks (validTotals sample) in
  length density = length ticks
  /\ map fst density = ticks
  /\ Forall (fun p => exists y, snd p = Some y /\ (0 <= y)%Q) density.
Proof.
  intros Hn. unfold densityOf.
  destruct (Nat.leb_spec 2 (length (validTotals sample))) as [_|Hlt]; [|lia].
  split; [apply kde_length|]. split; [apply kde_grid|].
  eapply Forall_impl; [apply kde_values|].
  - intros E. rewrite E in Hn. simpl in Hn. lia.
  - intros p (y & Hy & Hlo & _). exists y. split; assumption.
Qed.

Lemma density_same_length_nonneg_witness :
  let ticks := [0; 10; 30]%Q in
  let sample :=
    [samplePokemon "Bulbasaur" "Grass" "Poison" (Some 318%Q);
     samplePokemon "Missing" "Grass" "None" None;
     samplePokemon "Ivysaur" "Grass" "Poison" (Some 405%Q)] in
  (2 <= length (validTotals sample))%nat
  /\ length (densityOf ticks (validTotals sample)) = length ticks
  /\ map fst (densityOf ticks (validTotals sample)) = ticks
  /\ Forall (fun p => exists y, snd p = Some y /\ (0 <= y)%Q)
            (densityOf ticks (validTotals sample)).
Proof.
  intros ticks sample. split.
  - vm_compute. lia.
  - apply (density_same_length_nonneg ticks sample). vm_compute. lia.
Defined.

(** C2.  When a sample has fewer than two valid observations, the density
    is the empty sequence, whatever the grid: both in [updateToGeneration]
    of the animated plot and in the click handler of the static plot. *)
Theorem insufficient_sample_empty_density (ticks : list Q) (i : Z)
    (generationData : GenerationData) :
  (length (validTotals (values generationData)) < 2)%nat ->
  densityOf ticks (validTotals (values generationData)) = []
  /\ Ridgeline.density (Ridgeline.render ticks i generationData) = []
  /\ RidgelineStatic.density (RidgelineStatic.ridgeClick ticks generationData) = []
  /\ RidgelineStatic.drawRidge ticks generationData = None.
Proof.
  intros Hn.
  assert (E : densityOf ticks (validTotals (values generationData)) = []).
  { unfold densityOf.
    destruct (Nat.leb_spec 2 (length (validTotals (values generationData))));
      [lia|reflexivity]. }
  repeat split.
  - exact E.
  - unfold Ridgeline.render. cbn [Ridgeline.density]. exact E.
  - unfold RidgelineStatic.ridgeClick. cbn [RidgelineStatic.density]. exact E.
  - unfold RidgelineStatic.drawRidge.
    destruct (Nat.ltb_spec (length (validTotals (values generationData))) 2);
      [reflexivity|lia].
Qed.

Lemma insufficient_sample_empty_density_witness :
  let ticks := [0; 10; 30]%Q in
  let generationData :=
    mkGenerationData "1"
      [samplePokemon "Bulbasaur" "Grass" "Poison" (Some 318%Q);
       samplePokemon "Missing" "Grass" "None" None] in
  (length (validTotals (values generationData)) < 2)%nat
  /\ densityOf ticks (validTotals (values generationData)) = []
  /\ Ridgeline.density (Ridgeline.render ticks 0 generationData) = []
  /\ RidgelineStatic.density (RidgelineStatic.ridgeClick ticks generationData) = []
  /\ RidgelineStatic.drawRidge ticks generationData = None.
Proof.
  intros ticks generationData. split.
  - vm_compute. lia.
  - apply (insufficient_sample_empty_density ticks 0 generationData).
    vm_compute. lia.
Defined.

(** C9.  For a generation whose valid totals are [10, 10] and any grid
    that contains the point 10, the density shown by [updateToGeneration]
    is not empty and its maximum [maxDensity] is defined, equals
    0.75 / 20 = 3/80 (so it is positive, and finite as every number of
    the model is), is the density at the grid point 10 and bounds every
    other density value. *)
Theorem two_identical_values_peak (ticks : list Q) (i : Z)
    (generationData : GenerationData) :
  validTotals (values generationData) = [10; 10]%Q ->
  (exists x, In x ticks /\ (x == 10)%Q) ->
  let shown := Ridgeline.render ticks i generationData in
  Ridgeline.density shown <> []
  /\ exists m,
       Ridgeline.maxDensity shown = Some m
       /\ (m == 3 # 80)%Q /\ (0 < m)%Q
       /\ (exists x y, In (x, Some y) (Ridgeline.density shown)
                       /\ (x == 10)%Q /\ (y == m)%Q)
       /\ (forall x y, In (x, Some y) (Ridgeline.density shown) -> (y <= m)%Q).
Proof.
  intros HV (x0 & Hx0 & Ex0).
  unfold Ridgeline.render. cbn [Ridgeline.density Ridgeline.maxDensity].
  rewrite HV. unfold densityOf. cbn [length Nat.leb].
  set (val := fun x : Q =>
         ((0 + kernelEpanechnikov 20 (x - 10) + kernelEpanechnikov 20 (x - 10))
          / inject_Z (Z.of_nat 2))%Q).
  assert (Hk : kde ticks [10; 10]%Q = map (fun x => (x, Some (val x))) ticks)
    by reflexivity.
  assert (Hval : forall x, (val x == kernelEpanechnikov 20 (x - 10))%Q).
  { intros x. unfold val. simpl. field. }
  rewrite Hk.
  assert (Hin0 : In (x0, Some (val x0)) (map (fun x => (x, Some (val x))) ticks)).
  { apply in_map_iff. exists x0. split; [reflexivity|exact Hx0]. }
  assert (Hpeak : (val x0 == 3 # 80)%Q).
  { rewrite Hval. apply kernelEpanechnikov_20_peak. rewrite Ex0. reflexivity. }
  assert (Hle : forall x, (val x <= 3 # 80)%Q).
  { intros x. rewrite Hval. apply kernelEpanechnikov_20_le. }
  split.
  { intros E. rewrite E in Hin0. destruct Hin0. }
  destruct (max_spec snd _ _ _ Hin0 eq_refl) as (m & Hm & (p & Hp & Hpm) & Hall).
  exists m. split; [exact Hm|].
  assert (Em : (m == 3 # 80)%Q).
  { apply Qle_antisym.
    - apply in_map_iff in Hp. destruct Hp as (x & <- & _).
      cbn [snd] in Hpm. injection Hpm as <-. apply Hle.
    - rewrite <- Hpeak. apply (Hall _ _ Hin0 eq_refl). }
  split; [exact Em|]. split; [rewrite Em; reflexivity|].
  split.
  - exists x0, (val x0). split; [exact Hin0|]. split; [exact Ex0|].
    rewrite Em. exact Hpeak.
  - intros x y Hxy. apply (Hall _ _ Hxy eq_refl).
Qed.

Lemma two_identical_values_peak_witness :
  let ticks := [0; 10; 25]%Q in
  let generationData :=
    mkGenerationData "1"
      [samplePokemon "Sunkern" "Grass" "None" (Some 10%Q);
       samplePokemon "Azurill" "Normal" "Fairy" (Some 10%Q)] in
  let shown := Ridgeline.render ticks 0 generationData in
  validTotals (values generationData) = [10; 10]%Q
  /\ (exists x, In x ticks /\ (x == 10)%Q)
  /\ Ridgeline.density shown <> []
  /\ exists m,
       Ridgeline.maxDensity shown = Some m
       /\ (m == 3 # 80)%Q /\ (0 < m)%Q
       /\ (exists x y, In (x, Some y) (Ridgeline.density shown)
                       /\ (x == 10)%Q /\ (y == m)%Q)
       /\ (forall x y, In (x, Some y) (Ridgeline.density shown) -> (y <= m)%Q).
Proof.
  intros ticks generationData shown.
  assert (H1 : validTotals (values generationData) = [10; 10]%Q) by reflexivity.
  assert (H2 : exists x, In x ticks /\ (x == 10)%Q).
  { exists 10%Q. split; [simpl; auto|reflexivity]. }
  split; [exact H1|]. split; [exact H2|].
  exact (two_identical_values_peak ticks 0 generationData H1 H2).
Defined.

(** ** The animation controller *)

(** The slider handler pauses a running animation and stores the value
    it is given as it is.  A value inside [0, length-1] is rendered; for
    a value outside that range [updateToGeneration] returns at once and
    the display stays as it was. *)
Lemma sliderInput_renders_in_range_only (ticks : list Q)
    (dataByGenArray : list GenerationData) (value : Z)
    (st : Ridgeline.AnimationState) :
  let st' := Ridgeline.sliderInput ticks dataByGenArray value st in
  Ridgeline.currentAnimationGenerationIndex st' = value
  /\ Ridgeline.isPlaying st' = false
  /\ ((0 <= value < Z.of_nat (length dataByGenArray))%Z ->
      exists generationData,
        nth_error dataByGenArray (Z.to_nat value) = Some generationData
        /\ Ridgeline.display st'
           = Some (Ridgeline.render ticks value generationData))
  /\ ((value < 0 \/ Z.of_nat (length dataByGenArray) <= value)%Z ->
      Ridgeline.display st' = Ridgeline.display st).
Proof.
  unfold Ridgeline.sliderInput, Ridgeline.updateToGeneration.
  cbn [Ridgeline.currentAnimationGenerationIndex Ridgeline.isPlaying
       Ridgeline.animationTimer Ridgeline.sliderValue
       Ridgeline.playButtonText Ridgeline.display].
  set (n := Z.of_nat (length dataByGenArray)).
  assert (Hplay : Ridgeline.isPlaying
            (if Ridgeline.isPlaying st
             then Ridgeline.pauseAnimation dataByGenArray st else st) = false).
  { destruct (Ridgeline.isPlaying st) eqn:E; [reflexivity|exact E]. }
  assert (Hdisp : Ridgeline.display
            (if Ridgeline.isPlaying st
             then Ridgeline.pauseAnimation dataByGenArray st else st)
            = Ridgeline.display st).
  { destruct (Ridgeline.isPlaying st); reflexivity. }
  destruct (Z.ltb_spec value 0) as [Hneg|Hnonneg];
    destruct (Z.leb_spec n value) as [Hbig|Hsmall]; cbn [orb].
  1-3: (cbn [Ridgeline.currentAnimationGenerationIndex Ridgeline.isPlaying
             Ridgeline.display];
        repeat split; [exact Hplay|lia|intros _; exact Hdisp]).
  destruct (nth_error dataByGenArray (Z.to_nat value)) as [gd|] eqn:Hnth.
  - cbn [Ridgeline.currentAnimationGenerationIndex Ridgeline.isPlaying
         Ridgeline.display].
    repeat split; [exact Hplay| |lia].
    intros _. exists gd. split; reflexivity.
  - apply nth_error_None in Hnth. unfold n in Hsmall. lia.
Qed.

(** The handler alone does not clamp: given -1 or 3 on a controller
    with three steps it would store that index and leave the display as
    it was.  The slider never reports such a value. *)
Example sliderInput_does_not_clamp :
  let st := Ridgeline.initialState sampleTicks sampleGenerations in
  let below := Ridgeline.sliderInput sampleTicks sampleGenerations (-1) st in
  let above := Ridgeline.sliderInput sampleTicks sampleGenerations 3 st in
  length sampleGenerations = 3%nat
  /\ Ridgeline.currentAnimationGenerationIndex below = (-1)%Z
  /\ Ridgeline.currentAnimationGenerationIndex above = 3%Z
  /\ Ridgeline.display below = Ridgeline.display st
  /\ Ridgeline.display above = Ridgeline.display st.
Proof.
  cbv zeta. repeat split; reflexivity.
Qed.

(** C5.  With at least one step, a request to scrub to any integer
    index leaves the controller at that index clamped into
    [0, length-1]: the slider keeps the requested value within its
    bounds and the handler stores what the slider reports.  The index
    and the slider then hold the clamped value, the animation is
    paused (a running timer is stopped), and the step at the clamped
    index is displayed; a request
    for -1 ends at index 0 and a request for [length] at [length - 1].
    No branch raises an error, and the index is never left out of
    range. *)
Theorem scrubTo_clamps (ticks : list Q)
    (dataByGenArray : list GenerationData) (index : Z)
    (st : Ridgeline.AnimationState) :
  1 <= length dataByGenArray ->
  let last := (Z.of_nat (length dataByGenArray) - 1)%Z in
  let clamped := Z.max 0 (Z.min index last) in
  let st' := RidgelineEvents.scrubTo ticks dataByGenArray index st in
  Ridgeline.currentAnimationGenerationIndex st' = clamped
  /\ Ridgeline.sliderValue st' = clamped
  /\ (0 <= clamped <= last)%Z
  /\ Ridgeline.isPlaying st' = false
  /\ (Ridgeline.isPlaying st = true -> Ridgeline.animationTimer st' = false)
  /\ RidgelineEvents.shows ticks dataByGenArray st' clamped
  /\ (index = (-1)%Z ->
      Ridgeline.currentAnimationGenerationIndex st' = 0%Z)
  /\ (index = Z.of_nat (length dataByGenArray) ->
      Ridgeline.currentAnimationGenerationIndex st' = last).
Proof.
  intros Hlen. cbv zeta.
  set (n := Z.of_nat (length dataByGenArray)).
  assert (Hn : (1 <= n)%Z) by (unfold n; lia).
  assert (Hv : RidgelineEvents.rangeValue 0
                 (Ridgeline.sliderMax dataByGenArray) index
               = Z.max 0 (Z.min index (n - 1))).
  { unfold RidgelineEvents.rangeValue, Ridgeline.sliderMax.
    destruct (Nat.ltb_spec 0 (length dataByGenArray)) as [_|H]; [|lia].
    fold n.
    destruct (Z.ltb_spec index 0); [lia|].
    destruct (Z.ltb_spec (n - 1) index); lia. }
  unfold RidgelineEvents.scrubTo. cbn [RidgelineEvents.handle]. rewrite Hv.
  set (v := Z.max 0 (Z.min index (n - 1))).
  assert (Hrange : (0 <= v < n)%Z) by (unfold v; lia).
  destruct (sliderInput_renders_in_range_only ticks dataByGenArray v st)
    as (Hidx & Hplay & Hin & _). cbv zeta in Hidx, Hplay, Hin.
  split; [exact Hidx|].
  assert (Hslider :
    Ridgeline.sliderValue (Ridgeline.sliderInput ticks dataByGenArray v st)
    = v
    /\ (Ridgeline.isPlaying st = true ->
        Ridgeline.animationTimer
          (Ridgeline.sliderInput ticks dataByGenArray v st) = false)).
  { unfold Ridgeline.sliderInput, Ridgeline.updateToGeneration.
    cbn [Ridgeline.currentAnimationGenerationIndex Ridgeline.isPlaying
         Ridgeline.animationTimer Ridgeline.sliderValue
         Ridgeline.playButtonText Ridgeline.display].
    destruct ((v <? 0)%Z || (Z.of_nat (length dataByGenArray) <=? v)%Z);
      [|destruct (nth_error dataByGenArray (Z.to_nat v))];
      cbn [Ridgeline.sliderValue Ridgeline.animationTimer];
      (split; [reflexivity|]);
      destruct (Ridgeline.isPlaying st); cbn; intros H; congruence. }
  destruct Hslider as [Hslider Htimer].
  split; [exact Hslider|]. split; [lia|]. split; [exact Hplay|].
  split; [exact Htimer|]. split; [exact (Hin Hrange)|].
  split; intros ->; rewrite Hidx; unfold v; lia.
Qed.

Lemma scrubTo_clamps_witness :
  let playing :=
    Ridgeline.playButtonClick sampleTicks sampleGenerations
      (Ridgeline.initialState sampleTicks sampleGenerations) in
  let below :=
    RidgelineEvents.scrubTo sampleTicks sampleGenerations (-1) playing in
  let above :=
    RidgelineEvents.scrubTo sampleTicks sampleGenerations 3 playing in
  1 <= length sampleGenerations
  /\ Ridgeline.isPlaying playing = true
  /\ Ridgeline.currentAnimationGenerationIndex below = 0%Z
  /\ Ridgeline.sliderValue below = 0%Z
  /\ Ridgeline.isPlaying below = false
  /\ RidgelineEvents.shows sampleTicks sampleGenerations below 0
  /\ Ridgeline.currentAnimationGenerationIndex above = 2%Z
  /\ Ridgeline.sliderValue above = 2%Z
  /\ Ridgeline.isPlaying above = false
  /\ RidgelineEvents.shows sampleTicks sampleGenerations above 2.
Proof.
  intros playing below above.
  assert (H : 1 <= length sampleGenerations) by (cbn; lia).
  destruct (scrubTo_clamps sampleTicks sampleGenerations (-1) playing H)
    as (B1 & B2 & _ & B3 & _ & B4 & _).
  destruct (scrubTo_clamps sampleTicks sampleGenerations 3 playing H)
    as (A1 & A2 & _ & A3 & _ & A4 & _).
  split; [exact H|]. split; [reflexivity|].
  split; [exact B1|]. split; [exact B2|]. split; [exact B3|].
  split; [exact B4|].
  split; [exact A1|]. split; [exact A2|]. split; [exact A3|]. exact A4.
Defined.

(** ** JavaScript built-ins *)

Section BuiltinFacts.

Lemma Set_fold_elem_of (xs acc : list string) (x : string) :
  x ∈ fold_left Set_add xs acc <-> x ∈ acc \/ x ∈ xs.
Proof.
  revert acc. induction xs as [|y xs IH]; intros acc; cbn [fold_left].
  - rewrite elem_of_nil. tauto.
  - rewrite IH, elem_of_cons. unfold Set_add. case_bool_decide as Hy.
    + split; [tauto|]. intros [H|[->|H]]; auto.
    + rewrite elem_of_app, list_elem_of_singleton. tauto.
Qed.

Lemma Set_fold_NoDup (xs acc : list string) :
  NoDup acc -> NoDup (fold_left Set_add xs acc).
Proof.
  revert acc. induction xs as [|y xs IH]; intros acc Hacc; cbn [fold_left].
  - exact Hacc.
  - apply IH. unfold Set_add. case_bool_decide as Hy; [exact Hacc|].
    apply NoDup_app. split; [exact Hacc|]. split.
    + intros z Hz Hz'. apply list_elem_of_singleton in Hz'. congruence.
    + apply NoDup_singleton.
Qed.

Lemma elem_of_Set_values (xs : list string) (x : string) :
  x ∈ Set_values xs <-> x ∈ xs.
Proof.
  unfold Set_values. rewrite Set_fold_elem_of, elem_of_nil. tauto.
Qed.

Lemma NoDup_Set_values (xs : list string) : NoDup (Set_values xs).
Proof. apply Set_fold_NoDup, NoDup_nil_2. Qed.

Context {A : Type} (compareFn : A -> A -> Z).

Lemma sort_insert_Permutation (x : A) (l : list A) :
  sort_insert compareFn x l ≡ₚ x :: l.
Proof.
  induction l as [|y l IH]; cbn [sort_insert]; [reflexivity|].
  destruct (compareFn x y <=? 0)%Z; [reflexivity|].
  rewrite IH. apply perm_swap.
Qed.

Lemma Array_sort_Permutation (l : list A) : Array_sort compareFn l ≡ₚ l.
Proof.
  induction l as [|x l IH]; cbn [Array_sort fold_right]; [reflexivity|].
  rewrite sort_insert_Permutation. apply perm_skip, IH.
Qed.

(** Stability: elements that compare as equal keep their input
    order. *)
Lemma sort_insert_filter (P : A -> bool) (x : A) (l : list A) :
  (forall a b, P a = true -> P b = true -> (compareFn a b <= 0)%Z) ->
  List.filter P (sort_insert compareFn x l) = List.filter P (x :: l).
Proof.
  intros HP. induction l as [|y l IH]; cbn [sort_insert]; [reflexivity|].
  destruct (Z.leb_spec (compareFn x y) 0) as [Hle|Hgt]; [reflexivity|].
  cbn [List.filter] in *. rewrite IH.
  destruct (P x) eqn:Px, (P y) eqn:Py; try reflexivity.
  specialize (HP x y Px Py). lia.
Qed.

Lemma Array_sort_filter (P : A -> bool) (l : list A) :
  (forall a b, P a = true -> P b = true -> (compareFn a b <= 0)%Z) ->
  List.filter P (Array_sort compareFn l) = List.filter P l.
Proof.
  intros HP. induction l as [|x l IH]; cbn [Array_sort fold_right];
    [reflexivity|].
  rewrite sort_insert_filter by exact HP.
  cbn [List.filter]. fold (Array_sort compareFn l). rewrite IH. reflexivity.
Qed.

(** Sortedness, for a comparator that subtracts a rank. *)
Variable rank : A -> Z.
Variable ranked : A -> Prop.
Hypothesis compareFn_rank :
  forall a b, ranked a -> ranked b -> compareFn a b = (rank b - rank a)%Z.

Lemma sort_insert_sorted (x : A) (l : list A) :
  ranked x -> Forall ranked l ->
  StronglySorted (fun a b => (rank b <= rank a)%Z) l ->
  StronglySorted (fun a b => (rank b <= rank a)%Z) (sort_insert compareFn x l).
Proof.
  intros Hx Hl Hs. induction Hs as [|y l Hs IH Hy]; cbn [sort_insert].
  - repeat constructor.
  - apply Forall_cons in Hl as [Hry Hl].
    rewrite compareFn_rank by assumption.
    destruct (Z.leb_spec (rank y - rank x) 0) as [Hle|Hgt].
    + constructor; [constructor; assumption|].
      constructor; [lia|].
      eapply Forall_impl; [exact Hy|]. intros z Hz. simpl in Hz. lia.
    + constructor; [apply IH; exact Hl|].
      rewrite sort_insert_Permutation. constructor; [lia|exact Hy].
Qed.

Lemma Array_sort_sorted (l : list A) :
  Forall ranked l ->
  StronglySorted (fun a b => (rank b <= rank a)%Z) (Array_sort compareFn l).
Proof.
  induction l as [|x l IH]; intros Hl; cbn [Array_sort fold_right].
  - constructor.
  - apply Forall_cons in Hl as [Hx Hl].
    apply sort_insert_sorted; [exact Hx| |apply IH; exact Hl].
    fold (Array_sort compareFn l). rewrite Array_sort_Permutation. exact Hl.
Qed.

(** Sorting a sorted array changes nothing. *)
Lemma Array_sort_of_sorted (l : list A) :
  Forall ranked l ->
  StronglySorted (fun a b => (rank b <= rank a)%Z) l ->
  Array_sort compareFn l = l.
Proof.
  intros Hl Hs. induction Hs as [|x l Hs IH Hx]; cbn [Array_sort fold_right];
    [reflexivity|].
  apply Forall_cons in Hl as [Hrx Hl].
  fold (Array_sort compareFn l). rewrite IH by exact Hl.
  destruct l as [|y l]; [reflexivity|]. cbn [sort_insert].
  apply Forall_cons in Hx as [Hxy _]. apply Forall_cons in Hl as [Hry _].
  rewrite compareFn_rank by assumption.
  destruct (Z.leb_spec (rank y - rank x) 0); [reflexivity|lia].
Qed.

End BuiltinFacts.

(** ** Aggregation for the stacked bars *)

Section AggregateFacts.

Import StackedBar.

Variable localeCompare : string -> string -> Z.

Abbreviation allSecondaryTypes := (StackedBar.allSecondaryTypes localeCompare).
Abbreviation countsByTypeFull := (StackedBar.countsByTypeFull localeCompare).
Abbreviation sortedEntries := (StackedBar.sortedEntries localeCompare).
Abbreviation baseSortedCountsArray := (StackedBar.baseSortedCountsArray localeCompare).
Abbreviation rollupWarnings := (StackedBar.rollupWarnings localeCompare).

Lemma sum_indicator (x : string) (ks : list string) :
  NoDup ks -> x ∈ ks ->
  sum_list (map (fun k => if bool_decide (x = k) then 1 else 0) ks) = 1.
Proof.
  induction 1 as [|k ks Hk Hks IH]; intros Hx.
  - apply elem_of_nil in Hx. destruct Hx.
  - simpl. apply elem_of_cons in Hx as [->|Hx].
    + rewrite bool_decide_eq_true_2 by reflexivity.
      assert (E : sum_list
                    (map (fun k0 => if bool_decide (k = k0) then 1 else 0) ks)
                  = 0).
      { clear IH Hks. induction ks as [|y ks IH]; [reflexivity|].
        simpl. rewrite not_elem_of_cons in Hk.
        destruct Hk as [Hne Hk].
        rewrite bool_decide_eq_false_2 by exact Hne. rewrite IH by exact Hk.
        reflexivity. }
      rewrite E. reflexivity.
    + rewrite bool_decide_eq_false_2 by (intros ->; contradiction).
      rewrite IH by exact Hx. reflexivity.
Qed.

(** Every record falls in exactly one group: the group sizes add up to
    the number of records. *)
Lemma sum_group_sizes (keyof : Pokemon -> string) (ks : list string)
    (data : list Pokemon) :
  NoDup ks ->
  (forall d, d ∈ data -> keyof d ∈ ks) ->
  sum_list (map (fun k => length (leavesOf keyof data k)) ks) = length data.
Proof.
  intros Hks. induction data as [|d data IH]; intros Hall.
  - unfold leavesOf. cbn [List.filter length].
    clear. induction ks as [|k ks IH]; [reflexivity|]. cbn. exact IH.
  - assert (E : forall k, length (leavesOf keyof (d :: data) k)
              = (if bool_decide (keyof d = k) then 1 else 0)
                + length (leavesOf keyof data k)).
    { intros k. unfold leavesOf. cbn [List.filter].
      destruct (bool_decide (keyof d = k)); reflexivity. }
    rewrite (map_ext _ _ E).
    assert (Hsum : forall (f g : string -> nat) l,
               sum_list (map (fun k => f k + g k) l)
               = sum_list (map f l) + sum_list (map g l)).
    { intros f g l. induction l as [|k l IHl]; [reflexivity|].
      simpl. rewrite IHl. lia. }
    rewrite Hsum, IH, sum_indicator.
    + reflexivity.
    + exact Hks.
    + apply Hall. left.
    + intros d' Hd'. apply Hall. right. exact Hd'.
Qed.

Lemma entries_shape (data : list Pokemon) :
  map (fun e => (fst e, fst (snd e))) (countsByTypeFull data)
  = map (fun k => (k, fst (reduceLeaves (allSecondaryTypes data)
                                        (leavesOf Type_1 data k))))
        (Set_values (map Type_1 data)).
Proof.
  unfold StackedBar.countsByTypeFull, d3_rollup, d3_group.
  rewrite !map_map. reflexivity.
Qed.

Lemma reduceLeaves_total (secTypes : list string) (leaves : list Pokemon) :
  fst (reduceLeaves secTypes leaves) !! "total" = Some (length leaves).
Proof. unfold reduceLeaves. cbn [fst]. apply lookup_insert_eq. Qed.

Lemma flatten_total (e : string * gmap string nat) (t : nat) :
  snd e !! "total" = Some t -> groupTotal (flatten e) = t.
Proof.
  intros Ht. unfold groupTotal, getProp, flatten.
  rewrite (lookup_union_Some_l _ _ _ (JNum t)); [reflexivity|].
  rewrite lookup_fmap, Ht. reflexivity.
Qed.

(** Every entry of the rollup carries its [total], the size of its
    group. *)
Lemma sortedEntries_total (data : list Pokemon) :
  Forall (fun e => snd e !! "total"
                   = Some (length (leavesOf Type_1 data (fst e))))
         (sortedEntries data).
Proof.
  unfold StackedBar.sortedEntries. rewrite Array_sort_Permutation.
  rewrite entries_shape. apply Forall_forall. intros e He.
  apply list_elem_of_fmap in He as (k & -> & _). cbn [fst snd].
  apply reduceLeaves_total.
Qed.

Lemma base_totals (data : list Pokemon) :
  map groupTotal (baseSortedCountsArray data)
  = map (fun e => length (leavesOf Type_1 data (fst e))) (sortedEntries data).
Proof.
  unfold StackedBar.baseSortedCountsArray. rewrite map_map.
  pose proof (sortedEntries_total data) as H.
  induction H as [|e l He Hl IH]; [reflexivity|].
  cbn [map]. rewrite IH. f_equal. apply flatten_total. exact He.
Qed.

Lemma byTotalDescending_rank (a b : string * gmap string nat) :
  is_Some (snd a !! "total") -> is_Some (snd b !! "total") ->
  byTotalDescending a b = (entryRank b - entryRank a)%Z.
Proof.
  intros [ta Ha] [tb Hb]. unfold byTotalDescending, entryRank.
  rewrite Ha, Hb. reflexivity.
Qed.

Lemma entries_ranked (data : list Pokemon) :
  Forall (fun e => is_Some (snd e !! "total"))
         (map (fun e => (fst e, fst (snd e))) (countsByTypeFull data)).
Proof.
  rewrite entries_shape. apply Forall_forall. intros e He.
  apply list_elem_of_fmap in He as (k & -> & _). cbn [snd].
  rewrite reduceLeaves_total. eexists. reflexivity.
Qed.

Lemma sortedEntries_sorted (data : list Pokemon) :
  StronglySorted (fun a b => (entryRank b <= entryRank a)%Z)
                 (sortedEntries data).
Proof.
  unfold StackedBar.sortedEntries.
  apply (Array_sort_sorted byTotalDescending entryRank
           (fun e => is_Some (snd e !! "total"))).
  - exact byTotalDescending_rank.
  - apply entries_ranked.
Qed.

Lemma sortedEntries_ranked (data : list Pokemon) :
  Forall (fun e => is_Some (snd e !! "total")) (sortedEntries data).
Proof.
  unfold StackedBar.sortedEntries. rewrite Array_sort_Permutation.
  apply entries_ranked.
Qed.

Lemma StronglySorted_map {A B : Type} (R : A -> A -> Prop)
    (R' : B -> B -> Prop) (f : A -> B) (l : list A) :
  (forall a b, a ∈ l -> b ∈ l -> R a b -> R' (f a) (f b)) ->
  StronglySorted R l -> StronglySorted R' (map f l).
Proof.
  intros HR Hs. induction Hs as [|x l Hs IH Hx]; cbn [map]; constructor.
  - apply IH. intros a b Ha Hb. apply HR; right; assumption.
  - apply Forall_forall. intros y Hy.
    apply list_elem_of_fmap in Hy as (z & -> & Hz).
    apply HR; [left|right; exact Hz|].
    rewrite Forall_forall in Hx. apply Hx, Hz.
Qed.

(** C6.  The [total]s of the groups that the aggregation produces add up
    to the number of input records: the rollup takes every record, none
    is filtered out before it.  Each [total] is a number, the size of
    its group. *)
Theorem group_totals_sum_to_record_count (data : list Pokemon) :
  sum_list (map groupTotal (baseSortedCountsArray data)) = length data
  /\ Forall (fun d => getProp d "total" = JNum (groupTotal d))
            (baseSortedCountsArray data).
Proof.
  split.
  - rewrite base_totals. unfold StackedBar.sortedEntries.
    rewrite Array_sort_Permutation, entries_shape, map_map. cbn [fst].
    apply sum_group_sizes.
    + apply NoDup_Set_values.
    + intros d Hd. apply elem_of_Set_values, list_elem_of_fmap.
      exists d. split; [reflexivity|exact Hd].
  - unfold StackedBar.baseSortedCountsArray. apply Forall_forall.
    intros d Hd. apply list_elem_of_fmap in Hd as (e & -> & He).
    pose proof (sortedEntries_ranked data) as Hr.
    rewrite Forall_forall in Hr. destruct (Hr e He) as [t Ht].
    unfold groupTotal, getProp, flatten.
    rewrite (lookup_union_Some_l _ _ _ (JNum t)); [reflexivity|].
    rewrite lookup_fmap, Ht. reflexivity.
Qed.

(** C7.  The group list is in descending order of [total]; groups with
    the same total stand in the order in which their primary type first
    occurs in the input (the rollup keeps first-occurrence order and the
    sort is stable); sorting the sorted entries again changes nothing.
    The list is a function of the input, so aggregating the same input
    again gives the same list. *)
Theorem groups_sorted_descending_stable (data : list Pokemon) :
  StronglySorted (fun a b => groupTotal b <= groupTotal a)
                 (baseSortedCountsArray data)
  /\ (forall t,
        map fst
          (List.filter (fun e => bool_decide (snd e !! "total" = Some t))
                       (sortedEntries data))
        = List.filter
            (fun k => bool_decide (length (leavesOf Type_1 data k) = t))
            (Set_values (map Type_1 data)))
  /\ Array_sort byTotalDescending (sortedEntries data) = sortedEntries data.
Proof.
  split; [|split].
  - unfold StackedBar.baseSortedCountsArray.
    apply (StronglySorted_map
             (fun a b => (entryRank b <= entryRank a)%Z));
      [|apply sortedEntries_sorted].
    intros a b Ha Hb Hab.
    pose proof (sortedEntries_ranked data) as Hr.
    rewrite Forall_forall in Hr.
    destruct (Hr a Ha) as [ta Hta], (Hr b Hb) as [tb Htb].
    rewrite (flatten_total a ta Hta), (flatten_total b tb Htb).
    unfold entryRank in Hab. rewrite Hta, Htb in Hab. cbn in Hab. lia.
  - intros t. unfold StackedBar.sortedEntries.
    rewrite Array_sort_filter.
    + rewrite entries_shape.
      induction (Set_values (map Type_1 data)) as [|k ks IH];
        [reflexivity|].
      cbn [map List.filter snd]. rewrite reduceLeaves_total.
      destruct (decide (length (leavesOf Type_1 data k) = t)) as [E|E].
      * rewrite !bool_decide_eq_true_2 by congruence.
        cbn [map fst]. f_equal. exact IH.
      * rewrite !bool_decide_eq_false_2 by congruence. exact IH.
    + intros a b Ha Hb.
      apply bool_decide_eq_true_1 in Ha. apply bool_decide_eq_true_1 in Hb.
      unfold byTotalDescending. rewrite Ha, Hb. lia.
  - apply (Array_sort_of_sorted byTotalDescending entryRank
             (fun e => is_Some (snd e !! "total"))).
    + exact byTotalDescending_rank.
    + apply sortedEntries_ranked.
    + apply sortedEntries_sorted.
Qed.

(** *** The per-type counts of a group *)

Lemma zeroCounts_fold_lookup (ks : list string) (m : gmap string nat)
    (k : string) :
  fold_left (fun o secType => <[secType := 0]> o) ks m !! k
  = if bool_decide (k ∈ ks) then Some 0 else m !! k.
Proof.
  revert m. induction ks as [|y ks IH]; intros m; cbn [fold_left].
  - rewrite bool_decide_eq_false_2 by apply not_elem_of_nil. reflexivity.
  - rewrite IH. destruct (decide (k ∈ ks)) as [Hin|Hnin].
    + rewrite !bool_decide_eq_true_2; [reflexivity| |exact Hin].
      right. exact Hin.
    + rewrite (bool_decide_eq_false_2 _ Hnin).
      destruct (decide (k = y)) as [->|Hne].
      * rewrite lookup_insert_eq, bool_decide_eq_true_2 by left.
        reflexivity.
      * rewrite lookup_insert_ne by congruence.
        rewrite bool_decide_eq_false_2; [reflexivity|].
        rewrite elem_of_cons. tauto.
Qed.

Lemma zeroCounts_lookup (ks : list string) (k : string) :
  zeroCounts ks !! k = if bool_decide (k ∈ ks) then Some 0 else None.
Proof. unfold zeroCounts. rewrite zeroCounts_fold_lookup. reflexivity. Qed.

(** The [forEach] loop never meets an unexpected type when every leaf's
    secondary type is a property of the object, and then each property
    grows by the number of leaves of its type. *)
Lemma countLeaf_fold (leaves : list Pokemon) (m : gmap string nat)
    (log : list LogEntry) :
  (forall leaf, leaf ∈ leaves -> is_Some (m !! Type_2 leaf)) ->
  snd (fold_left countLeaf leaves (m, log)) = log
  /\ forall k,
       fst (fold_left countLeaf leaves (m, log)) !! k
       = (fun n => n + length (leavesOf Type_2 leaves k)) <$> m !! k.
Proof.
  revert m. induction leaves as [|leaf leaves IH]; intros m Hall.
  - cbn [fold_left fst snd]. split; [reflexivity|]. intros k.
    unfold leavesOf. cbn [List.filter length].
    destruct (m !! k) as [n|]; cbn; [f_equal; lia|reflexivity].
  - cbn [fold_left]. destruct (Hall leaf) as [n Hn]; [left|].
    unfold countLeaf at 2 4. cbn [fst snd]. rewrite Hn.
    destruct (IH (<[Type_2 leaf := S n]> m)) as [Hlog Hcnt].
    { intros l Hl. destruct (decide (Type_2 leaf = Type_2 l)) as [E|E].
      - rewrite E, lookup_insert_eq. eexists. reflexivity.
      - rewrite lookup_insert_ne by exact E. apply Hall. right. exact Hl. }
    split; [exact Hlog|]. intros k. rewrite Hcnt.
    unfold leavesOf. cbn [List.filter].
    destruct (decide (Type_2 leaf = k)) as [<-|Hne].
    + rewrite lookup_insert_eq, Hn, bool_decide_eq_true_2 by reflexivity.
      cbn. f_equal. lia.
    + rewrite lookup_insert_ne by exact Hne.
      rewrite bool_decide_eq_false_2 by exact Hne. reflexivity.
Qed.

Lemma allSecondaryTypes_elem_of (data : list Pokemon) (k : string) :
  k ∈ allSecondaryTypes data <-> k ∈ map Type_2 data.
Proof.
  unfold StackedBar.allSecondaryTypes.
  rewrite Array_sort_Permutation. apply elem_of_Set_values.
Qed.

Lemma allSecondaryTypes_NoDup (data : list Pokemon) :
  NoDup (allSecondaryTypes data).
Proof.
  unfold StackedBar.allSecondaryTypes.
  rewrite Array_sort_Permutation. apply NoDup_Set_values.
Qed.

Lemma leavesOf_subset (keyof : Pokemon -> string) (data : list Pokemon)
    (k : string) (d : Pokemon) :
  d ∈ leavesOf keyof data k -> d ∈ data /\ keyof d = k.
Proof.
  unfold leavesOf. rewrite list_elem_of_In, filter_In, <- list_elem_of_In.
  intros [Hd Hk]. split; [exact Hd|].
  apply bool_decide_eq_true in Hk. exact Hk.
Qed.

(** Every name the reducer looks up is a property of [counts]: the
    domain of secondary types is computed from the same data. *)
Lemma countLeaf_hit (data : list Pokemon) (k : string) (leaf : Pokemon) :
  leaf ∈ leavesOf Type_1 data k ->
  is_Some (zeroCounts (allSecondaryTypes data) !! Type_2 leaf).
Proof.
  intros Hl. apply leavesOf_subset in Hl as [Hl _].
  rewrite zeroCounts_lookup, bool_decide_eq_true_2; [eexists; reflexivity|].
  apply allSecondaryTypes_elem_of, list_elem_of_fmap.
  exists leaf. split; [reflexivity|exact Hl].
Qed.

Lemma reduceLeaves_counts (data : list Pokemon) (k key : string) :
  key ∈ allSecondaryTypes data -> key <> "total" ->
  fst (reduceLeaves (allSecondaryTypes data) (leavesOf Type_1 data k)) !! key
  = Some (length (leavesOf Type_2 (leavesOf Type_1 data k) key)).
Proof.
  intros Hkey Hne. unfold reduceLeaves. cbn [fst].
  rewrite lookup_insert_ne by congruence.
  destruct (countLeaf_fold (leavesOf Type_1 data k)
              (zeroCounts (allSecondaryTypes data)) []) as [_ Hcnt].
  { intros leaf. apply countLeaf_hit. }
  rewrite Hcnt, zeroCounts_lookup, bool_decide_eq_true_2 by exact Hkey.
  reflexivity.
Qed.

Lemma rollupWarnings_nil (data : list Pokemon) : rollupWarnings data = [].
Proof.
  unfold StackedBar.rollupWarnings, StackedBar.countsByTypeFull,
    d3_rollup, d3_group.
  rewrite !map_map. cbn [fst snd].
  induction (Set_values (map Type_1 data)) as [|k ks IH]; [reflexivity|].
  cbn [map concat]. rewrite IH, app_nil_r.
  unfold reduceLeaves. cbn [snd].
  apply (countLeaf_fold (leavesOf Type_1 data k)
           (zeroCounts (allSecondaryTypes data)) []).
  intros leaf. apply countLeaf_hit.
Qed.

(** *** The stacked height of a bar *)

Lemma stackedTotal_fold (d : gmap string JsValue) (f : string -> nat)
    (keys : list string) (a : Q) :
  (forall k, k ∈ keys -> getProp d k = JNum (f k)) ->
  exists q,
    fold_left
      (fun acc k =>
         match acc, asNumber (getProp d k) with
         | Some a, Some v => Some (a + v)%Q
         | _, _ => None
         end)
      keys (Some a) = Some q
    /\ (q == a + inject_Z (Z.of_nat (sum_list (map f keys))))%Q.
Proof.
  revert a. induction keys as [|k keys IH]; intros a Hk.
  - exists a. split; [reflexivity|]. simpl. ring.
  - cbn [fold_left]. rewrite (Hk k) by left. cbn [asNumber].
    destruct (IH (a + inject_Z (Z.of_nat (f k)))%Q) as (q & Hq & Eq).
    { intros k' Hk'. apply Hk. right. exact Hk'. }
    exists q. split; [exact Hq|]. rewrite Eq. simpl sum_list.
    rewrite Nat2Z.inj_add, inject_Z_plus. ring.
Qed.

Lemma base_elem_of (data : list Pokemon) (d : gmap string JsValue) :
  d ∈ baseSortedCountsArray data ->
  exists k,
    k ∈ map Type_1 data
    /\ d = flatten (k, fst (reduceLeaves (allSecondaryTypes data)
                                         (leavesOf Type_1 data k))).
Proof.
  unfold StackedBar.baseSortedCountsArray, StackedBar.sortedEntries.
  intros Hd. apply list_elem_of_fmap in Hd as (e & -> & He).
  rewrite Array_sort_Permutation, entries_shape in He.
  apply list_elem_of_fmap in He as (k & -> & Hk).
  exists k. split; [|reflexivity]. apply elem_of_Set_values, Hk.
Qed.

(** The width of every segment is a number. *)
Lemma segment_widths_numeric (data : list Pokemon)
    (d : gmap string JsValue) (key : string) :
  d ∈ baseSortedCountsArray data -> key ∈ allSecondaryTypes data ->
  exists n, getProp d key = JNum n.
Proof.
  intros Hd Hkey. apply base_elem_of in Hd as (k & _ & ->).
  unfold getProp, flatten. cbn [fst snd].
  destruct (decide (key = "total")) as [->|Hne].
  - exists (length (leavesOf Type_1 data k)).
    rewrite (lookup_union_Some_l _ _ _ (JNum (length (leavesOf Type_1 data k))));
      [reflexivity|].
    rewrite lookup_fmap, reduceLeaves_total. reflexivity.
  - eexists.
    erewrite lookup_union_Some_l; [reflexivity|].
    rewrite lookup_fmap, reduceLeaves_counts by assumption. reflexivity.
Qed.

(** C10, on the inputs where it holds: when no secondary type is
    spelled [total], the per-type counts of every group add up to the
    group's total. *)
Lemma stackedTotal_eq_total (data : list Pokemon) (d : gmap string JsValue) :
  "total" ∉ map Type_2 data ->
  d ∈ baseSortedCountsArray data ->
  exists q,
    stackedTotal (allSecondaryTypes data) d = Some q
    /\ (q == inject_Z (Z.of_nat (groupTotal d)))%Q.
Proof.
  intros Hfree Hd. apply base_elem_of in Hd as (k & _ & ->).
  set (leaves := leavesOf Type_1 data k).
  destruct (stackedTotal_fold
              (flatten (k, fst (reduceLeaves (allSecondaryTypes data) leaves)))
              (fun key => length (leavesOf Type_2 leaves key))
              (allSecondaryTypes data) 0%Q) as (q & Hq & Eq).
  { intros key Hkey.
    assert (Hne : key <> "total").
    { intros ->. apply Hfree, allSecondaryTypes_elem_of, Hkey. }
    unfold getProp, flatten. cbn [fst snd].
    erewrite lookup_union_Some_l; [reflexivity|].
    rewrite lookup_fmap. unfold leaves.
    rewrite reduceLeaves_counts by assumption. reflexivity. }
  exists q. split; [exact Hq|]. rewrite Eq.
  rewrite (flatten_total _ (length leaves)) by apply reduceLeaves_total.
  rewrite sum_group_sizes.
  - ring.
  - apply allSecondaryTypes_NoDup.
  - intros leaf Hleaf. apply leavesOf_subset in Hleaf as [Hleaf _].
    apply allSecondaryTypes_elem_of, list_elem_of_fmap.
    exists leaf. split; [reflexivity|exact Hleaf].
Qed.

(** *** The unfiltered chart *)

Lemma base_group_nonempty (data : list Pokemon) (d : gmap string JsValue) :
  d ∈ baseSortedCountsArray data ->
  getProp d "total" = JNum (groupTotal d) /\ 1 <= groupTotal d.
Proof.
  intros Hd. apply base_elem_of in Hd as (k & Hk & ->).
  rewrite (flatten_total _ (length (leavesOf Type_1 data k)))
    by apply reduceLeaves_total.
  split.
  - unfold getProp, flatten. cbn [snd].
    rewrite (lookup_union_Some_l _ _ _
               (JNum (length (leavesOf Type_1 data k)))); [reflexivity|].
    rewrite lookup_fmap, reduceLeaves_total. reflexivity.
  - apply list_elem_of_fmap in Hk as (x & -> & Hx).
    assert (Hin : x ∈ leavesOf Type_1 data (Type_1 x)).
    { unfold leavesOf. apply list_elem_of_In, filter_In.
      split; [apply list_elem_of_In, Hx|].
      apply bool_decide_eq_true_2. reflexivity. }
    destruct (leavesOf Type_1 data (Type_1 x)); [|cbn; lia].
    apply elem_of_nil in Hin. destruct Hin.
Qed.

(** With any data at all, the bar view of the whole aggregate draws the
    stacked bars of every group. *)
Lemma barBody_all_groups (data : list Pokemon) (effective : JsValue) :
  data <> [] ->
  barBody (allSecondaryTypes data) (baseSortedCountsArray data) effective
  = StackedBars (baseSortedCountsArray data) (allSecondaryTypes data).
Proof.
  intros Hdata. destruct data as [|x data']; [congruence|]. clear Hdata.
  set (data := x :: data').
  assert (Hsec : Type_2 x ∈ allSecondaryTypes data).
  { apply allSecondaryTypes_elem_of. left. }
  assert (Hbase : exists d, d ∈ baseSortedCountsArray data).
  { unfold StackedBar.baseSortedCountsArray, StackedBar.sortedEntries.
    eexists. apply list_elem_of_fmap. eexists. split; [reflexivity|].
    rewrite Array_sort_Permutation, entries_shape.
    apply list_elem_of_fmap. exists (Type_1 x). split; [reflexivity|].
    apply elem_of_Set_values. left. }
  destruct Hbase as [d Hd]. unfold barBody. rewrite length_map.
  destruct (allSecondaryTypes data) as [|k ks] eqn:Ek;
    [apply elem_of_nil in Hsec; destruct Hsec|].
  destruct (baseSortedCountsArray data) as [|b bs] eqn:Eb;
    [apply elem_of_nil in Hd; destruct Hd|].
  cbn [length Nat.eqb orb]. rewrite <- Eb in *.
  destruct (base_group_nonempty data d Hd) as [Htot Hpos].
  destruct (max_spec (fun d => asNumber (getProp d "total"))
              (baseSortedCountsArray data) d
              (inject_Z (Z.of_nat (groupTotal d))))
    as (m & -> & _ & Hall).
  { apply list_elem_of_In, Hd. }
  { rewrite Htot. reflexivity. }
  assert (Hm : (inject_Z 1 <= m)%Q).
  { apply Qle_trans with (inject_Z (Z.of_nat (groupTotal d))).
    - rewrite <- Zle_Qle. lia.
    - apply (Hall d); [apply list_elem_of_In, Hd|].
      rewrite Htot. reflexivity. }
  destruct (Qle_bool m 0) eqn:E; [|reflexivity].
  apply Qle_bool_iff in E. exfalso.
  apply (Qlt_irrefl 0). eapply Qlt_le_trans; [|eapply Qle_trans; [exact Hm|exact E]].
  reflexivity.
Qed.

End AggregateFacts.

Lemma stackedTotal_eq_total_witness :
  ("total" ∉ map Type_2 sampleData)
  /\ Forall
       (fun d =>
          exists q,
            StackedBar.stackedTotal
              (StackedBar.allSecondaryTypes String_ascending sampleData) d
            = Some q
            /\ (q == inject_Z (Z.of_nat (StackedBar.groupTotal d)))%Q)
       (StackedBar.baseSortedCountsArray String_ascending sampleData).
Proof.
  assert (H : "total" ∉ map Type_2 sampleData).
  { intros H. apply list_elem_of_In in H. vm_compute in H.
    repeat (destruct H as [H|H]; [discriminate H|]). exact H. }
  split; [exact H|]. apply Forall_forall. intros d Hd.
  exact (stackedTotal_eq_total String_ascending sampleData d H Hd).
Defined.

Example scenario_order :
  map (fun d => (getProp d "primaryType", getProp d "total"))
      (StackedBar.baseSortedCountsArray String_ascending scenarioData)
  = [(JStr "A", JNum 5); (JStr "B", JNum 2); (JStr "C", JNum 1)].
Proof. vm_compute. reflexivity. Qed.

Example tied_order :
  map (fun d => (getProp d "primaryType", getProp d "total"))
      (StackedBar.baseSortedCountsArray String_ascending tiedData)
  = [(JStr "B", JNum 2); (JStr "A", JNum 2); (JStr "C", JNum 1)].
Proof. vm_compute. reflexivity. Qed.

Example sample_layers :
  StackedBar.allSecondaryTypes String_ascending sampleData
  = ["None"; "Flying"; "Poison"]
  /\ map (fun d => map (getProp d) ["primaryType"; "None"; "Flying"; "Poison"; "total"])
         (StackedBar.baseSortedCountsArray String_ascending sampleData)
     = [[JStr "Grass"; JNum 1; JNum 0; JNum 2; JNum 3];
        [JStr "Fire"; JNum 1; JNum 1; JNum 0; JNum 2];
        [JStr "Water"; JNum 1; JNum 0; JNum 0; JNum 1]].
Proof. split; vm_compute; reflexivity. Qed.

(** C10.  With a secondary type that is spelled [total], the counter of
    that type and the group total are one property of the group object:
    the assignment [counts.total = leaves.length] overwrites the counter,
    and the layers of the bar then add up to 3 for a group of 2. *)
Theorem stacked_total_exceeds_group_total :
  let base := StackedBar.baseSortedCountsArray String_ascending collidingData in
  let layerKeys := StackedBar.allSecondaryTypes String_ascending collidingData in
  let d := nth 0 base ∅ in
  length base = 1
  /\ layerKeys = ["None"; "total"]
  /\ getProp d "primaryType" = JStr "A"
  /\ getProp d "None" = JNum 1
  /\ getProp d "total" = JNum 2
  /\ StackedBar.groupTotal d = 2
  /\ StackedBar.stackedTotal layerKeys d = Some (3 # 1)%Q
  /\ ~ ((3 # 1) == inject_Z (Z.of_nat (StackedBar.groupTotal d)))%Q.
Proof.
  cbv zeta.
  repeat split; try (vm_compute; reflexivity). vm_compute. discriminate.
Qed.

(** ** Drill-down navigation of the stacked bars *)

Section NavigationFacts.

Import StackedBar.

Variable localeCompare : string -> string -> Z.
Variable data : list Pokemon.

Abbreviation create := (StackedBar.createStackedBarChart localeCompare data).
Abbreviation base := (StackedBar.baseSortedCountsArray localeCompare data).
Abbreviation secTypes := (StackedBar.allSecondaryTypes localeCompare data).
Abbreviation handleEvent := (StackedBar.handle localeCompare data).

Lemma findPrimary_Some (l : list (gmap string JsValue)) (p : JsValue)
    (filteredData : gmap string JsValue) :
  findPrimary l p = Some filteredData ->
  filteredData ∈ l /\ getProp filteredData "primaryType" = p.
Proof.
  unfold findPrimary. intros H. apply find_some in H as [Hin Heq].
  split; [apply list_elem_of_In, Hin|].
  unfold strictEq in Heq. apply bool_decide_eq_true in Heq. exact Heq.
Qed.

Lemma findPrimary_hit (l : list (gmap string JsValue))
    (d : gmap string JsValue) :
  d ∈ l -> is_Some (findPrimary l (getProp d "primaryType")).
Proof.
  intros Hd. unfold findPrimary.
  destruct (List.find _ l) as [fd|] eqn:E; [eexists; reflexivity|].
  apply list_elem_of_In in Hd. apply (find_none _ _ E) in Hd.
  unfold strictEq in Hd. rewrite bool_decide_eq_true_2 in Hd by reflexivity.
  discriminate.
Qed.

Lemma barBody_StackedBars (keys keys' : list string)
    (current current' : list (gmap string JsValue)) (effective : JsValue) :
  barBody keys current effective = StackedBars current' keys' ->
  current' = current /\ keys' = keys.
Proof.
  unfold barBody.
  destruct ((length keys =? 0) || (length current =? 0)
            || (length (map (fun d => getProp d "primaryType") current) =? 0));
    [discriminate|].
  destruct (D3.max current _) as [m|]; [|discriminate].
  destruct (Qle_bool m 0); [discriminate|].
  intros [= <- <-]. split; reflexivity.
Qed.

Lemma navigationState_bars (p s effective effective' : JsValue) (t : Title)
    (l b : bool) (keys : list string)
    (current : list (gmap string JsValue)) (log : list LogEntry) :
  navigationState
    (mkChart p s effective t l b (barBody keys current effective') log)
  = if truthy effective then PrimaryFiltered effective else Overview.
Proof.
  unfold navigationState, barBody.
  cbn [body effectiveFilterPrimaryType].
  destruct ((length keys =? 0) || (length current =? 0)
            || (length (map (fun d => getProp d "primaryType") current) =? 0));
    [reflexivity|].
  destruct (D3.max current _) as [m|]; [|reflexivity].
  destruct (Qle_bool m 0); reflexivity.
Qed.

(** The two branches of [createStackedBarChart]. *)
Lemma create_list_view (p s : JsValue) :
  truthy p = true -> truthy s = true ->
  exists b,
    create p s = mkChart p s p (chartTitle p s) true true b
                         (StackedBar.rollupWarnings localeCompare data)
    /\ (b = NoPokemonFound \/ exists l, b = PokemonList l).
Proof.
  intros Hp Hs. unfold StackedBar.createStackedBarChart.
  rewrite Hp, Hs. cbn [andb]. eexists. split; [reflexivity|].
  destruct (length _ =? 0); [left; reflexivity|right; eexists; reflexivity].
Qed.

Lemma create_bar_view (p s : JsValue) :
  truthy p && truthy s = false ->
  create p s
  = let cel :=
      currentCounts base p (StackedBar.rollupWarnings localeCompare data) in
    mkChart p s (snd (fst cel)) (chartTitle p s) (truthy p) false
            (barBody secTypes (fst (fst cel)) (snd (fst cel))) (snd cel).
Proof.
  intros H. unfold StackedBar.createStackedBarChart. rewrite H. reflexivity.
Qed.

Lemma currentCounts_subset (l : list (gmap string JsValue)) (p : JsValue)
    (log : list LogEntry) (d : gmap string JsValue) :
  d ∈ fst (fst (currentCounts l p log)) -> d ∈ l.
Proof.
  unfold currentCounts. destruct (truthy p); [|intros H; exact H].
  destruct (findPrimary l p) as [fd|] eqn:E; cbn [fst]; [|intros H; exact H].
  intros H. apply list_elem_of_singleton in H as ->.
  apply (findPrimary_Some _ _ _ E).
Qed.

(** Every chart a user can get to was drawn for a primary type that,
    when set, is the label of a group of the aggregate. *)
Lemma reachable_created (c : Chart) :
  reachable localeCompare data c ->
  exists p s,
    c = create p s /\ (truthy p = true -> is_Some (findPrimary base p)).
Proof.
  induction 1 as [|c ev Hc (p & s & -> & Hfound)].
  - exists JNull, JNull. split; [reflexivity|]. discriminate.
  - unfold StackedBar.handle.
    destruct (dispatch (create p s) ev) as [[p' s']|] eqn:Hd;
      [|exists p, s; split; [reflexivity|exact Hfound]].
    exists p', s'. split; [reflexivity|]. intros Hp'.
    destruct ev as [key d| |]; cbn [dispatch] in Hd.
    + destruct (hasRect (create p s) key d) eqn:Hrect; [|discriminate].
      assert (Hp : p' = getProp d "primaryType").
      { unfold rectClick in Hd.
        destruct (negb (truthy (effectiveFilterPrimaryType (create p s))));
          [congruence|].
        destruct (strictEq _ _ && negb _); congruence. }
      subst p'. apply findPrimary_hit.
      unfold hasRect in Hrect.
      destruct (truthy p && truthy s) eqn:Hps.
      * apply andb_true_iff in Hps as [Hp Hs].
        destruct (create_list_view p s Hp Hs) as (b & Hb & Hcase).
        rewrite Hb in Hrect. cbn [body] in Hrect.
        destruct Hcase as [->|[l ->]]; discriminate.
      * rewrite (create_bar_view p s Hps) in Hrect. cbn [body] in Hrect.
        destruct (barBody _ _ _) as [| | | |cur keys] eqn:Hbody;
          try discriminate.
        apply barBody_StackedBars in Hbody as [-> ->].
        apply andb_true_iff in Hrect as [Hin _].
        apply bool_decide_eq_true in Hin.
        apply (currentCounts_subset _ _ _ _ Hin).
    + destruct (showAllLink (create p s)); [|discriminate].
      injection Hd as <- <-. discriminate.
    + destruct (backToPrimaryLink (create p s)) eqn:Hback; [|discriminate].
      injection Hd as <- <-.
      destruct (truthy p && truthy s) eqn:Hps.
      * apply andb_true_iff in Hps as [Hp Hs].
        destruct (create_list_view p s Hp Hs) as (b & Hb & _).
        rewrite Hb. cbn [activeFilterPrimaryType]. apply Hfound, Hp.
      * rewrite (create_bar_view p s Hps) in Hback. discriminate.
Qed.



End NavigationFacts.





(** ** Selection in the parallel coordinates plot *)

Section SelectionFacts.

Import ParallelCoordinates.

Variable data : list Pokemon.
Variable clientWidth clientHeight : Z.

Abbreviation allValid := (ParallelCoordinates.allValidPokemonData data).
Abbreviation workingSet := (ParallelCoordinates.dataToPlot data).
Abbreviation handleEvent :=
  (ParallelCoordinates.handle data clientWidth clientHeight).
Abbreviation setActive :=
  (ParallelCoordinates.setChecked data clientWidth clientHeight).

Lemma elem_of_List_filter {A : Type} (f : A -> bool) (l : list A) (x : A) :
  x ∈ List.filter f l <-> x ∈ l /\ f x = true.
Proof. rewrite !list_elem_of_In. apply filter_In. Qed.

Lemma workingSet_valid (st : State) (d : Pokemon) :
  d ∈ workingSet st -> d ∈ allValid.
Proof.
  unfold ParallelCoordinates.dataToPlot. rewrite elem_of_List_filter. tauto.
Qed.


Lemma find_by_name (l : list Pokemon) (name : string) :
  match List.find (fun p => String.eqb (Name p) name) l with
  | Some p => p ∈ l /\ Name p = name
  | None => forall p, p ∈ l -> Name p <> name
  end.
Proof.
  destruct (List.find _ l) as [p|] eqn:E.
  - apply find_some in E as [Hin Hn]. split; [apply list_elem_of_In, Hin|].
    apply String.eqb_eq, Hn.
  - intros p Hp Hn. apply list_elem_of_In in Hp.
    apply (find_none _ _ E) in Hp. apply String.eqb_neq in Hp. contradiction.
Qed.

Hypothesis unique_names : NoDup (map Name allValid).

Lemma same_name_same_pokemon (a b : Pokemon) :
  a ∈ allValid -> b ∈ allValid -> Name a = Name b -> a = b.
Proof.
  intros Ha Hb Hn. revert unique_names Ha Hb.
  induction allValid as [|x l IH]; intros Hnd Ha Hb.
  - apply elem_of_nil in Ha. destruct Ha.
  - cbn [map] in Hnd. apply NoDup_cons in Hnd as [Hx Hnd].
    apply elem_of_cons in Ha as [->|Ha]; apply elem_of_cons in Hb as [->|Hb].
    + reflexivity.
    + exfalso. apply Hx. rewrite Hn. apply list_elem_of_fmap.
      exists b. split; [reflexivity|exact Hb].
    + exfalso. apply Hx. rewrite <- Hn. apply list_elem_of_fmap.
      exists a. split; [reflexivity|exact Ha].
    + apply IH; assumption.
Qed.

Lemma drawPcpChart_fields (plotData : list Pokemon) (st : State) :
  let st' := drawPcpChart clientWidth clientHeight plotData st in
  selectedPokemon st' = selectedPokemon st
  /\ checkedTypes st' = checkedTypes st
  /\ (pokemonPaths st' = [] \/ pokemonPaths st' = plotData).
Proof.
  unfold drawPcpChart.
  destruct ((clientWidth - 20 - 20 <=? 0)%Z || (clientHeight - 0 - 100 <=? 50)%Z);
    [|destruct (length plotData =? 0)]; cbn; auto.
Qed.

Lemma updatePlot_selected (st : State) :
  selectedPokemon (updatePlot data clientWidth clientHeight st)
  = match selectedPokemon st with
    | Some sel =>
        match List.find (fun p => String.eqb (Name p) (Name sel))
                        (workingSet st) with
        | Some _ => Some sel
        | None => None
        end
    | None => None
    end.
Proof.
  unfold updatePlot.
  match goal with
  | |- selectedPokemon (drawPcpChart _ _ ?pd ?s) = _ =>
      destruct (drawPcpChart_fields pd s) as (Hs & _ & _)
  end.
  cbv zeta in Hs. rewrite Hs.
  destruct (selectedPokemon st) as [sel|] eqn:E; [|exact E].
  destruct (List.find _ _); [exact E|reflexivity].
Qed.

Lemma updatePlot_checked (st : State) :
  checkedTypes (updatePlot data clientWidth clientHeight st) = checkedTypes st.
Proof.
  unfold updatePlot.
  match goal with
  | |- checkedTypes (drawPcpChart _ _ ?pd ?s) = _ =>
      destruct (drawPcpChart_fields pd s) as (_ & Hc & _)
  end.
  cbv zeta in Hc. rewrite Hc.
  destruct (selectedPokemon st) as [sel|]; [|reflexivity].
  destruct (List.find _ _); reflexivity.
Qed.

Lemma updatePlot_consistent (st : State) :
  (forall sel, selectedPokemon st = Some sel -> sel ∈ allValid) ->
  consistent data (updatePlot data clientWidth clientHeight st).
Proof.
  intros Hsel. unfold updatePlot.
  set (st1 := match selectedPokemon st with
              | Some sel => _
              | None => st
              end).
  assert (Hchk : checkedTypes st1 = checkedTypes st).
  { unfold st1. destruct (selectedPokemon st) as [sel|]; [|reflexivity].
    destruct (List.find _ _); reflexivity. }
  assert (Hws : forall st', checkedTypes st' = checkedTypes st ->
                            workingSet st' = workingSet st).
  { intros st' E. unfold ParallelCoordinates.dataToPlot,
      ParallelCoordinates.selectedTypesArray. rewrite E. reflexivity. }
  destruct (drawPcpChart_fields (workingSet st) st1) as (Hs & Hc & Hp).
  cbv zeta in Hs, Hc, Hp.
  set (st2 := drawPcpChart clientWidth clientHeight (workingSet st) st1) in *.
  assert (Hws2 : workingSet st2 = workingSet st).
  { apply Hws. rewrite Hc. exact Hchk. }
  split.
  - intros d Hd. rewrite Hws2.
    destruct Hp as [Hp|Hp]; rewrite Hp in Hd; [|exact Hd].
    apply elem_of_nil in Hd. destruct Hd.
  - intros sel Hsel2. rewrite Hws2. rewrite Hs in Hsel2. unfold st1 in Hsel2.
    destruct (selectedPokemon st) as [sel0|] eqn:E0; [|congruence].
    pose proof (find_by_name (workingSet st) (Name sel0)) as Hfind.
    destruct (List.find _ (workingSet st)) as [p|]; [|discriminate].
    rewrite E0 in Hsel2. injection Hsel2 as <-.
    destruct Hfind as [Hp' Hn].
    rewrite <- (same_name_same_pokemon p sel0); [exact Hp'| |auto|exact Hn].
    apply (workingSet_valid st), Hp'.
Qed.

Lemma setChecked_consistent (S : gset string) (st : State) :
  consistent data st -> consistent data (setActive S st).
Proof.
  intros [_ Hsel]. unfold setChecked. apply updatePlot_consistent.
  cbn [selectedPokemon]. intros sel E.
  apply (workingSet_valid st), Hsel, E.
Qed.

Lemma handle_consistent (ev : Event) (st : State) :
  consistent data st -> consistent data (handleEvent ev st).
Proof.
  intros Hst. destruct ev as [type| | |name|]; cbn [handle].
  - destruct (bool_decide _); [|exact Hst].
    apply setChecked_consistent, Hst.
  - apply setChecked_consistent, Hst.
  - apply setChecked_consistent, Hst.
  - pose proof (find_by_name (pokemonPaths st) name) as Hfind.
    destruct (List.find _ (pokemonPaths st)) as [d|]; [|exact Hst].
    destruct Hst as [Hpaths Hsel], Hfind as [Hd _].
    split; cbn [pathClick pokemonPaths selectedPokemon].
    + exact Hpaths.
    + intros sel [= <-]. apply Hpaths, Hd.
  - destruct (infoShown st); [|exact Hst].
    destruct Hst as [Hpaths _]. split; [exact Hpaths|].
    cbn [closeClick selectedPokemon]. discriminate.
Qed.

Lemma reachable_consistent (st : State) :
  reachable data clientWidth clientHeight st -> consistent data st.
Proof.
  induction 1 as [|ev st _ IH].
  - unfold initialState. apply updatePlot_consistent.
    cbn [selectedPokemon]. discriminate.
  - apply handle_consistent, IH.
Qed.


End SelectionFacts.

Example selection_cleared_with_its_type :
  let handleEvent := ParallelCoordinates.handle sampleData 800 600 in
  let st :=
    handleEvent (ParallelCoordinates.PathClick "Charmander")
      (ParallelCoordinates.initialState sampleData 800 600) in
  Name <$> ParallelCoordinates.selectedPokemon st = Some "Charmander"
  /\ ParallelCoordinates.selectedPokemon
       (handleEvent (ParallelCoordinates.CheckboxChange "Fire") st) = None
  /\ Name <$> ParallelCoordinates.selectedPokemon
                (handleEvent (ParallelCoordinates.CheckboxChange "Water") st)
     = Some "Charmander"
  /\ handleEvent (ParallelCoordinates.PathClick "Charmander")
       (handleEvent ParallelCoordinates.DeselectAllClick st)
     = handleEvent ParallelCoordinates.DeselectAllClick st.
Proof. cbv zeta. repeat split; vm_compute; reflexivity. Qed.


(* ================================================================== *)
(** * Part III: further properties of the charts                       *)
(* ================================================================== *)

(** ** The kernel and the density *)

Section KernelFacts.

Local Open Scope Q_scope.

Lemma Qabs_scaled_le (v : Q) : Qabs (v / 20) <= 1 <-> Qabs v <= 20.
Proof.
  rewrite !Qabs_Qle_condition. unfold Qdiv. change (/ 20) with (1 # 20).
  split; intros [H1 H2]; split; lra.
Qed.

Lemma Qabs_lt_condition (x y : Q) : Qabs x < y <-> - y < x < y.
Proof.
  split.
  - intros H. split.
    + pose proof (Qle_Qabs (- x)) as H'. rewrite Qabs_opp in H'. lra.
    + pose proof (Qle_Qabs x). lra.
  - intros [H1 H2]. apply Qabs_case; intros; lra.
Qed.

Lemma kernelEpanechnikov_20_pos_iff (v : Q) :
  0 < kernelEpanechnikov 20 v <-> Qabs v < 20.
Proof.
  unfold kernelEpanechnikov.
  destruct (Qle_bool (Qabs (v / 20)) 1) eqn:E.
  - apply Qle_bool_iff, Qabs_scaled_le, Qabs_Qle_condition in E.
    rewrite Qabs_lt_condition.
    unfold Qdiv. change (/ 20) with (1 # 20).
    split.
    + intros H. split; nra.
    + intros [H1 H2]. nra.
  - assert (H : ~ Qabs v <= 20).
    { intros H. apply Qabs_scaled_le, Qle_bool_iff in H. congruence. }
    split; [intros H0; lra|]. intros H0. exfalso. apply H. lra.
Qed.

Lemma kernelEpanechnikov_even (k v : Q) :
  kernelEpanechnikov k (- v) == kernelEpanechnikov k v.
Proof.
  unfold kernelEpanechnikov.
  assert (E : Qabs (- v / k) == Qabs (v / k)).
  { rewrite <- (Qabs_opp (v / k)). apply Qabs_wd. unfold Qdiv. ring. }
  rewrite (Qleb_comp _ _ E 1 1 (Qeq_refl 1)).
  destruct (Qle_bool (Qabs (v / k)) 1); [|reflexivity].
  unfold Qdiv. ring.
Qed.

Lemma sum_loop_pos {A : Type} (f : A -> Q) (V : list A) (s : Q) :
  (forall v, 0 <= f v) -> 0 <= s ->
  (0 < fold_left (fun a v => a + f v) V s
   <-> 0 < s \/ exists v, In v V /\ 0 < f v).
Proof.
  intros Hf. revert s. induction V as [|x V IH]; intros s Hs; cbn [fold_left].
  - split; [auto|]. intros [H|(v & [] & _)]. exact H.
  - pose proof (Hf x) as Hx. rewrite IH by lra. split.
    + intros [H|(v & Hv & Hpos)].
      * destruct (Qlt_le_dec 0 s) as [Hs'|Hs']; [auto|].
        right. exists x. split; [left; reflexivity|lra].
      * right. exists v. split; [right; exact Hv|exact Hpos].
    + intros [H|(v & [<-|Hv] & Hpos)].
      * left. lra.
      * left. lra.
      * right. exists v. split; assumption.
Qed.

Lemma mean_pos_iff {A : Type} (f : A -> Q) (V : list A) :
  V <> [] -> (forall v, 0 <= f v) ->
  exists m, D3.mean V (fun v => Some (f v)) = Some m
            /\ (0 < m <-> exists v, In v V /\ 0 < f v).
Proof.
  intros HV Hf. unfold D3.mean. rewrite mean_loop. cbn [fst snd].
  destruct V as [|x V]; [congruence|]. clear HV.
  cbn [length Nat.add]. eexists. split; [reflexivity|].
  set (n := inject_Z (Z.of_nat (S (length V)))).
  assert (Hn : 0 < n).
  { unfold n. change 0 with (inject_Z 0). rewrite <- Zlt_Qlt. lia. }
  pose proof (sum_loop_pos f (x :: V) 0 Hf (Qle_refl 0)) as Hsum.
  set (total := fold_left (fun a v => a + f v) (x :: V) 0) in *.
  split.
  - intros H.
    assert (Ht : 0 < total).
    { destruct (Qlt_le_dec 0 total) as [Hp|Hp]; [exact Hp|].
      exfalso. apply (Qlt_irrefl 0). eapply Qlt_le_trans; [exact H|].
      apply Qle_shift_div_r; [exact Hn|]. lra. }
    apply Hsum in Ht as [Ht|Ht]; [|exact Ht].
    exfalso. exact (Qlt_irrefl 0 Ht).
  - intros H. apply Qlt_shift_div_l; [exact Hn|].
    assert (Ht : 0 < total) by (apply Hsum; right; exact H). lra.
Qed.

(** The density at a grid point is positive exactly when an observation
    lies less than the bandwidth away. *)
Lemma kde_value_pos_iff (ticks V : list Q) (x : Q) :
  V <> [] ->
  exists y,
    D3.mean V (fun v => Some (kernelEpanechnikov 20 (x - v))) = Some y
    /\ 0 <= y
    /\ (0 < y <-> exists v, In v V /\ Qabs (x - v) < 20).
Proof.
  intros HV.
  destruct (mean_pos_iff (fun v => kernelEpanechnikov 20 (x - v)) V HV)
    as (y & Hy & Hpos).
  { intros v. apply kernelEpanechnikov_nonneg. reflexivity. }
  exists y. split; [exact Hy|]. split.
  - destruct (mean_bounds (fun v => kernelEpanechnikov 20 (x - v)) 0 (3 # 80) V HV)
      as (y' & Hy' & Hlo & _).
    { intros v. split; [apply kernelEpanechnikov_nonneg; reflexivity
                       |apply kernelEpanechnikov_20_le]. }
    congruence.
  - rewrite Hpos. split; intros (v & Hv & H); exists v; (split; [exact Hv|]);
      apply kernelEpanechnikov_20_pos_iff; exact H.
Qed.

End KernelFacts.

(** X1.  The kernel with bandwidth 20 takes values between 0 and
    0.75 / 20, is positive exactly on the arguments of absolute value
    below 20, and is an even function. *)
Theorem kernel_support_is_bandwidth (v : Q) :
  (0 <= kernelEpanechnikov 20 v <= 3 # 80)%Q
  /\ ((0 < kernelEpanechnikov 20 v)%Q <-> (Qabs v < 20)%Q)
  /\ (kernelEpanechnikov 20 (- v) == kernelEpanechnikov 20 v)%Q.
Proof.
  split; [split|split].
  - apply kernelEpanechnikov_nonneg. reflexivity.
  - apply kernelEpanechnikov_20_le.
  - apply kernelEpanechnikov_20_pos_iff.
  - apply kernelEpanechnikov_even.
Qed.

(** X2.  For a non-empty sample, the density that [kde] computes at a
    grid point is positive exactly when some observation lies less than
    20 away from that point. *)
Theorem density_positive_near_observations (ticks V : list Q) :
  V <> [] ->
  Forall
    (fun p =>
       exists y,
         snd p = Some y
         /\ ((0 < y)%Q <-> exists v, In v V /\ (Qabs (fst p - v) < 20)%Q))
    (kde ticks V).
Proof.
  intros HV. unfold kde, kernelDensityEstimator.
  apply List.Forall_forall. intros p Hp. apply in_map_iff in Hp.
  destruct Hp as (x & <- & _). cbn [fst snd].
  destruct (kde_value_pos_iff ticks V x HV) as (y & Hy & _ & Hpos).
  exists y. split; [exact Hy|exact Hpos].
Qed.

Lemma density_positive_near_observations_witness :
  ([300; 340]%Q <> [])
  /\ Forall
       (fun p =>
          exists y,
            snd p = Some y
            /\ ((0 < y)%Q
                <-> exists v, In v [300; 340]%Q /\ (Qabs (fst p - v) < 20)%Q))
       (kde [290; 320; 330]%Q [300; 340]%Q).
Proof.
  assert (H : [300; 340]%Q <> []) by discriminate.
  split; [exact H|].
  exact (density_positive_near_observations [290; 320; 330]%Q [300; 340]%Q H).
Defined.

Lemma kde_max_pos_iff (ticks V : list Q) :
  V <> [] ->
  match D3.max (kde ticks V) snd with
  | Some m =>
      ((0 < m)%Q
       <-> exists x v, In x ticks /\ In v V /\ (Qabs (x - v) < 20)%Q)
      /\ (forall x y, In (x, Some y) (kde ticks V) -> (y <= m)%Q)
  | None => ticks = []
  end.
Proof.
  intros HV.
  assert (Hentry : forall p, In p (kde ticks V) ->
            In (fst p) ticks
            /\ exists y, snd p = Some y /\ (0 <= y)%Q
                 /\ ((0 < y)%Q
                     <-> exists v, In v V /\ (Qabs (fst p - v) < 20)%Q)).
  { intros p Hp. unfold kde, kernelDensityEstimator in Hp.
    apply in_map_iff in Hp. destruct Hp as (x & <- & Hx). cbn [fst snd].
    split; [exact Hx|]. apply (kde_value_pos_iff ticks V x HV). }
  pose proof (max_loop snd (kde ticks V) None) as H. unfold D3.max.
  destruct (fold_left (D3.max_step snd) (kde ticks V) None) as [m|].
  - destruct H as ([[=]|(p & Hp & Hpm)] & _ & Hall).
    split.
    + split.
      * intros Hm. destruct (Hentry p Hp) as (Hx & y & Hy & _ & Hpos).
        rewrite Hpm in Hy. injection Hy as <-.
        apply Hpos in Hm as (v & Hv & Hnear).
        exists (fst p), v. repeat split; assumption.
      * intros (x & v & Hx & Hv & Hnear).
        assert (Hin : In (x, D3.mean V
                  (fun v => Some (kernelEpanechnikov 20 (x - v)%Q)))
                  (kde ticks V)).
        { unfold kde, kernelDensityEstimator. apply in_map_iff.
          exists x. split; [reflexivity|exact Hx]. }
        destruct (Hentry _ Hin) as (_ & y & Hy & _ & Hpos).
        cbn [fst snd] in Hy, Hpos.
        assert (Hy0 : (0 < y)%Q) by (apply Hpos; exists v; split; assumption).
        eapply Qlt_le_trans; [exact Hy0|]. apply (Hall _ _ Hin Hy).
    + intros x y Hxy. apply (Hall _ _ Hxy eq_refl).
  - destruct H as (_ & Hnone).
    destruct ticks as [|x ticks']; [reflexivity|]. exfalso.
    assert (Hin : In (x, D3.mean V
              (fun v => Some (kernelEpanechnikov 20 (x - v)%Q)))
              (kde (x :: ticks') V)) by (left; reflexivity).
    destruct (Hentry _ Hin) as (_ & y & Hy & _).
    rewrite (Hnone _ Hin) in Hy. discriminate.
Qed.

(** X3.  The static plot draws the ridge of a generation exactly when the
    generation has at least two valid totals and some tick of the x axis
    lies less than 20 away from one of them; what it draws is then the
    density of these totals. *)
Theorem ridge_drawn_iff (ticks : list Q) (d : GenerationData)
    (density : list (Q * option Q)) :
  RidgelineStatic.drawRidge ticks d = Some density
  <-> (2 <= length (validTotals (values d)))%nat
      /\ density = kde ticks (validTotals (values d))
      /\ exists x v,
           In x ticks /\ In v (validTotals (values d))
           /\ (Qabs (x - v) < 20)%Q.
Proof.
  unfold RidgelineStatic.drawRidge.
  set (V := validTotals (values d)).
  destruct (Nat.ltb_spec (length V) 2) as [Hlt|Hge].
  - split; [discriminate|]. intros [H _]. lia.
  - assert (HV : V <> []) by (intros E; rewrite E in Hge; simpl in Hge; lia).
    pose proof (kde_max_pos_iff ticks V HV) as Hmax.
    destruct (D3.max (kde ticks V) snd) as [m|].
    + destruct Hmax as [Hpos _].
      destruct (Qle_bool m 0) eqn:E.
      * apply Qle_bool_iff in E. split; [discriminate|].
        intros (_ & _ & Hnear). apply Hpos in Hnear. exfalso.
        exact (Qlt_irrefl 0 (Qlt_le_trans _ _ _ Hnear E)).
      * assert (Hm : (0 < m)%Q).
        { destruct (Qlt_le_dec 0 m) as [H|H]; [exact H|].
          apply Qle_bool_iff in H. congruence. }
        split.
        -- intros [= <-]. split; [exact Hge|]. split; [reflexivity|].
           apply Hpos, Hm.
        -- intros (_ & -> & _). reflexivity.
    + subst ticks. split; [discriminate|].
      intros (_ & _ & x & v & [] & _).
Qed.

(** X4.  The y domain that [updateToGeneration] sets is never degenerate
    and covers the curve: its upper end is positive and no density value
    of the displayed curve exceeds it.  The same holds for the domain the
    click handler of the static plot sets. *)
Theorem y_domain_covers_curve (ticks : list Q) (i : Z)
    (generationData : GenerationData) :
  let shown := Ridgeline.render ticks i generationData in
  let zoom := RidgelineStatic.ridgeClick ticks generationData in
  (0 < Ridgeline.yDomainMax shown)%Q
  /\ (forall x y, In (x, Some y) (Ridgeline.density shown) ->
                  (y <= Ridgeline.yDomainMax shown)%Q)
  /\ (0 < RidgelineStatic.maxDensityForDomain zoom)%Q
  /\ (forall x y, In (x, Some y) (RidgelineStatic.density zoom) ->
                  (y <= RidgelineStatic.maxDensityForDomain zoom)%Q).
Proof.
  unfold Ridgeline.render, RidgelineStatic.ridgeClick.
  cbn [Ridgeline.yDomainMax Ridgeline.density
       RidgelineStatic.maxDensityForDomain RidgelineStatic.density].
  set (density := densityOf ticks (validTotals (values generationData))).
  pose proof (max_loop snd density None) as H. unfold D3.max.
  destruct (fold_left (D3.max_step snd) density None) as [m|].
  - destruct H as (_ & _ & Hall). unfold Qlt_bool.
    destruct (Qle_bool m 0) eqn:E; cbn [negb].
    + apply Qle_bool_iff in E.
      repeat split; try reflexivity;
        intros x y Hxy; specialize (Hall _ _ Hxy eq_refl);
        eapply Qle_trans; [exact Hall| |exact Hall|];
        (eapply Qle_trans; [exact E|discriminate]).
    + assert (Hm : (0 < m)%Q).
      { destruct (Qlt_le_dec 0 m) as [H|H]; [exact H|].
        apply Qle_bool_iff in H. congruence. }
      repeat split; try exact Hm; intros x y Hxy; apply (Hall _ _ Hxy eq_refl).
  - destruct H as (_ & Hnone).
    repeat split; try reflexivity;
      intros x y Hxy; specialize (Hnone _ Hxy); discriminate.
Qed.

(** ** The animation controller as a state machine *)

Section ControllerFacts.

Import Ridgeline RidgelineEvents.

Variable ticks : list Q.
Variable dataByGenArray : list GenerationData.

(** [createRidgelinePlot] returns before it creates the controls when
    [dataByGenArray] is empty. *)
Hypothesis some_generation : 1 <= length dataByGenArray.

Abbreviation len := (Z.of_nat (length dataByGenArray)).
Abbreviation handleEvent := (RidgelineEvents.handle ticks dataByGenArray).
Abbreviation wf := (RidgelineEvents.wellFormed ticks dataByGenArray).

Ltac fields :=
  cbn [currentAnimationGenerationIndex isPlaying animationTimer sliderValue
       playButtonText display] in *.

Lemma sliderMax_eq : sliderMax dataByGenArray = (len - 1)%Z.
Proof.
  unfold sliderMax. destruct (Nat.ltb_spec 0 (length dataByGenArray)); [reflexivity|lia].
Qed.

Lemma updateToGeneration_in_range (i : Z) (st : AnimationState) :
  (0 <= i < len)%Z ->
  exists generationData,
    nth_error dataByGenArray (Z.to_nat i) = Some generationData
    /\ updateToGeneration ticks dataByGenArray i st
       = mkAnimationState
           (currentAnimationGenerationIndex st) (isPlaying st)
           (animationTimer st) (sliderValue st) (playButtonText st)
           (Some (render ticks i generationData)).
Proof.
  intros Hi. unfold updateToGeneration.
  destruct (Z.ltb_spec i 0) as [H|_]; [lia|].
  destruct (Z.leb_spec len i) as [H|_]; [lia|]. cbn [orb].
  destruct (nth_error dataByGenArray (Z.to_nat i)) as [gd|] eqn:E.
  - exists gd. split; reflexivity.
  - apply nth_error_None in E. lia.
Qed.

Lemma initialState_wf : wf (initialState ticks dataByGenArray).
Proof.
  unfold initialState.
  destruct (updateToGeneration_in_range 0
              (mkAnimationState 0 false false 0 PlayAnimation None))
    as (gd & Hgd & ->); [lia|].
  unfold wellFormed, shows. fields.
  repeat split; try discriminate; try lia; auto.
  exists gd. split; [exact Hgd|reflexivity].
Qed.

Lemma pauseAnimation_wf (st : AnimationState) :
  wf st -> wf (pauseAnimation dataByGenArray st).
Proof.
  intros (_ & _ & Hs & Hi & _ & Hshow).
  unfold wellFormed, shows, pauseAnimation in *. fields.
  repeat split; try discriminate; try lia; try assumption.
  destruct (_ && _); discriminate.
Qed.

Lemma runAnimationStep_wf (st : AnimationState) :
  wf st -> isPlaying st = true ->
  wf (runAnimationStep ticks dataByGenArray st).
Proof.
  intros Hwf Hplay. unfold runAnimationStep.
  destruct (Z.leb_spec len (currentAnimationGenerationIndex st)) as [Hend|Hmid];
    [apply pauseAnimation_wf, Hwf|].
  destruct Hwf as (Ht & Htext & Hs & _ & Hi & _). specialize (Hi Hplay).
  set (i := currentAnimationGenerationIndex st) in *.
  destruct (updateToGeneration_in_range i
              (mkAnimationState i (isPlaying st) (animationTimer st) i
                                (playButtonText st) (display st)))
    as (gd & Hgd & ->); [lia|].
  unfold wellFormed, shows. fields.
  repeat split; try assumption; try lia; try apply Htext; auto.
  exists gd. split; [exact Hgd|reflexivity].
Qed.

Lemma playAnimation_state (st : AnimationState) :
  wf st -> isPlaying st = false ->
  exists generationData,
    nth_error dataByGenArray (Z.to_nat (sliderValue st)) = Some generationData
    /\ playAnimation ticks dataByGenArray st
       = mkAnimationState (sliderValue st + 1) true true (sliderValue st) Pause
           (Some (render ticks (sliderValue st) generationData)).
Proof.
  intros (_ & _ & Hs & _ & _ & _) Hplay. unfold playAnimation.
  destruct (Nat.eqb_spec (length dataByGenArray) 0) as [E|_]; [lia|].
  set (i1 := if negb (currentAnimationGenerationIndex st =? sliderValue st)%Z
             then sliderValue st else currentAnimationGenerationIndex st).
  assert (Hi1 : i1 = sliderValue st).
  { unfold i1.
    destruct (Z.eqb_spec (currentAnimationGenerationIndex st) (sliderValue st));
      cbn [negb]; congruence. }
  rewrite Hi1.
  destruct (Z.leb_spec len (sliderValue st)) as [H|_]; [lia|].
  unfold runAnimationStep. fields.
  destruct (Z.leb_spec len (sliderValue st)) as [H|_]; [lia|].
  destruct (updateToGeneration_in_range (sliderValue st)
              (mkAnimationState (sliderValue st) true (animationTimer st)
                                (sliderValue st) Pause (display st)))
    as (gd & Hgd & ->); [lia|].
  fields. exists gd. split; [exact Hgd|reflexivity].
Qed.

Lemma playButtonClick_wf (st : AnimationState) :
  wf st -> wf (playButtonClick ticks dataByGenArray st).
Proof.
  intros Hwf. unfold playButtonClick.
  destruct (isPlaying st) eqn:Hplay; [apply pauseAnimation_wf, Hwf|].
  destruct (playAnimation_state st Hwf Hplay) as (gd & Hgd & ->).
  destruct Hwf as (_ & _ & Hs & _).
  unfold wellFormed, shows. fields.
  repeat split; try lia; auto.
  exists gd. split; [exact Hgd|reflexivity].
Qed.

Lemma sliderInput_wf (value : Z) (st : AnimationState) :
  (0 <= value <= sliderMax dataByGenArray)%Z ->
  wf st -> wf (sliderInput ticks dataByGenArray value st).
Proof.
  rewrite sliderMax_eq. intros Hv Hwf. unfold sliderInput.
  set (st1 := if isPlaying st then pauseAnimation dataByGenArray st else st).
  assert (Hwf1 : wf st1).
  { unfold st1. destruct (isPlaying st); [apply pauseAnimation_wf|]; exact Hwf. }
  assert (Hplay1 : isPlaying st1 = false).
  { unfold st1. destruct (isPlaying st) eqn:E; [reflexivity|exact E]. }
  destruct (updateToGeneration_in_range value
              (mkAnimationState value (isPlaying st1) (animationTimer st1) value
                                (playButtonText st1) (display st1)))
    as (gd & Hgd & ->); [lia|].
  destruct Hwf1 as (Ht & Htext & _).
  unfold wellFormed, shows. fields.
  repeat split; try assumption; try lia; try apply Htext; auto.
  - rewrite Hplay1. discriminate.
  - exists gd. split; [exact Hgd|reflexivity].
Qed.

Lemma tick_wf (st : AnimationState) : wf st -> wf (handleEvent Tick st).
Proof.
  intros Hwf. cbn [handle].
  destruct (animationTimer st) eqn:Ht; [|exact Hwf].
  apply runAnimationStep_wf; [exact Hwf|].
  destruct Hwf as (E & _). congruence.
Qed.

Lemma reachable_wf (st : AnimationState) :
  reachable ticks dataByGenArray st -> wf st.
Proof.
  induction 1 as [|value st Hv _ IH|st _ IH|st _ IH].
  - apply initialState_wf.
  - apply sliderInput_wf; assumption.
  - apply playButtonClick_wf, IH.
  - apply tick_wf, IH.
Qed.

Lemma afterTicks_succ (n : nat) (st : AnimationState) :
  afterTicks ticks dataByGenArray (S n) st
  = handleEvent Tick (afterTicks ticks dataByGenArray n st).
Proof. reflexivity. Qed.

(** A playing animation advances by one generation per tick. *)
Lemma afterTicks_playing (st : AnimationState) (j : nat) :
  wf st -> isPlaying st = true ->
  (Z.of_nat j <= len - currentAnimationGenerationIndex st)%Z ->
  let sj := afterTicks ticks dataByGenArray j st in
  wf sj /\ isPlaying sj = true
  /\ currentAnimationGenerationIndex sj
     = (currentAnimationGenerationIndex st + Z.of_nat j)%Z.
Proof.
  intros Hwf Hplay. induction j as [|j IH]; intros Hj.
  - cbn. split; [exact Hwf|]. split; [exact Hplay|lia].
  - destruct IH as (Hwfj & Hplayj & Hidx); [lia|].
    cbv zeta. rewrite afterTicks_succ.
    set (sj := afterTicks ticks dataByGenArray j st) in *.
    split; [apply tick_wf, Hwfj|].
    cbn [handle].
    assert (Ht : animationTimer sj = true).
    { destruct Hwfj as (E & _). congruence. }
    rewrite Ht. unfold runAnimationStep.
    destruct (Z.leb_spec len (currentAnimationGenerationIndex sj)) as [H|_];
      [lia|].
    destruct Hwfj as (_ & _ & Hs & _ & Hi & _). specialize (Hi Hplayj).
    destruct (updateToGeneration_in_range (currentAnimationGenerationIndex sj)
                (mkAnimationState (currentAnimationGenerationIndex sj)
                   (isPlaying sj) (animationTimer sj)
                   (currentAnimationGenerationIndex sj)
                   (playButtonText sj) (display sj)))
      as (gd & Hgd & ->); [lia|].
    fields. split; [exact Hplayj|lia].
Qed.

(** X5.  In every state the animated plot can get to: the animation is
    playing exactly when its timer runs and exactly when the button reads
    Pause; the slider value is a valid index; the plot shows the
    generation the slider points at; and the index of the next step is
    the slider value or one more, one more whenever the animation is
    playing. *)
Theorem controller_invariant (st : AnimationState) :
  reachable ticks dataByGenArray st ->
  isPlaying st = animationTimer st
  /\ (playButtonText st = Pause <-> isPlaying st = true)
  /\ (0 <= sliderValue st < len)%Z
  /\ (currentAnimationGenerationIndex st = sliderValue st
      \/ currentAnimationGenerationIndex st = (sliderValue st + 1)%Z)
  /\ (isPlaying st = true ->
      currentAnimationGenerationIndex st = (sliderValue st + 1)%Z)
  /\ shows ticks dataByGenArray st (sliderValue st).
Proof. intros H. exact (reachable_wf st H). Qed.

(** X6.  A click on the button while the animation is not playing starts
    it at the generation the slider points at: that generation is drawn,
    the slider stays, the next step is the one after it.  The branch
    that rewinds to the first generation is never taken, also not after
    the animation has run to its end. *)
Theorem play_resumes_at_slider (st : AnimationState) :
  reachable ticks dataByGenArray st ->
  isPlaying st = false ->
  let st' := handleEvent PlayButtonClick st in
  isPlaying st' = true
  /\ animationTimer st' = true
  /\ playButtonText st' = Pause
  /\ sliderValue st' = sliderValue st
  /\ currentAnimationGenerationIndex st' = (sliderValue st + 1)%Z
  /\ shows ticks dataByGenArray st' (sliderValue st).
Proof.
  intros Hreach Hplay. cbn [handle]. unfold playButtonClick. rewrite Hplay.
  destruct (playAnimation_state st (reachable_wf st Hreach) Hplay)
    as (gd & Hgd & ->).
  unfold shows. fields. repeat split.
  exists gd. split; [exact Hgd|reflexivity].
Qed.

(** X7.  A playing animation draws one further generation per tick until
    the last one is drawn; the tick after that stops it: the animation is
    paused, its timer is stopped, the button reads Replay, the last
    generation stays on display, and later ticks change nothing. *)
Theorem animation_runs_to_the_end (st : AnimationState) :
  reachable ticks dataByGenArray st ->
  isPlaying st = true ->
  let n := Z.to_nat (len - currentAnimationGenerationIndex st) in
  (forall j, j <= n ->
     let sj := afterTicks ticks dataByGenArray j st in
     isPlaying sj = true
     /\ currentAnimationGenerationIndex sj
        = (currentAnimationGenerationIndex st + Z.of_nat j)%Z
     /\ shows ticks dataByGenArray sj
          (currentAnimationGenerationIndex st + Z.of_nat j - 1))
  /\ let fin := afterTicks ticks dataByGenArray (S n) st in
     isPlaying fin = false
     /\ animationTimer fin = false
     /\ playButtonText fin = Replay
     /\ currentAnimationGenerationIndex fin = len
     /\ sliderValue fin = (len - 1)%Z
     /\ shows ticks dataByGenArray fin (len - 1)
     /\ forall m, afterTicks ticks dataByGenArray m fin = fin.
Proof.
  intros Hreach Hplay. pose proof (reachable_wf st Hreach) as Hwf.
  assert (Hidx : (currentAnimationGenerationIndex st <= len)%Z).
  { destruct Hwf as (_ & _ & Hs & _ & Hi & _). specialize (Hi Hplay). lia. }
  cbv zeta. split.
  - intros j Hj.
    destruct (afterTicks_playing st j Hwf Hplay) as (Hwfj & Hplayj & Hij);
      [lia|].
    split; [exact Hplayj|]. split; [exact Hij|].
    destruct Hwfj as (_ & _ & _ & _ & Hi & Hshow). specialize (Hi Hplayj).
    replace (currentAnimationGenerationIndex st + Z.of_nat j - 1)%Z
      with (sliderValue (afterTicks ticks dataByGenArray j st)) by lia.
    exact Hshow.
  - set (n := Z.to_nat (len - currentAnimationGenerationIndex st)).
    destruct (afterTicks_playing st n Hwf Hplay) as (Hwfn & Hplayn & Hin);
      [lia|].
    rewrite afterTicks_succ.
    set (sn := afterTicks ticks dataByGenArray n st) in *.
    assert (Hend : currentAnimationGenerationIndex sn = len) by lia.
    destruct Hwfn as (Ht & _ & Hs & _ & Hi & Hshow). specialize (Hi Hplayn).
    cbn [handle]. rewrite <- Ht, Hplayn. unfold runAnimationStep.
    destruct (Z.leb_spec len (currentAnimationGenerationIndex sn)) as [_|H];
      [|lia].
    unfold pauseAnimation, shows in *. fields.
    destruct (Z.leb_spec len (currentAnimationGenerationIndex sn)) as [_|H];
      [|lia].
    destruct (Z.ltb_spec 0 len) as [_|H]; [|lia]. cbn [andb].
    repeat split; try lia.
    + replace (len - 1)%Z with (sliderValue sn) by lia. exact Hshow.
    + intros m. induction m as [|m IH]; [reflexivity|].
      rewrite afterTicks_succ, IH. reflexivity.
Qed.

End ControllerFacts.

Lemma controller_invariant_witness :
  let handleEvent := RidgelineEvents.handle sampleTicks sampleGenerations in
  let st :=
    handleEvent RidgelineEvents.Tick
      (handleEvent RidgelineEvents.PlayButtonClick
         (handleEvent (RidgelineEvents.SliderInput 1)
            (Ridgeline.initialState sampleTicks sampleGenerations))) in
  1 <= length sampleGenerations
  /\ RidgelineEvents.reachable sampleTicks sampleGenerations st
  /\ Ridgeline.isPlaying st = Ridgeline.animationTimer st
  /\ (Ridgeline.playButtonText st = Ridgeline.Pause
      <-> Ridgeline.isPlaying st = true)
  /\ (0 <= Ridgeline.sliderValue st < Z.of_nat (length sampleGenerations))%Z
  /\ (Ridgeline.currentAnimationGenerationIndex st = Ridgeline.sliderValue st
      \/ Ridgeline.currentAnimationGenerationIndex st
         = (Ridgeline.sliderValue st + 1)%Z)
  /\ (Ridgeline.isPlaying st = true ->
      Ridgeline.currentAnimationGenerationIndex st
      = (Ridgeline.sliderValue st + 1)%Z)
  /\ RidgelineEvents.shows sampleTicks sampleGenerations st
       (Ridgeline.sliderValue st).
Proof.
  intros handleEvent st.
  assert (H1 : 1 <= length sampleGenerations) by (cbn; lia).
  assert (H2 : RidgelineEvents.reachable sampleTicks sampleGenerations st).
  { apply RidgelineEvents.reachable_tick, RidgelineEvents.reachable_play,
      RidgelineEvents.reachable_slider;
      [vm_compute; split; discriminate|apply RidgelineEvents.reachable_initial]. }
  split; [exact H1|]. split; [exact H2|].
  exact (controller_invariant sampleTicks sampleGenerations H1 st H2).
Defined.

Lemma play_resumes_at_slider_witness :
  let handleEvent := RidgelineEvents.handle sampleTicks sampleGenerations in
  let st :=
    handleEvent (RidgelineEvents.SliderInput 2)
      (Ridgeline.initialState sampleTicks sampleGenerations) in
  let st' := handleEvent RidgelineEvents.PlayButtonClick st in
  1 <= length sampleGenerations
  /\ RidgelineEvents.reachable sampleTicks sampleGenerations st
  /\ Ridgeline.isPlaying st = false
  /\ Ridgeline.isPlaying st' = true
  /\ Ridgeline.animationTimer st' = true
  /\ Ridgeline.playButtonText st' = Ridgeline.Pause
  /\ Ridgeline.sliderValue st' = Ridgeline.sliderValue st
  /\ Ridgeline.currentAnimationGenerationIndex st'
     = (Ridgeline.sliderValue st + 1)%Z
  /\ RidgelineEvents.shows sampleTicks sampleGenerations st'
       (Ridgeline.sliderValue st).
Proof.
  intros handleEvent st st'.
  assert (H1 : 1 <= length sampleGenerations) by (cbn; lia).
  assert (H2 : RidgelineEvents.reachable sampleTicks sampleGenerations st).
  { apply RidgelineEvents.reachable_slider;
      [vm_compute; split; discriminate|apply RidgelineEvents.reachable_initial]. }
  assert (H3 : Ridgeline.isPlaying st = false) by reflexivity.
  split; [exact H1|]. split; [exact H2|]. split; [exact H3|].
  exact (play_resumes_at_slider sampleTicks sampleGenerations H1 st H2 H3).
Defined.

Lemma animation_runs_to_the_end_witness :
  let handleEvent := RidgelineEvents.handle sampleTicks sampleGenerations in
  let afterTicks := RidgelineEvents.afterTicks sampleTicks sampleGenerations in
  let shows := RidgelineEvents.shows sampleTicks sampleGenerations in
  let len := Z.of_nat (length sampleGenerations) in
  let st :=
    handleEvent RidgelineEvents.PlayButtonClick
      (Ridgeline.initialState sampleTicks sampleGenerations) in
  let n := Z.to_nat (len - Ridgeline.currentAnimationGenerationIndex st) in
  1 <= length sampleGenerations
  /\ RidgelineEvents.reachable sampleTicks sampleGenerations st
  /\ Ridgeline.isPlaying st = true
  /\ (forall j, j <= n ->
        Ridgeline.isPlaying (afterTicks j st) = true
        /\ Ridgeline.currentAnimationGenerationIndex (afterTicks j st)
           = (Ridgeline.currentAnimationGenerationIndex st + Z.of_nat j)%Z
        /\ shows (afterTicks j st)
             (Ridgeline.currentAnimationGenerationIndex st + Z.of_nat j - 1)%Z)
  /\ Ridgeline.isPlaying (afterTicks (S n) st) = false
  /\ Ridgeline.animationTimer (afterTicks (S n) st) = false
  /\ Ridgeline.playButtonText (afterTicks (S n) st) = Ridgeline.Replay
  /\ Ridgeline.currentAnimationGenerationIndex (afterTicks (S n) st) = len
  /\ Ridgeline.sliderValue (afterTicks (S n) st) = (len - 1)%Z
  /\ shows (afterTicks (S n) st) (len - 1)%Z
  /\ forall m, afterTicks m (afterTicks (S n) st) = afterTicks (S n) st.
Proof.
  intros handleEvent afterTicks shows len st n.
  assert (H1 : 1 <= length sampleGenerations) by (cbn; lia).
  assert (H2 : RidgelineEvents.reachable sampleTicks sampleGenerations st)
    by apply RidgelineEvents.reachable_play, RidgelineEvents.reachable_initial.
  assert (H3 : Ridgeline.isPlaying st = true) by reflexivity.
  split; [exact H1|]. split; [exact H2|]. split; [exact H3|].
  exact (animation_runs_to_the_end sampleTicks sampleGenerations H1 st H2 H3).
Defined.

(** ** Sorting with a total comparator *)

Section TotalOrderSort.

Context {A : Type} (compareFn : A -> A -> Z).

Hypothesis compareFn_total :
  forall a b, (0 < compareFn a b)%Z -> (compareFn b a <= 0)%Z.
Hypothesis compareFn_trans :
  forall a b c,
    (compareFn a b <= 0)%Z -> (compareFn b c <= 0)%Z -> (compareFn a c <= 0)%Z.

Lemma sort_insert_sorted_total (x : A) (l : list A) :
  StronglySorted (fun a b => (compareFn a b <= 0)%Z) l ->
  StronglySorted (fun a b => (compareFn a b <= 0)%Z) (sort_insert compareFn x l).
Proof.
  intros Hs. induction Hs as [|y l Hs IH Hy]; cbn [sort_insert].
  - repeat constructor.
  - destruct (Z.leb_spec (compareFn x y) 0) as [Hle|Hgt].
    + constructor; [constructor; assumption|].
      constructor; [exact Hle|].
      eapply Forall_impl; [exact Hy|]. intros z Hz. cbn in Hz.
      eapply compareFn_trans; eassumption.
    + constructor; [exact IH|].
      rewrite sort_insert_Permutation. constructor; [|exact Hy].
      apply compareFn_total, Hgt.
Qed.

Lemma Array_sort_sorted_total (l : list A) :
  StronglySorted (fun a b => (compareFn a b <= 0)%Z) (Array_sort compareFn l).
Proof.
  induction l as [|x l IH]; cbn [Array_sort fold_right]; [constructor|].
  apply sort_insert_sorted_total, IH.
Qed.

End TotalOrderSort.

Lemma compareUnits_antisym (a b : list N) :
  compareUnits b a = CompOpp (compareUnits a b).
Proof.
  revert b. induction a as [|x a IH]; intros [|y b]; cbn; try reflexivity.
  rewrite (N.compare_antisym x y). destruct (x ?= y)%N; cbn; auto.
Qed.

Lemma compareUnits_trans (a b c : list N) :
  compareUnits a b <> Gt -> compareUnits b c <> Gt -> compareUnits a c <> Gt.
Proof.
  revert b c. induction a as [|x a IH]; intros [|y b] [|z c]; cbn;
    try congruence.
  destruct (N.compare_spec x y) as [Exy|Lxy|Gxy];
    destruct (N.compare_spec y z) as [Eyz|Lyz|Gyz];
    destruct (N.compare_spec x z) as [Exz|Lxz|Gxz];
    try congruence; try lia.
  apply IH.
Qed.

(** The order of the code units is not the order of the bytes: U+FF5E,
    one code unit, comes after U+1F600, a surrogate pair, and before it
    byte by byte. *)
Example code_unit_order_is_not_byte_order :
  let fullwidthTilde :=
    String.string_of_list_ascii (map Ascii.ascii_of_N [239; 189; 158]%N) in
  let grinningFace :=
    String.string_of_list_ascii
      (map Ascii.ascii_of_N [240; 159; 152; 128]%N) in
  utf16 fullwidthTilde = [65374]%N
  /\ utf16 grinningFace = [55357; 56832]%N
  /\ String.compare fullwidthTilde grinningFace = Lt
  /\ String_ascending fullwidthTilde grinningFace = 1%Z.
Proof. repeat split. Qed.

Lemma String_ascending_le (a b : string) :
  (String_ascending a b <= 0)%Z <-> compareUnits (utf16 a) (utf16 b) <> Gt.
Proof.
  unfold String_ascending.
  destruct (compareUnits (utf16 a) (utf16 b)); split; intros H;
    try lia; try discriminate; congruence.
Qed.

Lemma String_ascending_total (a b : string) :
  (0 < String_ascending a b)%Z -> (String_ascending b a <= 0)%Z.
Proof.
  unfold String_ascending. rewrite (compareUnits_antisym (utf16 a) (utf16 b)).
  destruct (compareUnits (utf16 a) (utf16 b)); cbn; lia.
Qed.

Lemma String_ascending_trans (a b c : string) :
  (String_ascending a b <= 0)%Z -> (String_ascending b c <= 0)%Z ->
  (String_ascending a c <= 0)%Z.
Proof.
  rewrite !String_ascending_le. apply compareUnits_trans.
Qed.

(** ** Groups, layers and the views of the stacked bar chart *)

Section StackedBarFacts.

Import StackedBar.

Variable localeCompare : string -> string -> Z.
Variable data : list Pokemon.

Abbreviation create := (StackedBar.createStackedBarChart localeCompare data).
Abbreviation base := (StackedBar.baseSortedCountsArray localeCompare data).
Abbreviation secTypes := (StackedBar.allSecondaryTypes localeCompare data).
Abbreviation handleEvent := (StackedBar.handle localeCompare data).

Lemma None_sorted_first (l : list string) :
  "None" ∈ l ->
  exists rest, Array_sort (secondaryOrder localeCompare) l = "None" :: rest.
Proof.
  induction l as [|x l IH]; intros Hin.
  - apply elem_of_nil in Hin. destruct Hin.
  - cbn [Array_sort fold_right].
    fold (Array_sort (secondaryOrder localeCompare) l).
    destruct (String.eqb_spec x "None") as [->|Hx].
    + destruct (Array_sort (secondaryOrder localeCompare) l) as [|y rest];
        cbn [sort_insert]; [eexists; reflexivity|].
      unfold secondaryOrder. cbn. eexists. reflexivity.
    + apply elem_of_cons in Hin as [E|Hin]; [congruence|].
      destruct (IH Hin) as (rest & ->). cbn [sort_insert].
      unfold secondaryOrder.
      destruct (String.eqb_spec x "None") as [E|_]; [congruence|].
      cbn. eexists. reflexivity.
Qed.

Lemma secTypes_nonempty : data <> [] -> secTypes <> [].
Proof.
  destruct data as [|x data'] eqn:E; [congruence|]. intros _ Hnil.
  assert (H : Type_2 x ∈ StackedBar.allSecondaryTypes localeCompare (x :: data')).
  { apply allSecondaryTypes_elem_of. left. }
  rewrite Hnil in H. apply elem_of_nil in H. exact H.
Qed.

Lemma base_data_nonempty (d : gmap string JsValue) : d ∈ base -> data <> [].
Proof.
  intros Hd. apply base_elem_of in Hd as (k & Hk & _).
  intros E. rewrite E in Hk. apply elem_of_nil in Hk. exact Hk.
Qed.

(** The label of a group object is the primary type of the group unless
    a secondary type is spelled [primaryType]. *)
Lemma flatten_label (k : string) (leaves : list Pokemon) :
  (forall leaf, leaf ∈ leaves -> is_Some (zeroCounts secTypes !! Type_2 leaf)) ->
  getProp (flatten (k, fst (reduceLeaves secTypes leaves))) "primaryType"
  = if bool_decide ("primaryType" ∈ secTypes)
    then JNum (length (leavesOf Type_2 leaves "primaryType"))
    else JStr k.
Proof.
  intros Hhit. unfold getProp, flatten, reduceLeaves. cbn [fst snd].
  destruct (countLeaf_fold leaves (zeroCounts secTypes) [] Hhit) as [_ Hcnt].
  rewrite lookup_union, lookup_fmap, lookup_insert_ne by discriminate.
  rewrite Hcnt, (zeroCounts_lookup localeCompare), lookup_singleton_eq.
  case_bool_decide; reflexivity.
Qed.

Lemma base_label (d : gmap string JsValue) :
  d ∈ base ->
  exists k,
    k ∈ map Type_1 data
    /\ d = flatten (k, fst (reduceLeaves secTypes (leavesOf Type_1 data k)))
    /\ getProp d "primaryType"
       = if bool_decide ("primaryType" ∈ secTypes)
         then JNum (length (leavesOf Type_2 (leavesOf Type_1 data k)
                                     "primaryType"))
         else JStr k.
Proof.
  intros Hd. apply base_elem_of in Hd as (k & Hk & ->).
  exists k. split; [exact Hk|]. split; [reflexivity|].
  apply flatten_label. intros leaf. apply countLeaf_hit.
Qed.

Lemma base_of_type (k : string) :
  k ∈ map Type_1 data ->
  flatten (k, fst (reduceLeaves secTypes (leavesOf Type_1 data k))) ∈ base.
Proof.
  intros Hk. unfold StackedBar.baseSortedCountsArray, StackedBar.sortedEntries.
  apply list_elem_of_fmap. eexists. split; [reflexivity|].
  rewrite Array_sort_Permutation, entries_shape.
  apply list_elem_of_fmap. exists k. split; [reflexivity|].
  apply elem_of_Set_values, Hk.
Qed.

(** Without a secondary type spelled [primaryType], a primary type is
    found among the groups exactly when it occurs in the data. *)
Lemma findPrimary_iff (k : string) :
  "primaryType" ∉ map Type_2 data ->
  (is_Some (findPrimary base (JStr k)) <-> k ∈ map Type_1 data).
Proof.
  intros Hfree.
  assert (Hsec : "primaryType" ∉ secTypes).
  { intros H. apply Hfree.
    apply (proj1 (allSecondaryTypes_elem_of localeCompare data _)), H. }
  split.
  - intros [fd Hfd]. apply findPrimary_Some in Hfd as [Hin Hlabel].
    destruct (base_label fd Hin) as (k' & Hk' & _ & Hl).
    rewrite bool_decide_eq_false_2 in Hl by exact Hsec. congruence.
  - intros Hk. pose proof (base_of_type k Hk) as Hin.
    pose proof (findPrimary_hit _ _ Hin) as Hhit.
    destruct (base_label _ Hin) as (k' & _ & _ & Hl).
    rewrite bool_decide_eq_false_2 in Hl by exact Hsec.
    rewrite flatten_label in Hhit by (intros leaf; apply countLeaf_hit).
    rewrite bool_decide_eq_false_2 in Hhit by exact Hsec. exact Hhit.
Qed.

Lemma barBody_single (fd : gmap string JsValue) (effective : JsValue) :
  fd ∈ base -> barBody secTypes [fd] effective = StackedBars [fd] secTypes.
Proof.
  intros Hfd. unfold barBody.
  pose proof (secTypes_nonempty (base_data_nonempty fd Hfd)) as Hsec.
  destruct secTypes as [|k ks]; [congruence|]. cbn [length map Nat.eqb orb].
  destruct (base_group_nonempty localeCompare data fd Hfd) as [Htot Hpos].
  unfold D3.max. cbn [fold_left]. unfold D3.max_step. rewrite Htot.
  cbn [asNumber].
  destruct (Qle_bool (inject_Z (Z.of_nat (groupTotal fd))) 0) eqn:E;
    [|reflexivity].
  apply Qle_bool_iff in E. change 0%Q with (inject_Z 0) in E.
  rewrite <- Zle_Qle in E. lia.
Qed.

Lemma barBody_not_list (keys : list string)
    (current : list (gmap string JsValue)) (effective : JsValue) :
  match barBody keys current effective with
  | PokemonList _ | NoPokemonFound => False
  | _ => True
  end.
Proof.
  unfold barBody.
  destruct ((length keys =? 0) || (length current =? 0)
            || (length (map (fun d => getProp d "primaryType") current) =? 0));
    [exact I|].
  destruct (D3.max current _) as [m|]; [|exact I].
  destruct (Qle_bool m 0); exact I.
Qed.

(** The three shapes of the charts a user can get to. *)
Lemma reachable_shape (c : Chart) :
  reachable localeCompare data c ->
  (exists p s b,
      truthy p = true /\ truthy s = true
      /\ c = mkChart p s p (TitlePrimarySecondary p s) true true b []
      /\ (b = NoPokemonFound \/ exists l, b = PokemonList l)
      /\ is_Some (findPrimary base p))
  \/ (exists p s fd,
        truthy p = true /\ truthy s = false
        /\ findPrimary base p = Some fd
        /\ c = mkChart p s p (TitlePrimary p) true false
                       (StackedBars [fd] secTypes) [])
  \/ (exists p s,
        truthy p = false
        /\ c = mkChart p s p TitleAll false false (barBody secTypes base p) []).
Proof.
  intros Hreach.
  destruct (reachable_created localeCompare data c Hreach)
    as (p & s & -> & Hfound).
  destruct (truthy p) eqn:Hp; [destruct (truthy s) eqn:Hs|].
  - left. destruct (create_list_view localeCompare data p s Hp Hs)
      as (b & Hb & Hcase).
    exists p, s, b. split; [exact Hp|]. split; [exact Hs|].
    split; [|split; [exact Hcase|apply Hfound; reflexivity]].
    rewrite Hb, rollupWarnings_nil. unfold chartTitle. rewrite Hp, Hs.
    reflexivity.
  - right. left. destruct (Hfound eq_refl) as [fd Hfd].
    exists p, s, fd. split; [exact Hp|]. split; [exact Hs|].
    split; [exact Hfd|].
    rewrite create_bar_view by (rewrite Hp, Hs; reflexivity).
    cbv zeta. unfold currentCounts, chartTitle.
    rewrite Hp, Hs, Hfd, rollupWarnings_nil. cbn [fst snd andb negb].
    rewrite barBody_single by apply (findPrimary_Some _ _ _ Hfd).
    reflexivity.
  - right. right. exists p, s. split; [exact Hp|].
    rewrite create_bar_view by (rewrite Hp; reflexivity).
    cbv zeta. unfold currentCounts, chartTitle.
    rewrite Hp, rollupWarnings_nil. cbn [fst snd andb].
    reflexivity.
Qed.

(** X8.  The layer keys of the chart are the secondary types of the
    data, each once; when a Pokemon has the secondary type [None], the
    key [None] is the first layer, whatever order the locale gives the
    other keys. *)
Theorem layer_keys_are_secondary_types :
  NoDup (allSecondaryTypes localeCompare data)
  /\ (forall k, k ∈ allSecondaryTypes localeCompare data
                <-> k ∈ map Type_2 data)
  /\ ("None" ∈ map Type_2 data ->
      exists rest, allSecondaryTypes localeCompare data = "None" :: rest).
Proof.
  split; [apply allSecondaryTypes_NoDup|].
  split; [intros k; apply allSecondaryTypes_elem_of|].
  intros H. apply None_sorted_first, elem_of_Set_values, H.
Qed.

(** X9.  When no secondary type is spelled [primaryType], a request for
    the bar view of a non-empty primary type [k] gets the title of [k]
    and the Show All link in any case.  When [k] is the primary type of
    a Pokemon of the data, the chart is the view filtered to [k]: it
    draws the one bar of the group labelled [k] and logs nothing.
    Otherwise it logs the warning, resets the effective filter and draws
    the bars of all groups, as the overview does, but under that title
    and with that link, which the overview does not have. *)
Theorem fallback_iff_type_absent (k : string) (s : JsValue) :
  "primaryType" ∉ map Type_2 data ->
  k <> "" ->
  truthy s = false ->
  (title (create (JStr k) s) = TitlePrimary (JStr k)
   /\ showAllLink (create (JStr k) s) = true
   /\ backToPrimaryLink (create (JStr k) s) = false)
  /\ (k ∈ map Type_1 data ->
      console (create (JStr k) s) = []
      /\ effectiveFilterPrimaryType (create (JStr k) s) = JStr k
      /\ navigationState (create (JStr k) s) = PrimaryFiltered (JStr k)
      /\ exists d,
           body (create (JStr k) s)
           = StackedBars [d] (allSecondaryTypes localeCompare data)
           /\ d ∈ baseSortedCountsArray localeCompare data
           /\ getProp d "primaryType" = JStr k)
  /\ (k ∉ map Type_1 data ->
      console (create (JStr k) s) = [WarnPrimaryTypeNotFound (JStr k)]
      /\ effectiveFilterPrimaryType (create (JStr k) s) = JNull
      /\ navigationState (create (JStr k) s) = Overview
      /\ body (create (JStr k) s) = body (create JNull JNull)
      /\ (data <> [] ->
          body (create (JStr k) s)
          = StackedBars (baseSortedCountsArray localeCompare data)
                        (allSecondaryTypes localeCompare data))
      /\ title (create JNull JNull) = TitleAll
      /\ showAllLink (create JNull JNull) = false).
Proof.
  intros Hfree Hk Hs.
  assert (Hp : truthy (JStr k) = true).
  { cbn. destruct (String.eqb_spec k ""); [contradiction|reflexivity]. }
  rewrite create_bar_view by (rewrite Hp, Hs; reflexivity).
  rewrite (create_bar_view localeCompare data JNull JNull) by reflexivity.
  cbv zeta. unfold currentCounts, chartTitle.
  rewrite Hp, Hs, rollupWarnings_nil.
  cbn [andb negb truthy fst snd title showAllLink backToPrimaryLink].
  split.
  { destruct (findPrimary base (JStr k)); repeat split. }
  split; intros Hin.
  - apply (findPrimary_iff k Hfree) in Hin as [fd Hfd]. rewrite Hfd.
    cbn [fst snd console effectiveFilterPrimaryType body].
    destruct (findPrimary_Some _ _ _ Hfd) as [Hbase Hlabel].
    rewrite barBody_single by exact Hbase.
    unfold navigationState. cbn [body effectiveFilterPrimaryType].
    rewrite Hp. split; [reflexivity|]. split; [reflexivity|].
    split; [reflexivity|]. exists fd. auto.
  - destruct (findPrimary base (JStr k)) as [fd|] eqn:E.
    + exfalso. apply Hin, (findPrimary_iff k Hfree). exists fd. exact E.
    + cbn [fst snd console effectiveFilterPrimaryType body].
      rewrite navigationState_bars. cbn [truthy].
      split; [reflexivity|]. split; [reflexivity|]. split; [reflexivity|].
      split; [reflexivity|].
      split; [intros Hdata; apply barBody_all_groups, Hdata|].
      split; reflexivity.
Qed.

(** X10.  In every chart a user can get to, nothing has been logged, and
    the title and the two links agree with the level of the chart: the
    overview has the general title and no link; the view filtered to [p]
    has the title of [p] and the Show All link; the list view has the
    title of both types and both links. *)
Theorem reachable_chart_is_consistent (c : Chart) :
  reachable localeCompare data c ->
  console c = []
  /\ match navigationState c with
     | Overview =>
         title c = TitleAll /\ showAllLink c = false
         /\ backToPrimaryLink c = false
     | PrimaryFiltered p =>
         title c = TitlePrimary p /\ showAllLink c = true
         /\ backToPrimaryLink c = false
     | DetailList p s =>
         title c = TitlePrimarySecondary p s /\ showAllLink c = true
         /\ backToPrimaryLink c = true
     end.
Proof.
  intros Hreach.
  destruct (reachable_shape c Hreach)
    as [(p & s & b & Hp & Hs & -> & Hb & _)
       |[(p & s & fd & Hp & Hs & Hfd & ->)|(p & s & Hp & ->)]].
  - split; [reflexivity|]. unfold navigationState. cbn [body].
    destruct Hb as [->|[l ->]]; cbn; repeat split.
  - split; [reflexivity|]. unfold navigationState.
    cbn [body effectiveFilterPrimaryType]. rewrite Hp. cbn. repeat split.
  - split; [reflexivity|]. rewrite navigationState_bars, Hp. cbn.
    repeat split.
Qed.

(** X11.  In every chart a user can get to, the view filtered to [p]
    draws exactly one bar, that of a group of the aggregate labelled
    [p], with all the layer keys; the overview of data that is not empty
    draws the bars of all groups. *)
Theorem views_draw_the_groups (c : Chart) :
  reachable localeCompare data c ->
  (forall p,
      navigationState c = PrimaryFiltered p ->
      exists d,
        body c = StackedBars [d] secTypes
        /\ d ∈ base /\ getProp d "primaryType" = p)
  /\ (navigationState c = Overview -> data <> [] ->
      body c = StackedBars base secTypes).
Proof.
  intros Hreach.
  destruct (reachable_shape c Hreach)
    as [(p & s & b & Hp & Hs & -> & Hb & _)
       |[(p & s & fd & Hp & Hs & Hfd & ->)|(p & s & Hp & ->)]].
  - assert (Hn : navigationState (mkChart p s p (TitlePrimarySecondary p s)
                                   true true b []) = DetailList p s).
    { unfold navigationState. cbn [body].
      destruct Hb as [->|[l ->]]; reflexivity. }
    rewrite Hn. split; [intros q [=]|intros [=]].
  - unfold navigationState. cbn [body effectiveFilterPrimaryType].
    rewrite Hp. split; [|intros [=]].
    intros q [= <-]. exists fd. split; [reflexivity|].
    apply (findPrimary_Some _ _ _ Hfd).
  - rewrite navigationState_bars, Hp. split; [intros q [=]|].
    intros _ Hdata. cbn [body]. apply barBody_all_groups, Hdata.
Qed.

Lemma listed_eq (k key : string) :
  List.filter
    (fun d => strictEq (JStr (Type_1 d)) (JStr k)
              && strictEq (JStr (Type_2 d)) (JStr key))
    data
  = leavesOf Type_2 (leavesOf Type_1 data k) key.
Proof.
  unfold leavesOf, strictEq.
  induction data as [|x l IH]; [reflexivity|]. cbn [List.filter].
  destruct (decide (Type_1 x = k)) as [E1|E1].
  - rewrite (bool_decide_eq_true_2 (JStr (Type_1 x) = JStr k)) by congruence.
    rewrite (bool_decide_eq_true_2 (Type_1 x = k)) by exact E1.
    cbn [andb List.filter].
    destruct (decide (Type_2 x = key)) as [E2|E2].
    + rewrite (bool_decide_eq_true_2 (JStr (Type_2 x) = JStr key)) by congruence.
      rewrite (bool_decide_eq_true_2 (Type_2 x = key)) by exact E2.
      f_equal. exact IH.
    + rewrite (bool_decide_eq_false_2 (JStr (Type_2 x) = JStr key)) by congruence.
      rewrite (bool_decide_eq_false_2 (Type_2 x = key)) by exact E2.
      exact IH.
  - rewrite (bool_decide_eq_false_2 (JStr (Type_1 x) = JStr k)) by congruence.
    rewrite (bool_decide_eq_false_2 (Type_1 x = k)) by exact E1.
    cbn [andb]. exact IH.
Qed.

(** X12.  The count that the group labelled [k] holds for a layer key
    other than [total] is the number of Pokemon of primary type [k] and
    that secondary type.  These are the Pokemon that the list view of
    the two types lists; the list view reports that none was found
    exactly when the count is 0. *)
Theorem segment_counts_listed_pokemon (d : gmap string JsValue)
    (k key : string) :
  d ∈ base ->
  getProp d "primaryType" = JStr k ->
  key ∈ secTypes ->
  key <> "total" ->
  k <> "" -> key <> "" ->
  exists listed,
    listed ≡ₚ List.filter (fun x => bool_decide (Type_1 x = k)
                                    && bool_decide (Type_2 x = key)) data
    /\ getProp d key = JNum (length listed)
    /\ body (create (JStr k) (JStr key))
       = if (length listed =? 0)%nat then NoPokemonFound
         else PokemonList listed.
Proof.
  intros Hd Hlabel Hkey Hne Hk Hkey'.
  assert (Hlisted :
    List.filter (fun x => bool_decide (Type_1 x = k)
                          && bool_decide (Type_2 x = key)) data
    = leavesOf Type_2 (leavesOf Type_1 data k) key).
  { rewrite <- listed_eq. apply filter_ext. intros x. unfold strictEq.
    f_equal; apply bool_decide_ext; split; congruence. }
  rewrite Hlisted.
  exists (Array_sort (fun a b => String_ascending (Name a) (Name b))
            (leavesOf Type_2 (leavesOf Type_1 data k) key)).
  split; [apply Array_sort_Permutation|].
  rewrite (Permutation_length (Array_sort_Permutation _ _)).
  split.
  - destruct (base_label d Hd) as (k' & _ & Hd' & Hl).
    rewrite Hlabel in Hl.
    destruct (bool_decide ("primaryType" ∈ secTypes)); [discriminate|].
    injection Hl as Hkk. subst k' d.
    unfold getProp, flatten. cbn [fst snd].
    rewrite (lookup_union_Some_l _ _ _
               (JNum (length (leavesOf Type_2 (leavesOf Type_1 data k) key))));
      [reflexivity|].
    rewrite lookup_fmap, reduceLeaves_counts by assumption. reflexivity.
  - assert (Hp : truthy (JStr k) = true).
    { cbn. destruct (String.eqb_spec k ""); [contradiction|reflexivity]. }
    assert (Hs : truthy (JStr key) = true).
    { cbn. destruct (String.eqb_spec key ""); [contradiction|reflexivity]. }
    unfold StackedBar.createStackedBarChart. rewrite Hp, Hs.
    cbn [andb body]. rewrite listed_eq. reflexivity.
Qed.

Lemma StronglySorted_weaken {A : Type} (R R' : A -> A -> Prop) (l : list A) :
  (forall a b, R a b -> R' a b) ->
  StronglySorted R l -> StronglySorted R' l.
Proof.
  intros HR Hs. induction Hs as [|x l Hs IH Hx]; constructor.
  - exact IH.
  - eapply Forall_impl; [exact Hx|]. intros y. apply HR.
Qed.

(** X13.  A list view lists the Pokemon whose two types are the two
    requested ones, each record once, in the ascending order that
    [d3.ascending] gives their names: no name is followed by one that
    comes before it in the order of the UTF-16 code units. *)
Theorem list_view_sorted_by_name (p s : JsValue) (l : list Pokemon) :
  body (create p s) = PokemonList l ->
  l ≡ₚ List.filter
        (fun d => strictEq (JStr (Type_1 d)) p && strictEq (JStr (Type_2 d)) s)
        data
  /\ StronglySorted
       (fun a b => compareUnits (utf16 (Name a)) (utf16 (Name b)) <> Gt) l.
Proof.
  unfold StackedBar.createStackedBarChart.
  destruct (truthy p && truthy s).
  - cbn [body]. destruct (length _ =? 0); [discriminate|].
    intros [= <-]. split; [apply Array_sort_Permutation|].
    apply StronglySorted_weaken
      with (R := fun a b => (String_ascending (Name a) (Name b) <= 0)%Z).
    { intros a b. apply String_ascending_le. }
    apply (Array_sort_sorted_total
             (fun a b => String_ascending (Name a) (Name b))).
    + intros a b. apply String_ascending_total.
    + intros a b c. apply String_ascending_trans.
  - cbn [body]. intros H.
    pose proof (barBody_not_list secTypes
                  (fst (fst (currentCounts base p
                               (StackedBar.rollupWarnings localeCompare data))))
                  (snd (fst (currentCounts base p
                               (StackedBar.rollupWarnings localeCompare data)))))
      as Hn.
    rewrite H in Hn. destruct Hn.
Qed.

(** X14.  When no secondary type is spelled [total], every bar the chart
    draws fits the count axis: the axis ends at the largest [total] of
    the drawn groups, which is positive, and the layers of each bar
    stack up to a length of at least 1 and at most that maximum. *)
Theorem bars_fit_the_axis (p s : JsValue)
    (current : list (gmap string JsValue)) (layerKeys : list string) :
  "total" ∉ map Type_2 data ->
  body (create p s) = StackedBars current layerKeys ->
  exists maxTotal,
    D3.max current (fun d => asNumber (getProp d "total")) = Some maxTotal
    /\ (0 < maxTotal)%Q
    /\ forall d, d ∈ current ->
         exists q,
           stackedTotal layerKeys d = Some q
           /\ (1 <= q)%Q /\ (q <= maxTotal)%Q.
Proof.
  intros Hfree Hbody.
  assert (Hbar : exists cur eff,
             barBody secTypes cur eff = StackedBars current layerKeys
             /\ forall d, d ∈ cur -> d ∈ base).
  { revert Hbody. unfold StackedBar.createStackedBarChart.
    destruct (truthy p && truthy s); cbn [body].
    - destruct (length _ =? 0); discriminate.
    - intros H. eexists _, _. split; [exact H|].
      intros d. apply currentCounts_subset. }
  destruct Hbar as (cur & eff & Hbar & Hsub).
  pose proof (barBody_StackedBars _ _ _ _ _ Hbar) as [-> ->].
  unfold barBody in Hbar.
  destruct ((length secTypes =? 0) || (length cur =? 0)
            || (length (map (fun d => getProp d "primaryType") cur) =? 0));
    [discriminate|].
  destruct (D3.max cur (fun d => asNumber (getProp d "total")))
    as [m|] eqn:Hmax; [|discriminate].
  destruct (Qle_bool m 0) eqn:Hm; [discriminate|].
  exists m. split; [reflexivity|]. split.
  { apply Qnot_le_lt. intros Hle. apply Qle_bool_iff in Hle. congruence. }
  intros d Hd.
  destruct (stackedTotal_eq_total localeCompare data d Hfree (Hsub d Hd))
    as (q & Hq & Eq).
  destruct (base_group_nonempty localeCompare data d (Hsub d Hd))
    as [Htot Hpos].
  exists q. split; [exact Hq|]. rewrite Eq. split.
  - change 1%Q with (inject_Z 1). rewrite <- Zle_Qle. lia.
  - destruct (max_spec (fun d => asNumber (getProp d "total")) cur d
                (inject_Z (Z.of_nat (groupTotal d))))
      as (m' & Hm' & _ & Hall).
    { apply list_elem_of_In, Hd. }
    { rewrite Htot. reflexivity. }
    rewrite Hmax in Hm'. injection Hm' as <-.
    apply (Hall d); [apply list_elem_of_In, Hd|].
    rewrite Htot. reflexivity.
Qed.

(** X15.  From the view filtered to [p], a click on a segment of a
    non-empty layer key followed by the Back link restores what the
    chart shows: the same single bar, title and links, with nothing
    logged. *)
Theorem drill_and_back_restores_view (c : Chart) (key : string)
    (d : gmap string JsValue) (p : JsValue) :
  reachable localeCompare data c ->
  navigationState c = PrimaryFiltered p ->
  hasRect c key d = true ->
  key <> "" ->
  navigationState (handleEvent c (RectClick key d)) = DetailList p (JStr key)
  /\ body (handleEvent (handleEvent c (RectClick key d)) BackClick) = body c
  /\ title (handleEvent (handleEvent c (RectClick key d)) BackClick) = title c
  /\ showAllLink (handleEvent (handleEvent c (RectClick key d)) BackClick)
     = showAllLink c
  /\ backToPrimaryLink (handleEvent (handleEvent c (RectClick key d)) BackClick)
     = backToPrimaryLink c
  /\ effectiveFilterPrimaryType
       (handleEvent (handleEvent c (RectClick key d)) BackClick)
     = effectiveFilterPrimaryType c
  /\ console (handleEvent (handleEvent c (RectClick key d)) BackClick) = [].
Proof.
  intros Hreach Hnav Hrect Hkey.
  destruct (reachable_shape c Hreach)
    as [(p0 & s & b & Hp & Hs & -> & Hb & _)
       |[(p0 & s & fd & Hp & Hs & Hfd & ->)|(p0 & s & Hp & ->)]].
  - unfold hasRect in Hrect. cbn [body] in Hrect.
    destruct Hb as [->|[l ->]]; discriminate.
  - unfold navigationState in Hnav.
    cbn [body effectiveFilterPrimaryType] in Hnav. rewrite Hp in Hnav.
    injection Hnav as <-.
    unfold hasRect in Hrect. cbn [body] in Hrect.
    apply andb_true_iff in Hrect as [Hin Hk].
    apply bool_decide_eq_true in Hin. apply list_elem_of_singleton in Hin.
    subst d.
    destruct (findPrimary_Some _ _ _ Hfd) as [Hbase Hlabel].
    assert (Hks : truthy (JStr key) = true).
    { cbn. destruct (String.eqb_spec key ""); [contradiction|reflexivity]. }
    assert (Hclick :
      handleEvent (mkChart p0 s p0 (TitlePrimary p0) true false
                     (StackedBars [fd] secTypes) [])
                  (RectClick key fd)
      = create p0 (JStr key)).
    { unfold StackedBar.handle, dispatch, hasRect, rectClick.
      cbn [body effectiveFilterPrimaryType activeFilterSecondaryType].
      rewrite (bool_decide_eq_true_2 (fd ∈ [fd])) by left.
      rewrite Hk, Hp, Hs, Hlabel. unfold strictEq.
      rewrite bool_decide_eq_true_2 by reflexivity. reflexivity. }
    rewrite Hclick.
    destruct (create_list_view localeCompare data p0 (JStr key) Hp Hks)
      as (b & Hb & Hcase).
    rewrite Hb.
    assert (Hback :
      handleEvent (mkChart p0 (JStr key) p0 (chartTitle p0 (JStr key))
                     true true b
                     (StackedBar.rollupWarnings localeCompare data))
                  BackClick
      = mkChart p0 JNull p0 (TitlePrimary p0) true false
                (StackedBars [fd] secTypes) []).
    { unfold StackedBar.handle, dispatch.
      cbn [backToPrimaryLink activeFilterPrimaryType].
      rewrite create_bar_view by (rewrite Hp; reflexivity).
      cbv zeta. unfold currentCounts, chartTitle.
      rewrite Hp, Hfd, rollupWarnings_nil. cbn [fst snd andb negb truthy].
      rewrite barBody_single by exact Hbase. reflexivity. }
    rewrite Hback. split; [|repeat split].
    unfold navigationState. cbn [body activeFilterPrimaryType
                                   activeFilterSecondaryType].
    destruct Hcase as [->|[l ->]]; reflexivity.
  - rewrite navigationState_bars, Hp in Hnav. discriminate.
Qed.

End StackedBarFacts.

Lemma fallback_iff_type_absent_witness :
  let create := StackedBar.createStackedBarChart String_ascending sampleData in
  let base := StackedBar.baseSortedCountsArray String_ascending sampleData in
  let secTypes := StackedBar.allSecondaryTypes String_ascending sampleData in
  let found := create (JStr "Fire") JNull in
  let fallen := create (JStr "Dragon") JNull in
  (("primaryType" ∉ map Type_2 sampleData)
   /\ "Fire" <> "" /\ "Dragon" <> "" /\ truthy JNull = false
   /\ "Fire" ∈ map Type_1 sampleData
   /\ "Dragon" ∉ map Type_1 sampleData)
  /\ (StackedBar.title found = StackedBar.TitlePrimary (JStr "Fire")
      /\ StackedBar.showAllLink found = true
      /\ StackedBar.console found = []
      /\ StackedBar.effectiveFilterPrimaryType found = JStr "Fire"
      /\ exists d,
           StackedBar.body found = StackedBar.StackedBars [d] secTypes
           /\ d ∈ base /\ getProp d "primaryType" = JStr "Fire")
  /\ (StackedBar.title fallen = StackedBar.TitlePrimary (JStr "Dragon")
      /\ StackedBar.showAllLink fallen = true
      /\ StackedBar.console fallen
         = [StackedBar.WarnPrimaryTypeNotFound (JStr "Dragon")]
      /\ StackedBar.effectiveFilterPrimaryType fallen = JNull
      /\ StackedBar.body fallen = StackedBar.body (create JNull JNull)
      /\ StackedBar.body fallen = StackedBar.StackedBars base secTypes
      /\ StackedBar.title (create JNull JNull) = StackedBar.TitleAll
      /\ StackedBar.showAllLink (create JNull JNull) = false).
Proof.
  intros create base secTypes found fallen.
  assert (H1 : "primaryType" ∉ map Type_2 sampleData).
  { intros H. apply list_elem_of_In in H. vm_compute in H.
    repeat (destruct H as [H|H]; [discriminate H|]). exact H. }
  assert (HF : "Fire" <> "") by discriminate.
  assert (HD : "Dragon" <> "") by discriminate.
  assert (H3 : truthy JNull = false) by reflexivity.
  assert (InF : "Fire" ∈ map Type_1 sampleData).
  { apply (bool_decide_unpack _). vm_compute. exact I. }
  assert (OutD : "Dragon" ∉ map Type_1 sampleData).
  { intros H. apply list_elem_of_In in H. vm_compute in H.
    repeat (destruct H as [H|H]; [discriminate H|]). exact H. }
  assert (Hdata : sampleData <> []) by discriminate.
  destruct (fallback_iff_type_absent String_ascending sampleData
              "Fire" JNull H1 HF H3) as ((F1 & F2 & _) & Fin & _).
  destruct (Fin InF) as (F3 & F4 & _ & F5).
  destruct (fallback_iff_type_absent String_ascending sampleData
              "Dragon" JNull H1 HD H3) as ((D1 & D2 & _) & _ & Dout).
  destruct (Dout OutD) as (D3 & D4 & _ & D5 & D6 & D7 & D8).
  split; [repeat split; assumption|].
  split.
  { split; [exact F1|]. split; [exact F2|]. split; [exact F3|].
    split; [exact F4|exact F5]. }
  split; [exact D1|]. split; [exact D2|]. split; [exact D3|].
  split; [exact D4|]. split; [exact D5|]. split; [exact (D6 Hdata)|].
  split; [exact D7|exact D8].
Defined.

Lemma reachable_chart_is_consistent_witness :
  let base := StackedBar.baseSortedCountsArray String_ascending sampleData in
  let handleEvent := StackedBar.handle String_ascending sampleData in
  let dGrass := nth 0 base ∅ in
  let c0 :=
    StackedBar.createStackedBarChart String_ascending sampleData JNull JNull in
  let c1 := handleEvent c0 (StackedBar.RectClick "None" dGrass) in
  let c2 := handleEvent c1 (StackedBar.RectClick "Poison" dGrass) in
  let c3 := handleEvent c2 StackedBar.BackClick in
  (StackedBar.reachable String_ascending sampleData c0
   /\ StackedBar.reachable String_ascending sampleData c1
   /\ StackedBar.reachable String_ascending sampleData c2
   /\ StackedBar.reachable String_ascending sampleData c3)
  /\ (StackedBar.navigationState c0 = StackedBar.Overview
      /\ StackedBar.console c0 = []
      /\ StackedBar.title c0 = StackedBar.TitleAll
      /\ StackedBar.showAllLink c0 = false
      /\ StackedBar.backToPrimaryLink c0 = false)
  /\ (StackedBar.navigationState c1 = StackedBar.PrimaryFiltered (JStr "Grass")
      /\ StackedBar.console c1 = []
      /\ StackedBar.title c1 = StackedBar.TitlePrimary (JStr "Grass")
      /\ StackedBar.showAllLink c1 = true
      /\ StackedBar.backToPrimaryLink c1 = false)
  /\ (StackedBar.navigationState c2
      = StackedBar.DetailList (JStr "Grass") (JStr "Poison")
      /\ StackedBar.console c2 = []
      /\ StackedBar.title c2
         = StackedBar.TitlePrimarySecondary (JStr "Grass") (JStr "Poison")
      /\ StackedBar.showAllLink c2 = true
      /\ StackedBar.backToPrimaryLink c2 = true)
  /\ (StackedBar.navigationState c3 = StackedBar.PrimaryFiltered (JStr "Grass")
      /\ StackedBar.console c3 = []
      /\ StackedBar.title c3 = StackedBar.TitlePrimary (JStr "Grass")
      /\ StackedBar.showAllLink c3 = true
      /\ StackedBar.backToPrimaryLink c3 = false).
Proof.
  intros base handleEvent dGrass c0 c1 c2 c3.
  assert (H0 : StackedBar.reachable String_ascending sampleData c0)
    by apply StackedBar.reachable_first.
  assert (H1 : StackedBar.reachable String_ascending sampleData c1)
    by apply StackedBar.reachable_handle, H0.
  assert (H2 : StackedBar.reachable String_ascending sampleData c2)
    by apply StackedBar.reachable_handle, H1.
  assert (H3 : StackedBar.reachable String_ascending sampleData c3)
    by apply StackedBar.reachable_handle, H2.
  assert (N0 : StackedBar.navigationState c0 = StackedBar.Overview)
    by (vm_compute; reflexivity).
  assert (N1 : StackedBar.navigationState c1
               = StackedBar.PrimaryFiltered (JStr "Grass"))
    by (vm_compute; reflexivity).
  assert (N2 : StackedBar.navigationState c2
               = StackedBar.DetailList (JStr "Grass") (JStr "Poison"))
    by (vm_compute; reflexivity).
  assert (N3 : StackedBar.navigationState c3
               = StackedBar.PrimaryFiltered (JStr "Grass"))
    by (vm_compute; reflexivity).
  destruct (reachable_chart_is_consistent String_ascending sampleData c0 H0)
    as [L0 M0].
  destruct (reachable_chart_is_consistent String_ascending sampleData c1 H1)
    as [L1 M1].
  destruct (reachable_chart_is_consistent String_ascending sampleData c2 H2)
    as [L2 M2].
  destruct (reachable_chart_is_consistent String_ascending sampleData c3 H3)
    as [L3 M3].
  rewrite N0 in M0. rewrite N1 in M1. rewrite N2 in M2. rewrite N3 in M3.
  split; [repeat split; assumption|].
  split; [split; [exact N0|split; [exact L0|exact M0]]|].
  split; [split; [exact N1|split; [exact L1|exact M1]]|].
  split; [split; [exact N2|split; [exact L2|exact M2]]|].
  split; [exact N3|split; [exact L3|exact M3]].
Defined.

Lemma views_draw_the_groups_witness :
  let base := StackedBar.baseSortedCountsArray String_ascending sampleData in
  let secTypes := StackedBar.allSecondaryTypes String_ascending sampleData in
  let c :=
    StackedBar.handle String_ascending sampleData
      (StackedBar.createStackedBarChart String_ascending sampleData JNull JNull)
      (StackedBar.RectClick "None" (nth 0 base ∅)) in
  StackedBar.reachable String_ascending sampleData c
  /\ StackedBar.navigationState c = StackedBar.PrimaryFiltered (JStr "Grass")
  /\ (forall p,
        StackedBar.navigationState c = StackedBar.PrimaryFiltered p ->
        exists d,
          StackedBar.body c = StackedBar.StackedBars [d] secTypes
          /\ d ∈ base /\ getProp d "primaryType" = p)
  /\ (StackedBar.navigationState c = StackedBar.Overview -> sampleData <> [] ->
      StackedBar.body c = StackedBar.StackedBars base secTypes).
Proof.
  intros base secTypes c.
  assert (H : StackedBar.reachable String_ascending sampleData c)
    by apply StackedBar.reachable_handle, StackedBar.reachable_first.
  split; [exact H|]. split; [vm_compute; reflexivity|].
  exact (views_draw_the_groups String_ascending sampleData c H).
Defined.

Lemma segment_counts_listed_pokemon_witness :
  let base := StackedBar.baseSortedCountsArray String_ascending sampleData in
  let secTypes := StackedBar.allSecondaryTypes String_ascending sampleData in
  let d := nth 0 base ∅ in
  d ∈ base
  /\ getProp d "primaryType" = JStr "Grass"
  /\ "Poison" ∈ secTypes
  /\ "Poison" <> "total"
  /\ "Grass" <> "" /\ "Poison" <> ""
  /\ exists listed,
       listed ≡ₚ List.filter (fun x => bool_decide (Type_1 x = "Grass")
                                       && bool_decide (Type_2 x = "Poison"))
                             sampleData
       /\ getProp d "Poison" = JNum (length listed)
       /\ StackedBar.body
            (StackedBar.createStackedBarChart String_ascending sampleData
               (JStr "Grass") (JStr "Poison"))
          = if (length listed =? 0)%nat then StackedBar.NoPokemonFound
            else StackedBar.PokemonList listed.
Proof.
  intros base secTypes d.
  assert (H1 : d ∈ base).
  { apply list_elem_of_In, nth_In. vm_compute. lia. }
  assert (H2 : getProp d "primaryType" = JStr "Grass")
    by (vm_compute; reflexivity).
  assert (H3 : "Poison" ∈ secTypes).
  { apply (bool_decide_unpack _). vm_compute. exact I. }
  assert (H4 : "Poison" <> "total") by discriminate.
  assert (H5 : "Grass" <> "") by discriminate.
  assert (H6 : "Poison" <> "") by discriminate.
  split; [exact H1|]. split; [exact H2|]. split; [exact H3|].
  split; [exact H4|]. split; [exact H5|]. split; [exact H6|].
  exact (segment_counts_listed_pokemon String_ascending sampleData d
           "Grass" "Poison" H1 H2 H3 H4 H5 H6).
Defined.

Lemma list_view_sorted_by_name_witness :
  let l := [samplePokemon "Bulbasaur" "Grass" "Poison" (Some 318%Q);
            samplePokemon "Ivysaur" "Grass" "Poison" (Some 405%Q)] in
  StackedBar.body
    (StackedBar.createStackedBarChart String_ascending sampleData
       (JStr "Grass") (JStr "Poison"))
  = StackedBar.PokemonList l
  /\ l ≡ₚ List.filter
           (fun d => strictEq (JStr (Type_1 d)) (JStr "Grass")
                     && strictEq (JStr (Type_2 d)) (JStr "Poison"))
           sampleData
  /\ StronglySorted
       (fun a b => compareUnits (utf16 (Name a)) (utf16 (Name b)) <> Gt) l.
Proof.
  intros l.
  assert (H : StackedBar.body
                (StackedBar.createStackedBarChart String_ascending sampleData
                   (JStr "Grass") (JStr "Poison"))
              = StackedBar.PokemonList l) by (vm_compute; reflexivity).
  split; [exact H|].
  exact (list_view_sorted_by_name String_ascending sampleData
           (JStr "Grass") (JStr "Poison") l H).
Defined.

Lemma bars_fit_the_axis_witness :
  let base := StackedBar.baseSortedCountsArray String_ascending sampleData in
  let secTypes := StackedBar.allSecondaryTypes String_ascending sampleData in
  ("total" ∉ map Type_2 sampleData)
  /\ StackedBar.body
       (StackedBar.createStackedBarChart String_ascending sampleData
          JNull JNull)
     = StackedBar.StackedBars base secTypes
  /\ exists maxTotal,
       D3.max base (fun d => StackedBar.asNumber (getProp d "total"))
       = Some maxTotal
       /\ (0 < maxTotal)%Q
       /\ forall d, d ∈ base ->
            exists q,
              StackedBar.stackedTotal secTypes d = Some q
              /\ (1 <= q)%Q /\ (q <= maxTotal)%Q.
Proof.
  intros base secTypes.
  assert (H1 : "total" ∉ map Type_2 sampleData).
  { intros H. apply list_elem_of_In in H. vm_compute in H.
    repeat (destruct H as [H|H]; [discriminate H|]). exact H. }
  assert (H2 : StackedBar.body
                 (StackedBar.createStackedBarChart String_ascending sampleData
                    JNull JNull)
               = StackedBar.StackedBars base secTypes)
    by (vm_compute; reflexivity).
  split; [exact H1|]. split; [exact H2|].
  exact (bars_fit_the_axis String_ascending sampleData JNull JNull
           base secTypes H1 H2).
Defined.

Lemma drill_and_back_restores_view_witness :
  let base := StackedBar.baseSortedCountsArray String_ascending sampleData in
  let handleEvent := StackedBar.handle String_ascending sampleData in
  let d := nth 0 base ∅ in
  let c :=
    handleEvent
      (StackedBar.createStackedBarChart String_ascending sampleData JNull JNull)
      (StackedBar.RectClick "None" d) in
  let c' :=
    handleEvent (handleEvent c (StackedBar.RectClick "Poison" d))
                StackedBar.BackClick in
  StackedBar.reachable String_ascending sampleData c
  /\ StackedBar.navigationState c = StackedBar.PrimaryFiltered (JStr "Grass")
  /\ StackedBar.hasRect c "Poison" d = true
  /\ "Poison" <> ""
  /\ StackedBar.navigationState
       (handleEvent c (StackedBar.RectClick "Poison" d))
     = StackedBar.DetailList (JStr "Grass") (JStr "Poison")
  /\ StackedBar.body c' = StackedBar.body c
  /\ StackedBar.title c' = StackedBar.title c
  /\ StackedBar.showAllLink c' = StackedBar.showAllLink c
  /\ StackedBar.backToPrimaryLink c' = StackedBar.backToPrimaryLink c
  /\ StackedBar.effectiveFilterPrimaryType c'
     = StackedBar.effectiveFilterPrimaryType c
  /\ StackedBar.console c' = [].
Proof.
  intros base handleEvent d c c'.
  assert (H1 : StackedBar.reachable String_ascending sampleData c)
    by apply StackedBar.reachable_handle, StackedBar.reachable_first.
  assert (H2 : StackedBar.navigationState c
               = StackedBar.PrimaryFiltered (JStr "Grass"))
    by (vm_compute; reflexivity).
  assert (H3 : StackedBar.hasRect c "Poison" d = true)
    by (vm_compute; reflexivity).
  assert (H4 : "Poison" <> "") by discriminate.
  split; [exact H1|]. split; [exact H2|]. split; [exact H3|].
  split; [exact H4|].
  exact (drill_and_back_restores_view String_ascending sampleData c
           "Poison" d (JStr "Grass") H1 H2 H3 H4).
Defined.

(** ** The working set and the drawing of the parallel coordinates plot *)

Lemma Qlt_bool_true (a b : Q) : Qlt_bool a b = true <-> (a < b)%Q.
Proof.
  unfold Qlt_bool. rewrite negb_true_iff. split.
  - intros H. apply Qnot_le_lt. intros Hle. apply Qle_bool_iff in Hle.
    congruence.
  - intros H. destruct (Qle_bool b a) eqn:E; [|reflexivity].
    apply Qle_bool_iff in E. exfalso. apply (Qlt_not_le _ _ H), E.
Qed.

Lemma Qlt_bool_false (a b : Q) : Qlt_bool a b = false <-> (b <= a)%Q.
Proof.
  unfold Qlt_bool. rewrite negb_false_iff. apply Qle_bool_iff.
Qed.

Lemma filter_all {A : Type} (f : A -> bool) (l : list A) :
  (forall x, x ∈ l -> f x = true) -> List.filter f l = l.
Proof.
  induction l as [|x l IH]; intros H; [reflexivity|]. cbn [List.filter].
  rewrite (H x) by left. f_equal. apply IH. intros y Hy. apply H. right.
  exact Hy.
Qed.

Lemma filter_none {A : Type} (f : A -> bool) (l : list A) :
  (forall x, x ∈ l -> f x = false) -> List.filter f l = [].
Proof.
  induction l as [|x l IH]; intros H; [reflexivity|]. cbn [List.filter].
  rewrite (H x) by left. apply IH. intros y Hy. apply H. right. exact Hy.
Qed.

Section PcpFacts.

Import ParallelCoordinates.

Variable data : list Pokemon.
Variable clientWidth clientHeight : Z.

Abbreviation allValid := (ParallelCoordinates.allValidPokemonData data).
Abbreviation selector := (ParallelCoordinates.primaryTypesForSelector data).
Abbreviation workingSet := (ParallelCoordinates.dataToPlot data).
Abbreviation handleEvent :=
  (ParallelCoordinates.handle data clientWidth clientHeight).
Abbreviation setActive :=
  (ParallelCoordinates.setChecked data clientWidth clientHeight).
Abbreviation redraw :=
  (ParallelCoordinates.updatePlot data clientWidth clientHeight).
Abbreviation noRoom :=
  ((clientWidth - 20 - 20 <=? 0)%Z || (clientHeight - 0 - 100 <=? 50)%Z).
Abbreviation inv := (PcpView.upToDate data clientWidth clientHeight).

Lemma elem_of_selector (t : string) :
  t ∈ selector <-> t ∈ map Type_1 allValid.
Proof.
  unfold ParallelCoordinates.primaryTypesForSelector.
  rewrite Array_sort_Permutation. apply elem_of_Set_values.
Qed.

Lemma elem_of_allValid (d : Pokemon) :
  d ∈ allValid
  <-> d ∈ data /\ forall dim, dim ∈ dimensions -> is_Some (dim d).
Proof.
  unfold ParallelCoordinates.allValidPokemonData.
  rewrite elem_of_List_filter, forallb_forall.
  split; intros [H1 H2]; (split; [exact H1|]); intros dim Hdim.
  - apply list_elem_of_In in Hdim. specialize (H2 dim Hdim).
    destruct (dim d) as [v|]; [eexists; reflexivity|discriminate].
  - apply list_elem_of_In in Hdim. destruct (H2 dim Hdim) as [v ->].
    reflexivity.
Qed.

Lemma elem_of_workingSet (st : State) (d : Pokemon) :
  d ∈ workingSet st <-> d ∈ allValid /\ Type_1 d ∈ checkedTypes st.
Proof.
  unfold ParallelCoordinates.dataToPlot, ParallelCoordinates.selectedTypesArray.
  rewrite elem_of_List_filter. split.
  - intros [Hd H]. split; [exact Hd|].
    apply bool_decide_eq_true in H. apply elem_of_List_filter in H as [_ H].
    apply bool_decide_eq_true in H. exact H.
  - intros [Hd Hc]. split; [exact Hd|].
    apply bool_decide_eq_true_2, elem_of_List_filter. split.
    + apply elem_of_selector, list_elem_of_fmap.
      exists d. split; [reflexivity|exact Hd].
    + apply bool_decide_eq_true_2, Hc.
Qed.

Lemma workingSet_ext (st st' : State) :
  checkedTypes st = checkedTypes st' -> workingSet st = workingSet st'.
Proof.
  intros E.
  unfold ParallelCoordinates.dataToPlot, ParallelCoordinates.selectedTypesArray.
  rewrite E. reflexivity.
Qed.

Lemma redraw_workingSet (st : State) : workingSet (redraw st) = workingSet st.
Proof. apply workingSet_ext, updatePlot_checked. Qed.

Lemma redraw_paths (st : State) :
  pokemonPaths (redraw st) = if noRoom then [] else workingSet st.
Proof.
  unfold ParallelCoordinates.updatePlot, ParallelCoordinates.drawPcpChart.
  cbv zeta. destruct noRoom; [reflexivity|].
  destruct (length (workingSet st) =? 0) eqn:E; cbn [pokemonPaths];
    [|reflexivity].
  apply Nat.eqb_eq, length_zero_iff_nil in E. symmetry. exact E.
Qed.

Lemma redraw_infoShown (st : State) :
  infoShown (redraw st)
  = match selectedPokemon (redraw st) with
    | Some _ => infoShown st
    | None =>
        match selectedPokemon st with
        | Some _ => false
        | None => infoShown st
        end
    end.
Proof.
  rewrite updatePlot_selected.
  unfold ParallelCoordinates.updatePlot, ParallelCoordinates.drawPcpChart.
  cbv zeta.
  destruct noRoom; [|destruct (length (workingSet st) =? 0)];
    cbn [infoShown];
    (destruct (selectedPokemon st) as [sel|]; [|reflexivity]);
    destruct (List.find _ (workingSet st)); reflexivity.
Qed.

Lemma redraw_inv (st : State) :
  (infoShown st = true <-> is_Some (selectedPokemon st)) ->
  (forall sel, selectedPokemon st = Some sel ->
               sel ∈ allValid /\ noRoom = false) ->
  inv (redraw st).
Proof.
  intros Hinfo Hsel. unfold PcpView.upToDate.
  rewrite redraw_paths, redraw_workingSet, redraw_infoShown,
    updatePlot_selected.
  split; [reflexivity|].
  destruct (selectedPokemon st) as [sel|] eqn:E.
  - destruct (List.find _ (workingSet st)) as [p|].
    + split; [|intros sel' [= <-]; apply Hsel; reflexivity].
      rewrite Hinfo. split; intros _; eexists; reflexivity.
    + split; [|discriminate].
      split; [discriminate|]. intros [x [=]].
  - split; [|discriminate]. exact Hinfo.
Qed.

Lemma setActive_inv (S : gset string) (st : State) :
  inv st -> inv (setActive S st).
Proof.
  intros (_ & Hinfo & Hsel). unfold ParallelCoordinates.setChecked.
  apply redraw_inv; cbn [infoShown selectedPokemon]; assumption.
Qed.

Lemma handle_inv (ev : Event) (st : State) : inv st -> inv (handleEvent ev st).
Proof.
  intros Hst. destruct ev as [type| | |name|]; cbn [handle].
  - destruct (bool_decide _); [|exact Hst]. apply setActive_inv, Hst.
  - apply setActive_inv, Hst.
  - apply setActive_inv, Hst.
  - pose proof (find_by_name (pokemonPaths st) name) as Hfind.
    destruct (List.find _ (pokemonPaths st)) as [d|]; [|exact Hst].
    destruct Hst as (Hpaths & Hinfo & Hsel), Hfind as [Hd _].
    unfold PcpView.upToDate, pathClick.
    cbn [pokemonPaths infoShown selectedPokemon].
    split; [exact Hpaths|]. split.
    + split; intros _; [eexists|]; reflexivity.
    + intros sel [= <-]. rewrite Hpaths in Hd.
      destruct noRoom; [apply elem_of_nil in Hd; destruct Hd|].
      split; [|reflexivity]. apply elem_of_workingSet in Hd as [Hd _].
      exact Hd.
  - destruct (infoShown st); [|exact Hst].
    destruct Hst as (Hpaths & _ & _).
    unfold PcpView.upToDate, closeClick.
    cbn [pokemonPaths infoShown selectedPokemon].
    split; [exact Hpaths|]. split; [|discriminate].
    split; [discriminate|]. intros [x [=]].
Qed.

Lemma reachable_inv (st : State) :
  reachable data clientWidth clientHeight st -> inv st.
Proof.
  induction 1 as [|ev st _ IH].
  - unfold initialState. apply redraw_inv; cbn [infoShown selectedPokemon].
    + split; [discriminate|]. intros [x [=]].
    + discriminate.
  - apply handle_inv, IH.
Qed.

(** X16.  The working set of a state is the data restricted to the
    Pokemon whose six statistics are all numbers and whose primary type
    is checked. *)
Theorem working_set_is_checked_valid_data (st : State) (d : Pokemon) :
  d ∈ workingSet st
  <-> d ∈ data
      /\ (forall dim, dim ∈ dimensions -> is_Some (dim d))
      /\ Type_1 d ∈ checkedTypes st.
Proof.
  rewrite elem_of_workingSet, elem_of_allValid. tauto.
Qed.

(** X17.  In every state the plot can get to: when the chart has room
    (more than 40 wide and more than 150 high) the drawing has one path
    for each Pokemon of the working set and no other (in whatever order
    they are stacked); without room there is no path and nothing can be
    selected; and the info box is shown exactly while a Pokemon is
    selected. *)
Theorem drawing_shows_working_set (st : State) :
  reachable data clientWidth clientHeight st ->
  ((40 < clientWidth /\ 150 < clientHeight)%Z ->
   pokemonPaths st ≡ₚ dataToPlot data st)
  /\ (~ (40 < clientWidth /\ 150 < clientHeight)%Z ->
      pokemonPaths st = [] /\ selectedPokemon st = None)
  /\ (infoShown st = true <-> is_Some (selectedPokemon st)).
Proof.
  intros Hreach. destruct (reachable_inv st Hreach) as (Hpaths & Hinfo & Hsel).
  split; [|split; [|exact Hinfo]].
  - intros [Hw Hh]. rewrite Hpaths.
    replace noRoom with false; [reflexivity|].
    symmetry. apply orb_false_iff. split; apply Z.leb_gt; lia.
  - intros Hno.
    assert (E : noRoom = true).
    { destruct noRoom eqn:E; [reflexivity|].
      apply orb_false_iff in E as [E1 E2]. apply Z.leb_gt in E1, E2.
      exfalso. apply Hno. lia. }
    split; [rewrite Hpaths, E; reflexivity|].
    destruct (selectedPokemon st) as [sel|]; [|reflexivity].
    destruct (Hsel sel eq_refl) as [_ Hroom]. congruence.
Qed.

(** X18.  In every state the plot can get to, Select All makes the
    working set all the valid Pokemon; Deselect All empties the working
    set and the drawing, clears the selection and hides the info box. *)
Theorem select_all_and_deselect_all (st : State) :
  reachable data clientWidth clientHeight st ->
  workingSet (handleEvent SelectAllClick st) = allValid
  /\ workingSet (handleEvent DeselectAllClick st) = []
  /\ pokemonPaths (handleEvent DeselectAllClick st) = []
  /\ selectedPokemon (handleEvent DeselectAllClick st) = None
  /\ infoShown (handleEvent DeselectAllClick st) = false.
Proof.
  intros Hreach. cbn [handle]. unfold ParallelCoordinates.setChecked.
  assert (Hnone :
    workingSet (mkState (selectedPokemon st) ∅ (pokemonPaths st) (infoShown st))
    = []).
  { apply filter_none. intros d _. apply bool_decide_eq_false_2.
    intros H. apply elem_of_List_filter in H as [_ H].
    apply bool_decide_eq_true in H. cbn [checkedTypes] in H.
    apply not_elem_of_empty in H. exact H. }
  assert (Hsel :
    selectedPokemon
      (redraw (mkState (selectedPokemon st) ∅ (pokemonPaths st) (infoShown st)))
    = None).
  { rewrite updatePlot_selected, Hnone. cbn [selectedPokemon List.find].
    destruct (selectedPokemon st); reflexivity. }
  rewrite !redraw_workingSet, redraw_paths, redraw_infoShown, Hsel, Hnone.
  split; [|split; [reflexivity|split; [destruct noRoom; reflexivity|]]].
  - apply filter_all. intros d Hd. apply bool_decide_eq_true_2.
    apply elem_of_List_filter. split.
    + apply elem_of_selector, list_elem_of_fmap.
      exists d. split; [reflexivity|exact Hd].
    + apply bool_decide_eq_true_2. cbn [checkedTypes].
      apply elem_of_list_to_set, elem_of_selector, list_elem_of_fmap.
      exists d. split; [reflexivity|exact Hd].
  - split; [reflexivity|]. cbn [selectedPokemon infoShown].
    destruct (reachable_inv st Hreach) as (_ & Hinfo & _).
    destruct (selectedPokemon st) as [sel|]; [reflexivity|].
    destruct (infoShown st); [|reflexivity].
    destruct (proj1 Hinfo eq_refl) as [x [=]].
Qed.

(** X19.  In every state the plot can get to, a change of the same
    checkbox twice restores the checked types and the working set, and
    the drawing has again the paths of the same Pokemon (in whatever
    order they are stacked). *)
Theorem checkbox_toggled_twice (type : string) (st : State) :
  reachable data clientWidth clientHeight st ->
  checkedTypes (handleEvent (CheckboxChange type)
                  (handleEvent (CheckboxChange type) st))
  = checkedTypes st
  /\ workingSet (handleEvent (CheckboxChange type)
                   (handleEvent (CheckboxChange type) st))
     = workingSet st
  /\ pokemonPaths (handleEvent (CheckboxChange type)
                     (handleEvent (CheckboxChange type) st))
     ≡ₚ pokemonPaths st.
Proof.
  intros Hreach.
  assert (Hchk :
    checkedTypes (handleEvent (CheckboxChange type)
                    (handleEvent (CheckboxChange type) st))
    = checkedTypes st).
  { cbn [handle]. destruct (bool_decide (type ∈ selector)); [|reflexivity].
    unfold ParallelCoordinates.setChecked. rewrite !updatePlot_checked.
    cbn [checkedTypes]. apply set_eq. intros x.
    destruct (decide (type ∈ checkedTypes st)) as [Hin|Hout].
    - rewrite (bool_decide_eq_true_2 _ Hin).
      rewrite bool_decide_eq_false_2.
      2:{ intros H. apply elem_of_difference in H as [_ H].
          apply H, elem_of_singleton. reflexivity. }
      rewrite elem_of_union, elem_of_difference, elem_of_singleton.
      destruct (decide (x = type)) as [->|Hne]; tauto.
    - rewrite (bool_decide_eq_false_2 _ Hout).
      rewrite bool_decide_eq_true_2.
      2:{ apply elem_of_union. right. apply elem_of_singleton. reflexivity. }
      rewrite elem_of_difference, elem_of_union, elem_of_singleton.
      split.
      + intros [[H|H] Hn]; [exact H|contradiction].
      + intros H. split; [left; exact H|]. intros ->. contradiction. }
  split; [exact Hchk|].
  pose proof (workingSet_ext _ _ Hchk) as Hws. split; [exact Hws|].
  assert (H2 : reachable data clientWidth clientHeight
                 (handleEvent (CheckboxChange type)
                    (handleEvent (CheckboxChange type) st)))
    by (do 2 apply reachable_handle; exact Hreach).
  destruct (reachable_inv _ H2) as (-> & _).
  destruct (reachable_inv _ Hreach) as (-> & _).
  rewrite Hws. reflexivity.
Qed.

(** X20.  In every state the plot can get to, the selection outlives a
    change of the checked types that leaves its primary type checked:
    the same Pokemon stays selected and the info box stays open. *)
Theorem selection_survives_while_its_type_is_checked (S : gset string)
    (st : State) (sel : Pokemon) :
  reachable data clientWidth clientHeight st ->
  selectedPokemon st = Some sel ->
  Type_1 sel ∈ S ->
  selectedPokemon (setActive S st) = Some sel
  /\ infoShown (setActive S st) = true
  /\ sel ∈ workingSet (setActive S st).
Proof.
  intros Hreach Hsel HS.
  destruct (reachable_inv st Hreach) as (_ & Hinfo & Hvalid).
  destruct (Hvalid sel Hsel) as [Hval _].
  assert (Hws : sel ∈ workingSet (mkState (selectedPokemon st) S
                                    (pokemonPaths st) (infoShown st))).
  { apply elem_of_workingSet. split; [exact Hval|exact HS]. }
  assert (Hkeep : selectedPokemon (setActive S st) = Some sel).
  { unfold ParallelCoordinates.setChecked. rewrite updatePlot_selected.
    cbn [selectedPokemon]. rewrite Hsel.
    pose proof (find_by_name
                  (workingSet (mkState (Some sel) S (pokemonPaths st)
                                 (infoShown st)))
                  (Name sel)) as Hfind.
    rewrite Hsel in Hws.
    destruct (List.find _ _) as [p|]; [reflexivity|].
    exfalso. apply (Hfind sel Hws). reflexivity. }
  split; [exact Hkeep|]. split.
  - unfold ParallelCoordinates.setChecked in *.
    rewrite redraw_infoShown, Hkeep. cbn [infoShown].
    apply Hinfo. rewrite Hsel. eexists. reflexivity.
  - unfold ParallelCoordinates.setChecked. rewrite redraw_workingSet.
    exact Hws.
Qed.

(** X21.  When the names of the valid Pokemon are unique, in every state
    the plot can get to with a selected Pokemon, the selected Pokemon
    has a path in the drawing, its path is the one drawn wide and
    opaque, and every other path is drawn thin and faded; in a state
    without a selection all paths are drawn alike. *)
Theorem selected_path_is_the_emphasised_one (st : State) :
  NoDup (map Name allValid) ->
  reachable data clientWidth clientHeight st ->
  match selectedPokemon st with
  | Some sel =>
      sel ∈ pokemonPaths st
      /\ forall d, d ∈ pokemonPaths st ->
           (d = sel ->
            PcpView.lineStyle (selectedPokemon st) d = (3.5, 1)%Q)
           /\ (d <> sel ->
               PcpView.lineStyle (selectedPokemon st) d = (2, 0.05)%Q)
  | None =>
      forall d, d ∈ pokemonPaths st ->
        PcpView.lineStyle (selectedPokemon st) d = (2, 0.5)%Q
  end.
Proof.
  intros Hnames Hreach.
  destruct (reachable_inv st Hreach) as (Hpaths & _ & Hvalid).
  destruct (reachable_consistent data clientWidth clientHeight Hnames st Hreach)
    as [Hsub Hin].
  destruct (selectedPokemon st) as [sel|] eqn:Hsel.
  - destruct (Hvalid sel eq_refl) as [Hval Hroom].
    rewrite Hroom in Hpaths. split.
    + rewrite Hpaths. apply Hin. reflexivity.
    + intros d Hd. unfold PcpView.lineStyle, PcpView.isSelected.
      cbn [andb negb orb]. split.
      * intros ->. rewrite String.eqb_refl. reflexivity.
      * intros Hne. destruct (String.eqb_spec (Name d) (Name sel)) as [E|E];
          [|reflexivity].
        exfalso. apply Hne.
        apply (same_name_same_pokemon data Hnames); [| |exact E].
        -- apply (workingSet_valid data st), Hsub, Hd.
        -- exact Hval.
  - intros d _. reflexivity.
Qed.

End PcpFacts.

(** ** The range of the axes of the parallel coordinates plot *)

Section RangeFacts.

Import PcpView.

Lemma rangeStep_ordered (acc : option Q * option Q) (val : option Q) :
  ordered acc -> ordered (rangeStep acc val).
Proof.
  destruct val as [v|]; [|intros H; exact H].
  destruct acc as [[lo|] [hi|]]; cbn; try contradiction.
  - intros Hle.
    destruct (Qlt_bool v lo) eqn:E1, (Qlt_bool hi v) eqn:E2;
      try apply Qlt_bool_true in E1; try apply Qlt_bool_true in E2;
      try apply Qlt_bool_false in E1; try apply Qlt_bool_false in E2; lra.
  - intros _. apply Qle_refl.
Qed.

Lemma rangeStep_covers_new (acc : option Q * option Q) (v : Q) :
  ordered acc -> covers (rangeStep acc (Some v)) v.
Proof.
  destruct acc as [[lo|] [hi|]]; cbn; try contradiction.
  - intros Hle.
    destruct (Qlt_bool v lo) eqn:E1, (Qlt_bool hi v) eqn:E2;
      try apply Qlt_bool_true in E1; try apply Qlt_bool_true in E2;
      try apply Qlt_bool_false in E1; try apply Qlt_bool_false in E2; lra.
  - intros _. split; apply Qle_refl.
Qed.

Lemma rangeStep_covers_old (acc : option Q * option Q) (val : option Q)
    (w : Q) :
  covers acc w -> covers (rangeStep acc val) w.
Proof.
  destruct val as [v|]; [|intros H; exact H].
  destruct acc as [[lo|] [hi|]]; cbn; try contradiction.
  intros [H1 H2].
  destruct (Qlt_bool v lo) eqn:E1, (Qlt_bool hi v) eqn:E2;
    try apply Qlt_bool_true in E1; try apply Qlt_bool_true in E2;
    try apply Qlt_bool_false in E1; try apply Qlt_bool_false in E2; lra.
Qed.

(** Each bound is the initial one or one of the values. *)
Lemma rangeStep_origin (acc : option Q * option Q) (val : option Q) :
  (fst (rangeStep acc val) = fst acc \/ fst (rangeStep acc val) = val)
  /\ (snd (rangeStep acc val) = snd acc \/ snd (rangeStep acc val) = val).
Proof.
  destruct val as [v|]; [|split; left; reflexivity].
  destruct acc as [[lo|] [hi|]]; cbn;
    try destruct (Qlt_bool v lo); try destruct (Qlt_bool hi v); auto.
Qed.

Lemma range_loop (vals : list (option Q)) (acc : option Q * option Q) :
  ordered acc ->
  ordered (fold_left rangeStep vals acc)
  /\ (forall w, covers acc w -> covers (fold_left rangeStep vals acc) w)
  /\ (forall v, Some v ∈ vals -> covers (fold_left rangeStep vals acc) v)
  /\ (fst (fold_left rangeStep vals acc) = fst acc
      \/ fst (fold_left rangeStep vals acc) ∈ vals)
  /\ (snd (fold_left rangeStep vals acc) = snd acc
      \/ snd (fold_left rangeStep vals acc) ∈ vals).
Proof.
  revert acc. induction vals as [|x vals IH]; intros acc Hacc.
  - cbn [fold_left]. split; [exact Hacc|]. split; [auto|].
    split; [intros v H; apply elem_of_nil in H; destruct H|].
    split; left; reflexivity.
  - cbn [fold_left].
    destruct (IH (rangeStep acc x) (rangeStep_ordered acc x Hacc))
      as (Hord & Hold & Hnew & Hlo & Hhi).
    destruct (rangeStep_origin acc x) as [Olo Ohi].
    split; [exact Hord|]. split; [|split; [|split]].
    + intros w Hw. apply Hold, rangeStep_covers_old, Hw.
    + intros v Hv. apply elem_of_cons in Hv as [<-|Hv].
      * apply Hold, rangeStep_covers_new, Hacc.
      * apply Hnew, Hv.
    + destruct Hlo as [Hlo|Hlo]; [|right; right; exact Hlo].
      rewrite Hlo. destruct Olo as [->| ->]; [left; reflexivity|right; left].
    + destruct Hhi as [Hhi|Hhi]; [|right; right; exact Hhi].
      rewrite Hhi. destruct Ohi as [->| ->]; [left; reflexivity|right; left].
Qed.

Lemma dataRange_flat (plotData : list Pokemon) (acc : option Q * option Q) :
  fold_left
    (fun acc d =>
       fold_left (fun acc dim => rangeStep acc (dim d))
                 ParallelCoordinates.dimensions acc)
    plotData acc
  = fold_left rangeStep
      (flat_map (fun d => map (fun dim => dim d) ParallelCoordinates.dimensions)
                plotData)
      acc.
Proof.
  revert acc. induction plotData as [|d l IH]; intros acc; [reflexivity|].
  cbn [fold_left flat_map]. rewrite fold_left_app, IH. reflexivity.
Qed.

Lemma elem_of_values (plotData : list Pokemon) (val : option Q) :
  val ∈ flat_map (fun d => map (fun dim => dim d) ParallelCoordinates.dimensions)
                 plotData
  <-> exists d dim,
        d ∈ plotData /\ dim ∈ ParallelCoordinates.dimensions /\ dim d = val.
Proof.
  rewrite list_elem_of_In, in_flat_map. split.
  - intros (d & Hd & Hv). apply in_map_iff in Hv as (dim & E & Hdim).
    exists d, dim. rewrite !list_elem_of_In. auto.
  - intros (d & dim & Hd & Hdim & E). exists d.
    rewrite list_elem_of_In in Hd. split; [exact Hd|].
    apply in_map_iff. exists dim. rewrite list_elem_of_In in Hdim. auto.
Qed.

(** X22.  For a drawing of at least one Pokemon, all of them valid, the
    loop over the values ends with both bounds set (the branch for an
    invalid range is dead); every value of every axis lies between the
    two bounds, and each bound is one of the values. *)
Theorem data_range_bounds_the_values (data plotData : list Pokemon) :
  plotData <> [] ->
  (forall d, d ∈ plotData -> d ∈ ParallelCoordinates.allValidPokemonData data) ->
  exists globalMin globalMax,
    dataRange plotData = (Some globalMin, Some globalMax)
    /\ (globalMin <= globalMax)%Q
    /\ (forall d dim v,
          d ∈ plotData -> dim ∈ ParallelCoordinates.dimensions ->
          dim d = Some v -> (globalMin <= v /\ v <= globalMax)%Q)
    /\ (exists d dim,
          d ∈ plotData /\ dim ∈ ParallelCoordinates.dimensions
          /\ dim d = Some globalMin)
    /\ (exists d dim,
          d ∈ plotData /\ dim ∈ ParallelCoordinates.dimensions
          /\ dim d = Some globalMax).
Proof.
  intros Hne Hvalid. unfold dataRange. rewrite dataRange_flat.
  set (vals := flat_map _ plotData).
  destruct (range_loop vals (None, None) I) as (Hord & _ & Hnew & Hlo & Hhi).
  assert (Hex : exists d0, d0 ∈ plotData).
  { destruct plotData as [|d0 rest]; [congruence|]. exists d0. left. }
  destruct Hex as [d0 Hd0].
  assert (H0 : exists v, HP d0 = Some v).
  { destruct (proj1 (elem_of_allValid data d0) (Hvalid d0 Hd0)) as [_ Hdims].
    apply Hdims. left. }
  destruct H0 as [v0 Hv0].
  assert (Hin0 : Some v0 ∈ vals).
  { apply elem_of_values. exists d0, HP. split; [exact Hd0|].
    split; [left|exact Hv0]. }
  pose proof (Hnew v0 Hin0) as Hcov.
  destruct (fold_left rangeStep vals (None, None)) as [[lo|] [hi|]];
    cbn in Hcov, Hord; try contradiction.
  exists lo, hi. split; [reflexivity|]. split; [exact Hord|].
  split; [|split].
  - intros d dim v Hd Hdim Hv. apply (Hnew v). apply elem_of_values.
    exists d, dim. auto.
  - cbn [fst] in Hlo. destruct Hlo as [[=]|Hlo].
    apply elem_of_values in Hlo. exact Hlo.
  - cbn [snd] in Hhi. destruct Hhi as [[=]|Hhi].
    apply elem_of_values in Hhi. exact Hhi.
Qed.

End RangeFacts.

Lemma drawing_shows_working_set_witness :
  let st :=
    ParallelCoordinates.handle sampleData 800 600
      (ParallelCoordinates.PathClick "Charmander")
      (ParallelCoordinates.initialState sampleData 800 600) in
  ParallelCoordinates.reachable sampleData 800 600 st
  /\ ((40 < 800 /\ 150 < 600)%Z ->
      ParallelCoordinates.pokemonPaths st
      ≡ₚ ParallelCoordinates.dataToPlot sampleData st)
  /\ (~ (40 < 800 /\ 150 < 600)%Z ->
      ParallelCoordinates.pokemonPaths st = []
      /\ ParallelCoordinates.selectedPokemon st = None)
  /\ (ParallelCoordinates.infoShown st = true
      <-> is_Some (ParallelCoordinates.selectedPokemon st)).
Proof.
  intros st.
  assert (H : ParallelCoordinates.reachable sampleData 800 600 st)
    by apply ParallelCoordinates.reachable_handle,
             ParallelCoordinates.reachable_initial.
  split; [exact H|].
  exact (drawing_shows_working_set sampleData 800 600 st H).
Defined.

Lemma select_all_and_deselect_all_witness :
  let handleEvent := ParallelCoordinates.handle sampleData 800 600 in
  let st :=
    handleEvent (ParallelCoordinates.PathClick "Charmander")
      (ParallelCoordinates.initialState sampleData 800 600) in
  ParallelCoordinates.reachable sampleData 800 600 st
  /\ ParallelCoordinates.dataToPlot sampleData
       (handleEvent ParallelCoordinates.SelectAllClick st)
     = ParallelCoordinates.allValidPokemonData sampleData
  /\ ParallelCoordinates.dataToPlot sampleData
       (handleEvent ParallelCoordinates.DeselectAllClick st) = []
  /\ ParallelCoordinates.pokemonPaths
       (handleEvent ParallelCoordinates.DeselectAllClick st) = []
  /\ ParallelCoordinates.selectedPokemon
       (handleEvent ParallelCoordinates.DeselectAllClick st) = None
  /\ ParallelCoordinates.infoShown
       (handleEvent ParallelCoordinates.DeselectAllClick st) = false.
Proof.
  intros handleEvent st.
  assert (H : ParallelCoordinates.reachable sampleData 800 600 st)
    by apply ParallelCoordinates.reachable_handle,
             ParallelCoordinates.reachable_initial.
  split; [exact H|].
  exact (select_all_and_deselect_all sampleData 800 600 st H).
Defined.

Lemma checkbox_toggled_twice_witness :
  let handleEvent := ParallelCoordinates.handle sampleData 800 600 in
  let st :=
    handleEvent (ParallelCoordinates.PathClick "Charmander")
      (ParallelCoordinates.initialState sampleData 800 600) in
  let st' :=
    handleEvent (ParallelCoordinates.CheckboxChange "Fire")
      (handleEvent (ParallelCoordinates.CheckboxChange "Fire") st) in
  ParallelCoordinates.reachable sampleData 800 600 st
  /\ ParallelCoordinates.checkedTypes st' = ParallelCoordinates.checkedTypes st
  /\ ParallelCoordinates.dataToPlot sampleData st'
     = ParallelCoordinates.dataToPlot sampleData st
  /\ ParallelCoordinates.pokemonPaths st'
     ≡ₚ ParallelCoordinates.pokemonPaths st.
Proof.
  intros handleEvent st st'.
  assert (H : ParallelCoordinates.reachable sampleData 800 600 st)
    by apply ParallelCoordinates.reachable_handle,
             ParallelCoordinates.reachable_initial.
  split; [exact H|].
  exact (checkbox_toggled_twice sampleData 800 600 "Fire" st H).
Defined.

Lemma selection_survives_while_its_type_is_checked_witness :
  let st :=
    ParallelCoordinates.handle sampleData 800 600
      (ParallelCoordinates.PathClick "Charmander")
      (ParallelCoordinates.initialState sampleData 800 600) in
  let sel := samplePokemon "Charmander" "Fire" "None" (Some 309%Q) in
  let S : gset string := {[ "Fire" ]} in
  ParallelCoordinates.reachable sampleData 800 600 st
  /\ ParallelCoordinates.selectedPokemon st = Some sel
  /\ Type_1 sel ∈ S
  /\ ParallelCoordinates.selectedPokemon
       (ParallelCoordinates.setChecked sampleData 800 600 S st) = Some sel
  /\ ParallelCoordinates.infoShown
       (ParallelCoordinates.setChecked sampleData 800 600 S st) = true
  /\ sel ∈ ParallelCoordinates.dataToPlot sampleData
             (ParallelCoordinates.setChecked sampleData 800 600 S st).
Proof.
  intros st sel S.
  assert (H1 : ParallelCoordinates.reachable sampleData 800 600 st)
    by apply ParallelCoordinates.reachable_handle,
             ParallelCoordinates.reachable_initial.
  assert (H2 : ParallelCoordinates.selectedPokemon st = Some sel)
    by (vm_compute; reflexivity).
  assert (H3 : Type_1 sel ∈ S) by (apply elem_of_singleton; reflexivity).
  split; [exact H1|]. split; [exact H2|]. split; [exact H3|].
  exact (selection_survives_while_its_type_is_checked sampleData 800 600
           S st sel H1 H2 H3).
Defined.

Lemma selected_path_is_the_emphasised_one_witness :
  let st :=
    ParallelCoordinates.handle sampleData 800 600
      (ParallelCoordinates.PathClick "Charmander")
      (ParallelCoordinates.initialState sampleData 800 600) in
  NoDup (map Name (ParallelCoordinates.allValidPokemonData sampleData))
  /\ ParallelCoordinates.reachable sampleData 800 600 st
  /\ match ParallelCoordinates.selectedPokemon st with
     | Some sel =>
         sel ∈ ParallelCoordinates.pokemonPaths st
         /\ forall d, d ∈ ParallelCoordinates.pokemonPaths st ->
              (d = sel ->
               PcpView.lineStyle (ParallelCoordinates.selectedPokemon st) d
               = (3.5, 1)%Q)
              /\ (d <> sel ->
                  PcpView.lineStyle (ParallelCoordinates.selectedPokemon st) d
                  = (2, 0.05)%Q)
     | None =>
         forall d, d ∈ ParallelCoordinates.pokemonPaths st ->
           PcpView.lineStyle (ParallelCoordinates.selectedPokemon st) d
           = (2, 0.5)%Q
     end.
Proof.
  intros st.
  assert (H1 : NoDup (map Name (ParallelCoordinates.allValidPokemonData
                                  sampleData))).
  { apply (bool_decide_unpack _). vm_compute. exact I. }
  assert (H2 : ParallelCoordinates.reachable sampleData 800 600 st)
    by apply ParallelCoordinates.reachable_handle,
             ParallelCoordinates.reachable_initial.
  split; [exact H1|]. split; [exact H2|].
  exact (selected_path_is_the_emphasised_one sampleData 800 600 st H1 H2).
Defined.

Lemma data_range_bounds_the_values_witness :
  sampleData <> []
  /\ (forall d, d ∈ sampleData ->
                d ∈ ParallelCoordinates.allValidPokemonData sampleData)
  /\ exists globalMin globalMax,
       PcpView.dataRange sampleData = (Some globalMin, Some globalMax)
       /\ (globalMin <= globalMax)%Q
       /\ (forall d dim v,
             d ∈ sampleData -> dim ∈ ParallelCoordinates.dimensions ->
             dim d = Some v -> (globalMin <= v /\ v <= globalMax)%Q)
       /\ (exists d dim,
             d ∈ sampleData /\ dim ∈ ParallelCoordinates.dimensions
             /\ dim d = Some globalMin)
       /\ (exists d dim,
             d ∈ sampleData /\ dim ∈ ParallelCoordinates.dimensions
             /\ dim d = Some globalMax).
Proof.
  assert (H1 : sampleData <> []) by discriminate.
  assert (H2 : forall d, d ∈ sampleData ->
                 d ∈ ParallelCoordinates.allValidPokemonData sampleData)
    by (intros d Hd; exact Hd).
  split; [exact H1|]. split; [exact H2|].
  exact (data_range_bounds_the_values sampleData sampleData H1 H2).
Defined.

(** ** The legend of the stacked bar chart *)

Section LegendFacts.

Import Legend.

Lemma numColumns_eq : numColumns = 2%Z.
Proof. reflexivity. Qed.

Lemma itemsPerColumn_eq (n : nat) :
  itemsPerColumn n = (- (- Z.of_nat n / 2))%Z.
Proof.
  unfold itemsPerColumn, Qceiling. rewrite numColumns_eq. f_equal.
  rewrite Zdiv_Qdiv. apply Qfloor_comp. rewrite inject_Z_opp.
  unfold Qdiv. ring.
Qed.

Lemma itemsPerColumn_bounds (n : nat) :
  (Z.of_nat n <= 2 * itemsPerColumn n < Z.of_nat n + 2)%Z.
Proof.
  rewrite itemsPerColumn_eq.
  pose proof (Z.div_mod (- Z.of_nat n) 2 ltac:(lia)) as Hdm.
  pose proof (Z.mod_pos_bound (- Z.of_nat n) 2 ltac:(lia)) as Hm.
  lia.
Qed.

Lemma legendTransform_eq (n i : nat) :
  i < n ->
  legendTransform n i
  = ((Z.of_nat i / itemsPerColumn n * legendItemWidth)%Z,
     (Z.of_nat i mod itemsPerColumn n * legendItemHeight)%Z).
Proof.
  intros Hi. pose proof (itemsPerColumn_bounds n) as Hb.
  unfold legendTransform. cbv zeta.
  rewrite <- Zdiv_Qdiv, Z.rem_mod_nonneg by lia. reflexivity.
Qed.

(** X23.  The legend has at most two columns, which fit the part of the
    right margin kept for it; the items of a column stack without
    overlap within the height of the column; and no two items share a
    position. *)
Theorem legend_items_do_not_overlap (n i j : nat) :
  i < n -> j < n ->
  (0 <= fst (legendTransform n i)
   /\ fst (legendTransform n i) + legendItemWidth <= marginRight - 20
   /\ 0 <= snd (legendTransform n i)
   /\ snd (legendTransform n i) + legendItemHeight
      <= itemsPerColumn n * legendItemHeight)%Z
  /\ (legendTransform n i = legendTransform n j -> i = j).
Proof.
  intros Hi Hj. pose proof (itemsPerColumn_bounds n) as Hb.
  rewrite !legendTransform_eq by assumption. cbn [fst snd].
  set (c := itemsPerColumn n) in *.
  assert (Hc : (0 < c)%Z) by lia.
  pose proof (Z.div_mod (Z.of_nat i) c ltac:(lia)) as Hdi.
  pose proof (Z.mod_pos_bound (Z.of_nat i) c Hc) as Hmi.
  pose proof (Z.div_mod (Z.of_nat j) c ltac:(lia)) as Hdj.
  pose proof (Z.mod_pos_bound (Z.of_nat j) c Hc) as Hmj.
  assert (Hqi : (0 <= Z.of_nat i / c < 2)%Z).
  { split; [apply Z.div_pos; lia|apply Z.div_lt_upper_bound; lia]. }
  unfold legendItemWidth, legendItemHeight, marginRight.
  split; [lia|].
  intros [= Hx Hy].
  assert (Ex : (Z.of_nat i / c = Z.of_nat j / c)%Z) by lia.
  assert (Ey : (Z.of_nat i mod c = Z.of_nat j mod c)%Z) by lia.
  rewrite Ex, Ey, <- Hdj in Hdi. lia.
Qed.

End LegendFacts.

Lemma legend_items_do_not_overlap_witness :
  3 < 5 /\ 1 < 5
  /\ (0 <= fst (Legend.legendTransform 5 3)
      /\ fst (Legend.legendTransform 5 3) + Legend.legendItemWidth
         <= Legend.marginRight - 20
      /\ 0 <= snd (Legend.legendTransform 5 3)
      /\ snd (Legend.legendTransform 5 3) + Legend.legendItemHeight
         <= Legend.itemsPerColumn 5 * Legend.legendItemHeight)%Z
  /\ (Legend.legendTransform 5 3 = Legend.legendTransform 5 1 -> 3 = 1).
Proof.
  assert (H1 : 3 < 5) by lia.
  assert (H2 : 1 < 5) by lia.
  split; [exact H1|]. split; [exact H2|].
  exact (legend_items_do_not_overlap 5 3 1 H1 H2).
Defined.

Example legend_of_five :
  map (Legend.legendTransform 5) [0; 1; 2; 3; 4]
  = [(0, 0); (0, 15); (0, 30); (70, 0); (70, 15)]%Z.
Proof. reflexivity. Qed.

(** ** The zoomed axis of the static ridgeline plot *)

(** X24.  In exact arithmetic, the labels of the zoomed density axis are
    the densities scaled by a factor that is not negative and that
    takes the top of the axis domain to the number of valid totals of
    the clicked generation. *)
Theorem zoomed_axis_counts_pokemon (ticks : list Q) (d_clicked : GenerationData) :
  (0 <= ZoomAxis.tickDisplayMultiplier ticks d_clicked)%Q
  /\ (ZoomAxis.tickDisplayMultiplier ticks d_clicked
      * RidgelineStatic.maxDensityForDomain
          (RidgelineStatic.ridgeClick ticks d_clicked)
      == inject_Z (Z.of_nat (length (validTotals (values d_clicked)))))%Q.
Proof.
  unfold ZoomAxis.tickDisplayMultiplier, RidgelineStatic.ridgeClick.
  cbn [RidgelineStatic.N_valid_points RidgelineStatic.calculatedMaxDensity
       RidgelineStatic.maxDensityForDomain].
  set (N := length (validTotals (values d_clicked))).
  assert (HN : (0 <= inject_Z (Z.of_nat N))%Q).
  { change 0%Q with (inject_Z 0). rewrite <- Zle_Qle. lia. }
  destruct (N =? 0) eqn:E0.
  - apply Nat.eqb_eq in E0. rewrite E0. split; [apply Qle_refl|].
    cbn. ring.
  - destruct (D3.max _ snd) as [m|]; [|split; [exact HN|ring]].
    destruct (Qlt_bool 0 m) eqn:Em; [|split; [exact HN|ring]].
    apply Qlt_bool_true in Em. split.
    + apply Qle_shift_div_l; [exact Em|]. rewrite Qmult_0_l. exact HN.
    + field. intros Hm. rewrite Hm in Em. apply (Qlt_irrefl 0), Em.
Qed.

(** ** The generations of the animated ridgeline plot *)

Lemma filter_map_comm {A B : Type} (P : B -> bool) (f : A -> B) (l : list A) :
  List.filter P (map f l) = map f (List.filter (fun x => P (f x)) l).
Proof.
  induction l as [|x l IH]; [reflexivity|]. cbn [map List.filter].
  destruct (P (f x)); cbn [map]; rewrite IH; reflexivity.
Qed.

Lemma StronglySorted_filter {A : Type} (R : A -> A -> Prop) (P : A -> bool)
    (l : list A) :
  StronglySorted R l -> StronglySorted R (List.filter P l).
Proof.
  induction 1 as [|x l Hs IH Hx]; cbn [List.filter]; [constructor|].
  destruct (P x); [|exact IH]. constructor; [exact IH|].
  rewrite Forall_forall in Hx |- *. intros y Hy.
  apply elem_of_List_filter in Hy as [Hy _]. apply Hx, Hy.
Qed.

Lemma NoDup_map_filter {A B : Type} (f : A -> B) (P : A -> bool)
    (l : list A) :
  NoDup (map f l) -> NoDup (map f (List.filter P l)).
Proof.
  induction l as [|x l IH]; cbn [map List.filter]; intros H; [exact H|].
  apply NoDup_cons in H as [Hx H]. destruct (P x); [|apply IH, H].
  cbn [map]. apply NoDup_cons. split; [|apply IH, H].
  intros Hin. apply Hx. apply list_elem_of_fmap in Hin as (y & E & Hy).
  apply elem_of_List_filter in Hy as [Hy _].
  apply list_elem_of_fmap. exists y. auto.
Qed.

Lemma sort_insert_map {A B : Type} (compareFn : B -> B -> Z) (f : A -> B)
    (x : A) (l : list A) :
  sort_insert compareFn (f x) (map f l)
  = map f (sort_insert (fun a b => compareFn (f a) (f b)) x l).
Proof.
  induction l as [|y l IH]; [reflexivity|]. cbn [map sort_insert].
  destruct (compareFn (f x) (f y) <=? 0)%Z; [reflexivity|].
  cbn [map]. rewrite IH. reflexivity.
Qed.

Lemma Array_sort_map {A B : Type} (compareFn : B -> B -> Z) (f : A -> B)
    (l : list A) :
  Array_sort compareFn (map f l)
  = map f (Array_sort (fun a b => compareFn (f a) (f b)) l).
Proof.
  induction l as [|x l IH]; [reflexivity|].
  cbn [map Array_sort fold_right].
  fold (Array_sort compareFn (map f l)).
  fold (Array_sort (fun a b => compareFn (f a) (f b)) l).
  rewrite IH. apply sort_insert_map.
Qed.

Lemma sorted_distinct_strict (l : list Q) :
  StronglySorted Qle l -> NoDup (map Qred l) -> StronglySorted Qlt l.
Proof.
  induction 1 as [|x l Hs IH Hx]; intros Hnd; [constructor|].
  cbn [map] in Hnd. apply NoDup_cons in Hnd as [Hn Hnd].
  constructor; [apply IH, Hnd|].
  rewrite Forall_forall in Hx |- *. intros y Hy.
  destruct (proj1 (Qle_lteq x y) (Hx y Hy)) as [Hlt|Heq]; [exact Hlt|].
  exfalso. apply Hn. apply list_elem_of_fmap. exists y.
  split; [|exact Hy]. apply Qred_complete. exact Heq.
Qed.

Lemma sameValueZero_canonical (a b : Generations.Cell) :
  Generations.sameValueZero a b = true
  <-> Generations.canonical a = Generations.canonical b.
Proof.
  destruct a as [[x| | |]|s|x| |], b as [[y| | |]|t|y| |];
    cbn [Generations.sameValueZero Generations.canonical];
    try (split; intros H; first [discriminate H|reflexivity]).
  - rewrite Qeq_bool_iff. split.
    + intros H. apply Qred_complete in H. rewrite H. reflexivity.
    + intros [= H]. rewrite <- (Qred_correct x), <- (Qred_correct y), H.
      reflexivity.
  - rewrite String.eqb_eq. split; congruence.
  - destruct x, y; cbn; split; congruence.
Qed.

Lemma SetC_fold_incl (xs acc : list Generations.Cell) (y : Generations.Cell) :
  y ∈ acc -> y ∈ fold_left Generations.Set_add xs acc.
Proof.
  revert acc. induction xs as [|a xs IH]; intros acc H; [exact H|].
  cbn [fold_left]. apply IH. unfold Generations.Set_add.
  destruct (existsb _ acc); [exact H|]. apply elem_of_app. left. exact H.
Qed.

Lemma SetC_fold_complete (xs acc : list Generations.Cell)
    (x : Generations.Cell) :
  x ∈ xs ->
  exists y,
    y ∈ fold_left Generations.Set_add xs acc
    /\ Generations.sameValueZero x y = true.
Proof.
  revert acc. induction xs as [|a xs IH]; intros acc Hx.
  - apply elem_of_nil in Hx. destruct Hx.
  - cbn [fold_left]. apply elem_of_cons in Hx as [->|Hx]; [|apply IH, Hx].
    assert (Hadd : exists y, y ∈ Generations.Set_add acc a
                             /\ Generations.sameValueZero a y = true).
    { unfold Generations.Set_add.
      destruct (existsb (Generations.sameValueZero a) acc) eqn:E.
      - apply existsb_exists in E as (y & Hy & Hs). exists y.
        split; [apply list_elem_of_In, Hy|exact Hs].
      - exists a. split; [apply elem_of_app; right; left|].
        apply sameValueZero_canonical. reflexivity. }
    destruct Hadd as (y & Hy & Hs). exists y.
    split; [apply SetC_fold_incl, Hy|exact Hs].
Qed.

Lemma SetC_fold_sound (xs acc : list Generations.Cell) (y : Generations.Cell) :
  y ∈ fold_left Generations.Set_add xs acc -> y ∈ acc \/ y ∈ xs.
Proof.
  revert acc. induction xs as [|a xs IH]; intros acc H; [left; exact H|].
  cbn [fold_left] in H. apply IH in H as [H|H]; [|right; right; exact H].
  unfold Generations.Set_add in H.
  destruct (existsb _ acc); [left; exact H|].
  apply elem_of_app in H as [H|H]; [left; exact H|].
  apply list_elem_of_singleton in H as ->. right. left.
Qed.

Lemma SetC_fold_NoDup (xs acc : list Generations.Cell) :
  NoDup (map Generations.canonical acc) ->
  NoDup (map Generations.canonical (fold_left Generations.Set_add xs acc)).
Proof.
  revert acc. induction xs as [|a xs IH]; intros acc H; [exact H|].
  cbn [fold_left]. apply IH. unfold Generations.Set_add.
  destruct (existsb (Generations.sameValueZero a) acc) eqn:E; [exact H|].
  rewrite map_app. apply NoDup_app. split; [exact H|].
  split; [|apply NoDup_singleton].
  intros c Hc Hc'. cbn [map] in Hc'. apply list_elem_of_singleton in Hc'.
  subst c. apply list_elem_of_fmap in Hc as (y & Hy1 & Hy2).
  assert (E' : existsb (Generations.sameValueZero a) acc = true).
  { apply existsb_exists. exists y. split; [apply list_elem_of_In, Hy2|].
    apply sameValueZero_canonical. exact Hy1. }
  congruence.
Qed.

Lemma finite_cells (l : list Generations.Cell) :
  (forall g, g ∈ l -> is_Some (Generations.finite g)) ->
  l = map (fun q => Generations.CNumber (Generations.Finite q))
          (omap Generations.finite l).
Proof.
  induction l as [|g l IH]; intros H; [reflexivity|].
  destruct (H g ltac:(left)) as [q Hq].
  destruct g as [[x| | |]|s|x| |]; try discriminate Hq.
  cbn. f_equal. apply IH. intros g' Hg'. apply H. right. exact Hg'.
Qed.

Section GenerationFacts.

Import Generations.

Variable StringToNumber : string -> JsNumber.
Variable Number_toString : Q -> string.
Variable data : list Row.

(** The string of a number depends on its value only, and tells two
    numbers apart; it is the string neither of [NaN] nor of
    [undefined]. *)
Hypothesis Number_toString_proper :
  forall a b, (a == b)%Q -> Number_toString a = Number_toString b.
Hypothesis Number_toString_inj :
  forall a b, Number_toString a = Number_toString b -> (a == b)%Q.
Hypothesis Number_toString_numeral :
  forall a, Number_toString a <> "NaN" /\ Number_toString a <> "undefined".

Abbreviation notNumber := (Generations.isNaN StringToNumber).
Abbreviation str := (Generations.String_ Number_toString).
Abbreviation byGen :=
  (Generations.dataByGenArray StringToNumber Number_toString data).
Abbreviation gvals := (Generations.generationValues StringToNumber data).
Abbreviation valuesOf :=
  (Generations.genValues StringToNumber Number_toString data).
Abbreviation fin := (fun q : Q => CNumber (Finite q)).

Lemma sameValueZero_String (a b : Cell) :
  sameValueZero a b = true -> str a = str b.
Proof.
  destruct a as [[x| | |]|s|x| |], b as [[y| | |]|t|y| |];
    cbn [sameValueZero Generations.String_];
    try discriminate; try reflexivity.
  - intros H. apply Number_toString_proper, Qeq_bool_iff, H.
  - intros H. apply String.eqb_eq, H.
  - destruct x, y; cbn; congruence.
Qed.

Lemma elem_of_gvals (g : Cell) :
  g ∈ gvals
  <-> g ∈ Generations.Set_values (map Generation data) /\ notNumber g = false.
Proof.
  unfold Generations.generationValues.
  rewrite Array_sort_Permutation, elem_of_List_filter, negb_true_iff.
  reflexivity.
Qed.

Lemma gvals_sound (g : Cell) :
  g ∈ gvals -> exists d, d ∈ data /\ Generation d = g /\ notNumber g = false.
Proof.
  intros H. apply elem_of_gvals in H as [H Hn].
  apply SetC_fold_sound in H as [H|H]; [apply elem_of_nil in H; destruct H|].
  apply list_elem_of_fmap in H as (d & E & Hd). exists d. auto.
Qed.

Lemma gvals_complete (d : Row) :
  d ∈ data -> notNumber (Generation d) = false ->
  exists g, g ∈ gvals /\ str g = str (Generation d).
Proof.
  intros Hd Hn.
  destruct (SetC_fold_complete (map Generation data) [] (Generation d))
    as (y & Hy & Hs).
  { apply list_elem_of_fmap. exists d. auto. }
  exists y. split; [|symmetry; apply sameValueZero_String, Hs].
  apply elem_of_gvals. split; [exact Hy|].
  apply sameValueZero_canonical in Hs.
  destruct (Generation d) as [[x| | |]|s|x| |], y as [[z| | |]|t|z| |];
    cbn [canonical] in Hs; try discriminate Hs; try exact Hn;
    try reflexivity.
  injection Hs as <-. exact Hn.
Qed.

Lemma elem_of_valuesOf (k : string) (d : Row) :
  d ∈ valuesOf k
  <-> d ∈ data /\ str (Generation d) = k /\ notNumber (Total d) = false.
Proof.
  unfold Generations.genValues.
  rewrite elem_of_List_filter, andb_true_iff, String.eqb_eq, negb_true_iff.
  reflexivity.
Qed.

Lemma byGen_shape :
  byGen
  = map (fun g => mkEntry (str g) (valuesOf (str g)))
        (List.filter
           (fun g => negb (length (valuesOf (str g)) =? 0))
           gvals).
Proof.
  unfold Generations.dataByGenArray, Generations.generations.
  rewrite map_map, filter_map_comm. reflexivity.
Qed.

Lemma elem_of_byGen (e : Entry) :
  e ∈ byGen
  <-> exists g,
        g ∈ gvals
        /\ e = mkEntry (str g) (valuesOf (str g))
        /\ valuesOf (str g) <> [].
Proof.
  rewrite byGen_shape, list_elem_of_fmap. split.
  - intros (g & -> & Hg). apply elem_of_List_filter in Hg as [Hg Hlen].
    exists g. split; [exact Hg|]. split; [reflexivity|].
    intros E. rewrite E in Hlen. discriminate.
  - intros (g & Hg & -> & Hne). exists g. split; [reflexivity|].
    apply elem_of_List_filter. split; [exact Hg|].
    destruct (valuesOf (str g)); [congruence|reflexivity].
Qed.

Lemma byGen_covers (d : Row) :
  d ∈ data ->
  notNumber (Generation d) = false -> notNumber (Total d) = false ->
  exists e, e ∈ byGen /\ key e = str (Generation d) /\ d ∈ values e.
Proof.
  intros Hd Hg Ht.
  destruct (gvals_complete d Hd Hg) as (g & Hin & Heq).
  assert (Hval : d ∈ valuesOf (str g)).
  { apply elem_of_valuesOf. auto. }
  exists (mkEntry (str g) (valuesOf (str g))).
  split; [|split; [exact Heq|exact Hval]].
  apply elem_of_byGen. exists g. split; [exact Hin|]. split; [reflexivity|].
  intros E. rewrite E in Hval. apply elem_of_nil in Hval. exact Hval.
Qed.

Lemma byGen_values (e : Entry) :
  e ∈ byGen ->
  values e = valuesOf (key e)
  /\ values e <> []
  /\ (exists d,
        d ∈ data /\ notNumber (Generation d) = false
        /\ key e = str (Generation d))
  /\ forall d,
       d ∈ values e
       <-> d ∈ data /\ str (Generation d) = key e
           /\ notNumber (Total d) = false.
Proof.
  intros He. apply elem_of_byGen in He as (g & Hg & -> & Hne).
  cbn [key values]. split; [reflexivity|]. split; [exact Hne|].
  split; [|intros d; apply elem_of_valuesOf].
  destruct (gvals_sound g Hg) as (d & Hd & <- & Hn). exists d. auto.
Qed.

(** With numbers for generations, the values that become keys are
    finite numbers in strictly ascending order. *)
Lemma gvals_numeric :
  (forall d, d ∈ data -> numberOrMissing (Generation d) = true) ->
  exists qs, gvals = map fin qs /\ StronglySorted Qlt qs.
Proof.
  intros Hnum.
  set (L1 := List.filter (fun g => negb (notNumber g))
                         (Generations.Set_values (map Generation data))).
  assert (Hfin : forall g, g ∈ L1 -> is_Some (finite g)).
  { intros g Hg. apply elem_of_List_filter in Hg as [Hg Hn].
    apply SetC_fold_sound in Hg as [Hg|Hg];
      [apply elem_of_nil in Hg; destruct Hg|].
    apply list_elem_of_fmap in Hg as (d & -> & Hd).
    specialize (Hnum d Hd).
    destruct (Generation d) as [[x| | |]|s|x| |];
      try discriminate Hnum; try discriminate Hn.
    eexists. reflexivity. }
  pose proof (finite_cells L1 Hfin) as HL1.
  set (qs1 := omap finite L1) in HL1.
  assert (Hnd : NoDup (map Qred qs1)).
  { assert (H : NoDup (map canonical L1)).
    { apply NoDup_map_filter, SetC_fold_NoDup. constructor. }
    rewrite HL1, map_map in H. cbn [canonical] in H.
    rewrite <- (map_map Qred fin) in H.
    apply (NoDup_fmap_1 fin) in H. exact H. }
  exists (Array_sort (fun a b => byNumber StringToNumber (fin a) (fin b)) qs1).
  split.
  - unfold Generations.generationValues. fold L1. rewrite HL1 at 1.
    apply Array_sort_map.
  - assert (Hle : forall a b,
               (byNumber StringToNumber (fin a) (fin b) <= 0)%Z
               <-> (a <= b)%Q).
    { intros a b. unfold byNumber. cbn [ToNumber minus sortOrder].
      destruct (Qcompare_spec (a - b) 0) as [H|H|H]; split; intros H';
        try lia; lra. }
    apply sorted_distinct_strict.
    + apply StronglySorted_weaken
        with (R := fun a b =>
                     (byNumber StringToNumber (fin a) (fin b) <= 0)%Z).
      { intros a b. apply Hle. }
      apply Array_sort_sorted_total.
      * intros a b H. apply Hle. apply Qlt_le_weak, Qnot_le_lt.
        intros Hab. apply Hle in Hab. lia.
      * intros a b c. rewrite !Hle. apply Qle_trans.
    + rewrite Array_sort_Permutation. exact Hnd.
Qed.

(** X25.  Every row whose generation and total pass [!isNaN] is among
    the values of an entry, the one keyed by the string of its
    generation.  The values of an entry are not empty; they are exactly
    the rows of the data with a total that passes [!isNaN] and with a
    generation whose string is the key; and the key is the string of
    the generation of a row whose generation passes [!isNaN]. *)
Theorem generations_hold_the_valid_rows :
  (forall d,
      d ∈ data ->
      isNaN StringToNumber (Generation d) = false ->
      isNaN StringToNumber (Total d) = false ->
      exists e,
        e ∈ dataByGenArray StringToNumber Number_toString data
        /\ key e = String_ Number_toString (Generation d)
        /\ d ∈ values e)
  /\ (forall e,
        e ∈ dataByGenArray StringToNumber Number_toString data ->
        values e <> []
        /\ (exists d,
              d ∈ data /\ isNaN StringToNumber (Generation d) = false
              /\ key e = String_ Number_toString (Generation d))
        /\ forall d,
             d ∈ values e
             <-> d ∈ data
                 /\ String_ Number_toString (Generation d) = key e
                 /\ isNaN StringToNumber (Total d) = false).
Proof.
  split; [exact byGen_covers|].
  intros e He. destruct (byGen_values e He) as (_ & Hne & Hkey & Hval).
  auto.
Qed.

(** X26.  When the generation of every row is a number, [NaN] or
    missing: the entries are in strictly ascending order of generation,
    one for each generation that has a row with a valid total; no two
    entries have the same key; the values of an entry all have the
    generation of its key, so that no row is among the values of two
    entries; and there is no entry exactly when no row has both a
    generation and a total that pass [!isNaN]. *)
Theorem numeric_generations_ascending :
  (forall d, d ∈ data -> numberOrMissing (Generation d) = true) ->
  (exists gs,
      map key (dataByGenArray StringToNumber Number_toString data)
      = map Number_toString gs
      /\ StronglySorted Qlt gs
      /\ forall g, g ∈ gs ->
           exists d, d ∈ data /\ Generation d = CNumber (Finite g))
  /\ NoDup (map key (dataByGenArray StringToNumber Number_toString data))
  /\ (forall e d,
        e ∈ dataByGenArray StringToNumber Number_toString data ->
        d ∈ values e ->
        exists g, Generation d = CNumber (Finite g)
                  /\ Number_toString g = key e)
  /\ (dataByGenArray StringToNumber Number_toString data = []
      <-> forall d, d ∈ data ->
            isNaN StringToNumber (Generation d) = true
            \/ isNaN StringToNumber (Total d) = true).
Proof.
  intros Hnum.
  destruct (gvals_numeric Hnum) as (qs & Hqs & Hsorted).
  assert (Hrows : forall e d, e ∈ byGen -> d ∈ values e ->
            exists g, Generation d = CNumber (Finite g)
                      /\ Number_toString g = key e).
  { intros e d He Hd.
    destruct (byGen_values e He) as (_ & _ & (d0 & Hd0 & Hn0 & Hk) & Hval).
    apply Hval in Hd as (Hd & Hstr & _).
    pose proof (Hnum d Hd) as Nd. pose proof (Hnum d0 Hd0) as Nd0.
    rewrite Hk in Hstr.
    destruct (Generation d0) as [[x0| | |]|s0|x0| |];
      try discriminate Nd0; try discriminate Hn0.
    destruct (Generation d) as [[x| | |]|s|x| |]; try discriminate Nd;
      cbn [Generations.String_] in Hstr.
    - exists x. split; [reflexivity|]. rewrite Hk. exact Hstr.
    - exfalso. symmetry in Hstr.
      apply (proj1 (Number_toString_numeral x0)), Hstr.
    - exfalso. symmetry in Hstr.
      apply (proj2 (Number_toString_numeral x0)), Hstr. }
  assert (Hkeys : exists gs,
             map key byGen = map Number_toString gs
             /\ StronglySorted Qlt gs
             /\ forall g, g ∈ gs ->
                  exists d, d ∈ data /\ Generation d = CNumber (Finite g)).
  { rewrite byGen_shape, map_map. cbn [key]. rewrite Hqs.
    rewrite filter_map_comm, map_map. cbn [Generations.String_].
    eexists. split; [reflexivity|].
    split; [apply StronglySorted_filter, Hsorted|].
    intros g Hg. apply elem_of_List_filter in Hg as [Hg _].
    assert (Hin : fin g ∈ gvals).
    { rewrite Hqs. apply list_elem_of_fmap. exists g. auto. }
    destruct (gvals_sound _ Hin) as (d & Hd & E & _). exists d. auto. }
  split; [exact Hkeys|]. split; [|split; [exact Hrows|]].
  - destruct Hkeys as (gs & -> & Hs & _).
    induction Hs as [|x l Hs IH Hx]; cbn [map]; [constructor|].
    apply NoDup_cons. split; [|exact IH]. intros Hin.
    apply list_elem_of_fmap in Hin as (y & E & Hy).
    apply Number_toString_inj in E. rewrite Forall_forall in Hx.
    specialize (Hx y Hy). rewrite E in Hx. apply (Qlt_irrefl y), Hx.
  - split.
    + intros E d Hd.
      destruct (notNumber (Generation d)) eqn:Hg; [left; reflexivity|].
      destruct (notNumber (Total d)) eqn:Ht; [right; reflexivity|].
      destruct (byGen_covers d Hd Hg Ht) as (e & He & _).
      rewrite E in He. apply elem_of_nil in He. destruct He.
    + intros H.
      assert (Hno : forall e, e ∈ byGen -> False).
      { intros e He.
        destruct (byGen_values e He) as (_ & Hne & _ & Hval).
        destruct (values e) as [|d vs] eqn:Ev; [congruence|].
        assert (Hd : d ∈ values e) by (rewrite Ev; left).
        destruct (Hrows e d He Hd) as (g & Hg & _).
        destruct (proj1 (Hval d) ltac:(left)) as (Hd' & _ & Ht).
        destruct (H d Hd') as [Hn|Hn]; [|congruence].
        rewrite Hg in Hn. discriminate Hn. }
      destruct byGen as [|e l]; [reflexivity|].
      exfalso. apply (Hno e). left.
Qed.

Lemma extent_numeric {A : Type} (valueof : A -> Cell) (l : list A)
    (acc : option (Cell * Cell)) :
  (forall x, x ∈ l -> numberOrMissing (valueof x) = true) ->
  match acc with
  | None | Some (CNumber (Finite _), CNumber (Finite _)) => True
  | _ => False
  end ->
  match fold_left (extent_step StringToNumber valueof) l acc with
  | None =>
      fold_left PcpView.rangeStep (map (fun x => finite (valueof x)) l)
        match acc with
        | Some (CNumber (Finite lo), CNumber (Finite hi)) => (Some lo, Some hi)
        | _ => (None, None)
        end
      = (None, None)
  | Some (CNumber (Finite lo), CNumber (Finite hi)) =>
      fold_left PcpView.rangeStep (map (fun x => finite (valueof x)) l)
        match acc with
        | Some (CNumber (Finite lo), CNumber (Finite hi)) => (Some lo, Some hi)
        | _ => (None, None)
        end
      = (Some lo, Some hi)
  | _ => False
  end.
Proof.
  revert acc. induction l as [|x l IH]; intros acc Hnum Hacc.
  - cbn [fold_left map].
    destruct acc as [[[[lo| | |]|s|b| |] [[hi| | |]|t|c| |]]|];
      try destruct Hacc; reflexivity.
  - cbn [fold_left map].
    assert (Hx : numberOrMissing (valueof x) = true) by (apply Hnum; left).
    assert (Hl : forall y, y ∈ l -> numberOrMissing (valueof y) = true).
    { intros y Hy. apply Hnum. right. exact Hy. }
    assert (Hstep :
      match extent_step StringToNumber valueof acc x with
      | None | Some (CNumber (Finite _), CNumber (Finite _)) => True
      | _ => False
      end
      /\ match extent_step StringToNumber valueof acc x with
         | Some (CNumber (Finite lo), CNumber (Finite hi)) =>
             (Some lo, Some hi)
         | _ => (None, None)
         end
         = PcpView.rangeStep
             match acc with
             | Some (CNumber (Finite lo), CNumber (Finite hi)) =>
                 (Some lo, Some hi)
             | _ => (None, None)
             end
             (finite (valueof x))).
    { unfold extent_step, PcpView.rangeStep.
      destruct (valueof x) as [[v| | |]|s|b| |]; try discriminate Hx;
        cbn [finite];
        destruct acc as [[[[lo| | |]|s'|b'| |] [[hi| | |]|t'|c'| |]]|];
        try destruct Hacc; cbn; try (split; [exact I|reflexivity]).
      destruct (Qlt_bool v lo), (Qlt_bool hi v); split; try exact I;
        reflexivity. }
    destruct Hstep as [Hok Hview].
    specialize (IH (extent_step StringToNumber valueof acc x) Hl Hok).
    rewrite Hview in IH. exact IH.
Qed.

Lemma extent_bounds {A : Type} (valueof : A -> Cell) (l : list A)
    (x : A) (v : Q) :
  (forall y, y ∈ l -> numberOrMissing (valueof y) = true) ->
  x ∈ l -> valueof x = CNumber (Finite v) ->
  exists lo hi,
    extent StringToNumber l valueof = Some (fin lo, fin hi)
    /\ (lo <= hi)%Q
    /\ forall y w, y ∈ l -> valueof y = CNumber (Finite w) ->
                   (lo <= w /\ w <= hi)%Q.
Proof.
  intros Hnum Hx Hv. unfold extent.
  pose proof (extent_numeric valueof l None Hnum I) as Hr.
  destruct (range_loop (map (fun x => finite (valueof x)) l) (None, None) I)
    as (Hord & _ & Hnew & _).
  assert (Hin : Some v ∈ map (fun x => finite (valueof x)) l).
  { apply list_elem_of_fmap. exists x. rewrite Hv. auto. }
  pose proof (Hnew v Hin) as Hcov.
  destruct (fold_left (extent_step StringToNumber valueof) l None)
    as [[[[lo| | |]|s|b| |] [[hi| | |]|t|c| |]]|]; try contradiction.
  - rewrite Hr in Hord, Hnew. exists lo, hi. split; [reflexivity|].
    split; [exact Hord|]. intros y w Hy Hw. apply (Hnew w).
    apply list_elem_of_fmap. exists y. rewrite Hw. auto.
  - rewrite Hr in Hcov. destruct Hcov.
Qed.

(** X27.  When the total of every row is a number, [NaN] or missing,
    the return with the message about invalid totals is never taken:
    the chart is prepared as soon as there is an entry, with at least
    one entry and with an extent of two finite numbers, in order, that
    hold between them every finite total of the data. *)
Theorem numeric_totals_have_an_extent :
  (forall d, d ∈ data -> numberOrMissing (Total d) = true) ->
  prepare StringToNumber Number_toString data <> InvalidTotalStatData
  /\ (prepare StringToNumber Number_toString data = NoValidGenerationData
      <-> dataByGenArray StringToNumber Number_toString data = [])
  /\ (forall gens lo hi,
        prepare StringToNumber Number_toString data = Chart gens (lo, hi) ->
        gens = dataByGenArray StringToNumber Number_toString data
        /\ 1 <= length gens
        /\ exists a b,
             lo = CNumber (Finite a) /\ hi = CNumber (Finite b)
             /\ (a <= b)%Q
             /\ forall d v, d ∈ data -> Total d = CNumber (Finite v) ->
                            (a <= v /\ v <= b)%Q).
Proof.
  intros Hnum. unfold Generations.prepare.
  destruct (length byGen =? 0) eqn:Elen.
  - apply Nat.eqb_eq, length_zero_iff_nil in Elen.
    split; [discriminate|]. split; [|discriminate].
    split; [intros _; exact Elen|reflexivity].
  - apply Nat.eqb_neq in Elen.
    assert (Hne : byGen <> []).
    { intros E. rewrite E in Elen. apply Elen. reflexivity. }
    assert (Hex : exists d t, d ∈ data /\ Total d = CNumber (Finite t)).
    { destruct byGen as [|e l] eqn:E; [congruence|].
      assert (He : e ∈ byGen) by (rewrite E; left).
      destruct (byGen_values e He) as (_ & Hnv & _ & Hval).
      destruct (values e) as [|d vs] eqn:Ev; [congruence|].
      destruct (proj1 (Hval d) ltac:(left)) as (Hd & _ & Ht).
      pose proof (Hnum d Hd) as Nd.
      destruct (Total d) as [[t| | |]|s|b| |] eqn:Et;
        try discriminate Nd; try discriminate Ht.
      exists d, t. auto. }
    destruct Hex as (d0 & t0 & Hd0 & Ht0).
    destruct (extent_bounds Total data d0 t0 Hnum Hd0 Ht0)
      as (lo & hi & -> & Hle & Hall).
    cbn [Generations.isNaN ToNumber].
    split; [discriminate|]. split.
    + split; [discriminate|]. intros H. contradiction.
    + intros gens lo' hi' [= <- <- <-]. split; [reflexivity|].
      split; [lia|]. exists lo, hi. auto.
Qed.

End GenerationFacts.

Lemma sampleString_proper (a b : Q) :
  (a == b)%Q -> sampleString a = sampleString b.
Proof.
  intros H. unfold sampleString. apply Qcanon.Q2Qc_eq_iff in H. rewrite H.
  reflexivity.
Qed.

Lemma sampleString_inj (a b : Q) :
  sampleString a = sampleString b -> (a == b)%Q.
Proof.
  unfold sampleString. intros H. cbn in H. injection H as H.
  apply pretty_positive_inj, encode_inj in H.
  apply Qcanon.Q2Qc_eq_iff. exact H.
Qed.

Lemma sampleString_numeral (a : Q) :
  sampleString a <> "NaN" /\ sampleString a <> "undefined".
Proof. unfold sampleString. cbn. split; discriminate. Qed.

Lemma generationSample_numeric (d : Generations.Row) :
  d ∈ generationSample ->
  Generations.numberOrMissing (Generations.Generation d) = true
  /\ Generations.numberOrMissing (Generations.Total d) = true.
Proof.
  unfold generationSample. intros H.
  repeat (apply elem_of_cons in H as [->|H]; [split; reflexivity|]).
  apply elem_of_nil in H. destruct H.
Qed.

(** The entries of the sample, by key and names. *)
Example sample_generations :
  map (fun e => (Generations.key e,
                 map Generations.Name (Generations.values e)))
      (Generations.dataByGenArray decimalNumber decimalString
         generationSample)
  = [("1", ["Bulbasaur"; "Ivysaur"]); ("2", ["Chikorita"])].
Proof. vm_compute. reflexivity. Qed.

(** A generation given once as the number 1 and once as the string that
    spells it: the [Set] keeps both, both get the key 1, and the two
    rows are among the values of both entries. *)
Example number_and_numeral_make_two_entries :
  map (fun e => (Generations.key e,
                 map Generations.Name (Generations.values e)))
      (Generations.dataByGenArray decimalNumber decimalString
         mixedGenerationSample)
  = [("1", ["Bulbasaur"; "Ivysaur"]); ("1", ["Bulbasaur"; "Ivysaur"]);
     ("2", ["Chikorita"])].
Proof. vm_compute. reflexivity. Qed.

(** A total that is [null] passes [!isNaN], so its row makes an entry,
    and [d3.extent] skips it: the message about invalid totals is
    shown. *)
Example null_total_is_reported_invalid :
  map Generations.key
      (Generations.dataByGenArray decimalNumber decimalString nullTotalSample)
  = ["1"]
  /\ Generations.extent decimalNumber nullTotalSample Generations.Total
     = None
  /\ Generations.prepare decimalNumber decimalString nullTotalSample
     = Generations.InvalidTotalStatData.
Proof. repeat split; vm_compute; reflexivity. Qed.

Lemma decimalString_proper (a b : Q) :
  (a == b)%Q -> decimalString a = decimalString b.
Proof.
  intros H. unfold decimalString. rewrite (Qfloor_comp a b H). reflexivity.
Qed.

Lemma generations_hold_the_valid_rows_witness :
  let byGen :=
    Generations.dataByGenArray decimalNumber decimalString generationSample in
  (forall a b, (a == b)%Q -> decimalString a = decimalString b)
  /\ map (fun e => (Generations.key e,
                    map Generations.Name (Generations.values e))) byGen
     = [("1", ["Bulbasaur"; "Ivysaur"]); ("2", ["Chikorita"])]
  /\ map (fun d =>
            (Generations.Name d,
             Generations.isNaN decimalNumber (Generations.Generation d),
             Generations.isNaN decimalNumber (Generations.Total d)))
         generationSample
     = [("Chikorita", false, false); ("Bulbasaur", false, false);
        ("Treecko", false, true); ("Ivysaur", false, false);
        ("MissingNo", true, false)]
  /\ (forall d,
        d ∈ generationSample ->
        Generations.isNaN decimalNumber (Generations.Generation d) = false ->
        Generations.isNaN decimalNumber (Generations.Total d) = false ->
        exists e,
          e ∈ byGen
          /\ Generations.key e
             = Generations.String_ decimalString (Generations.Generation d)
          /\ d ∈ Generations.values e)
  /\ (forall e,
        e ∈ byGen ->
        Generations.values e <> []
        /\ (exists d,
              d ∈ generationSample
              /\ Generations.isNaN decimalNumber (Generations.Generation d)
                 = false
              /\ Generations.key e
                 = Generations.String_ decimalString
                     (Generations.Generation d))
        /\ forall d,
             d ∈ Generations.values e
             <-> d ∈ generationSample
                 /\ Generations.String_ decimalString
                      (Generations.Generation d) = Generations.key e
                 /\ Generations.isNaN decimalNumber (Generations.Total d)
                    = false).
Proof.
  intros byGen. split; [exact decimalString_proper|].
  split; [vm_compute; reflexivity|]. split; [vm_compute; reflexivity|].
  exact (generations_hold_the_valid_rows decimalNumber decimalString
           generationSample decimalString_proper).
Defined.

Lemma numeric_generations_ascending_witness :
  let byGen :=
    Generations.dataByGenArray decimalNumber sampleString generationSample in
  ((forall a b, (a == b)%Q -> sampleString a = sampleString b)
   /\ (forall a b, sampleString a = sampleString b -> (a == b)%Q)
   /\ (forall a, sampleString a <> "NaN" /\ sampleString a <> "undefined")
   /\ (forall d, d ∈ generationSample ->
         Generations.numberOrMissing (Generations.Generation d) = true))
  /\ (map Generations.key byGen = map sampleString [1; 2]%Q
      /\ map (fun e => map Generations.Name (Generations.values e)) byGen
         = [["Bulbasaur"; "Ivysaur"]; ["Chikorita"]])
  /\ (exists gs,
        map Generations.key byGen = map sampleString gs
        /\ StronglySorted Qlt gs
        /\ forall g, g ∈ gs ->
             exists d,
               d ∈ generationSample
               /\ Generations.Generation d
                  = Generations.CNumber (Generations.Finite g))
  /\ NoDup (map Generations.key byGen)
  /\ (forall e d,
        e ∈ byGen -> d ∈ Generations.values e ->
        exists g,
          Generations.Generation d
          = Generations.CNumber (Generations.Finite g)
          /\ sampleString g = Generations.key e)
  /\ (byGen = []
      <-> forall d, d ∈ generationSample ->
            Generations.isNaN decimalNumber (Generations.Generation d) = true
            \/ Generations.isNaN decimalNumber (Generations.Total d) = true).
Proof.
  intros byGen.
  assert (H : forall d, d ∈ generationSample ->
                Generations.numberOrMissing (Generations.Generation d) = true)
    by (intros d Hd; apply (generationSample_numeric d Hd)).
  split.
  { split; [exact sampleString_proper|]. split; [exact sampleString_inj|].
    split; [exact sampleString_numeral|exact H]. }
  split; [split; vm_compute; reflexivity|].
  exact (numeric_generations_ascending decimalNumber sampleString
           generationSample sampleString_proper sampleString_inj
           sampleString_numeral H).
Defined.

Lemma numeric_totals_have_an_extent_witness :
  let byGen :=
    Generations.dataByGenArray decimalNumber decimalString generationSample in
  let prepared :=
    Generations.prepare decimalNumber decimalString generationSample in
  (forall d, d ∈ generationSample ->
     Generations.numberOrMissing (Generations.Total d) = true)
  /\ prepared
     = Generations.Chart byGen
         (Generations.CNumber (Generations.Finite 100),
          Generations.CNumber (Generations.Finite 405))
  /\ prepared <> Generations.InvalidTotalStatData
  /\ (prepared = Generations.NoValidGenerationData <-> byGen = [])
  /\ (forall gens lo hi,
        prepared = Generations.Chart gens (lo, hi) ->
        gens = byGen
        /\ 1 <= length gens
        /\ exists a b,
             lo = Generations.CNumber (Generations.Finite a)
             /\ hi = Generations.CNumber (Generations.Finite b)
             /\ (a <= b)%Q
             /\ forall d v,
                  d ∈ generationSample ->
                  Generations.Total d
                  = Generations.CNumber (Generations.Finite v) ->
                  (a <= v /\ v <= b)%Q).
Proof.
  intros byGen prepared.
  assert (H : forall d, d ∈ generationSample ->
                Generations.numberOrMissing (Generations.Total d) = true)
    by (intros d Hd; apply (generationSample_numeric d Hd)).
  split; [exact H|]. split; [vm_compute; reflexivity|].
  exact (numeric_totals_have_an_extent decimalNumber decimalString
           generationSample H).
Defined.
